(** * RPiNWR: SAME header reconciliation and the alert cache

    A shallow embedding of [RPiNWR/messages/SAME.py] and
    [RPiNWR/messages/cache.py], and the properties of the specification
    that were checked against it.

    Conventions of the embedding.
    - A Python [str] is the list of its code points ([pystr]); [ord] and
      [chr] are therefore the identity.  A list of one-character strings
      is the same list.
    - A Python exception is the [Raise] branch of the result type [res];
      a method of an object returns its result together with the state
      the object is left in, also when it raises.
    - [time.time()] and the cache's injected clock are a function from the
      number of readings taken so far to the value read; every call in the
      source takes one reading.  Times are whole seconds.
    - Python's [float] weights and quotients are exact rationals ([Q]);
      rounding of floating-point division is not represented.
    - A confidence is an integer or a digit character ([cval]); [int(x)]
      reads unsigned ASCII decimal numerals only.
    - The reference data of [sources.radio.nwr_data] and the calls into
      [time] and [calendar] are parameters ([nwr_data], [pytime]).
    - The headers handed to [average_message] are objects of their own
      (no two entries of the list are the same list).
    - [received_callback] is taken not to touch the message; [print] and
      the output of [logging] are not represented. *)

From Stdlib Require Import ZArith List String Ascii Bool Lia QArith Qround Sorted.
Import ListNotations.
Local Open Scope Z_scope.

(** ** Python values, exceptions and sequences *)

Inductive exn : Type :=
| IndexError
| TypeError
| ValueError
| AssertionError
| ZeroDivisionError
| AttributeError.

Inductive res (A : Type) : Type :=
| Ok (a : A)
| Raise (e : exn).
Arguments Ok {A} a.
Arguments Raise {A} e.

Definition bind {A B : Type} (m : res A) (k : A -> res B) : res B :=
  match m with
  | Ok a => k a
  | Raise e => Raise e
  end.

Declare Scope py_scope.
Delimit Scope py_scope with py.
Notation "x <- m ;; k" := (bind m (fun x => k))
  (at level 61, m at next level, right associativity) : py_scope.
Notation "' p <- m ;; k" := (bind m (fun p => k))
  (at level 61, p pattern, m at next level, right associativity) : py_scope.
Local Open Scope py_scope.

Definition pystr : Type := list Z.

(** The code points of an ASCII literal. *)
Definition str (s : string) : pystr :=
  map (fun a => Z.of_nat (nat_of_ascii a)) (list_ascii_of_string s).

Definition len {A : Type} (l : list A) : Z := Z.of_nat (List.length l).

(** [l[i]], with Python's negative indices. *)
Definition getitem {A : Type} (l : list A) (i : Z) : res A :=
  let j := if i <? 0 then i + len l else i in
  if j <? 0 then Raise IndexError
  else match nth_error l (Z.to_nat j) with
       | Some a => Ok a
       | None => Raise IndexError
       end.

(** [l[i] = v]. *)
Fixpoint set_nth {A : Type} (l : list A) (n : nat) (v : A) : list A :=
  match l, n with
  | [], _ => []
  | _ :: t, O => v :: t
  | h :: t, S n' => h :: set_nth t n' v
  end.

Definition setitem {A : Type} (l : list A) (i : Z) (v : A) : res (list A) :=
  let j := if i <? 0 then i + len l else i in
  if (j <? 0) || (len l <=? j) then Raise IndexError
  else Ok (set_nth l (Z.to_nat j) v).

(** A slice bound, as [slice.indices] adjusts it. *)
Definition clamp_index (n i : Z) : Z :=
  let j := if i <? 0 then i + n else i in
  Z.max 0 (Z.min n j).

(** [l[a:b]]. *)
Definition slice {A : Type} (l : list A) (a b : Z) : list A :=
  let a' := clamp_index (len l) a in
  let b' := clamp_index (len l) b in
  firstn (Z.to_nat (b' - a')) (skipn (Z.to_nat a') l).

(** [range(a, b)]. *)
Definition range (a b : Z) : list Z :=
  map (fun k => a + Z.of_nat k) (seq 0 (Z.to_nat (b - a))).

(** [range(a, b, 7)]. *)
Definition range7 (a b : Z) : list Z :=
  map (fun k => a + 7 * Z.of_nat k) (seq 0 (Z.to_nat ((b - a + 6) / 7))).

Fixpoint foldM {A S : Type} (f : S -> A -> res S) (l : list A) (s : S) : res S :=
  match l with
  | [] => Ok s
  | a :: t => s' <- f s a ;; foldM f t s'
  end.

Fixpoint mapM {A B : Type} (f : A -> res B) (l : list A) : res (list B) :=
  match l with
  | [] => Ok []
  | a :: t => b <- f a ;; bs <- mapM f t ;; Ok (b :: bs)
  end.

Definition sum (l : list Z) : Z := fold_left Z.add l 0.

Fixpoint pystr_eqb (a b : pystr) : bool :=
  match a, b with
  | [], [] => true
  | x :: a', y :: b' => (x =? y) && pystr_eqb a' b'
  | _, _ => false
  end.

(** [a < b] on strings: lexicographic on code points. *)
Fixpoint pystr_ltb (a b : pystr) : bool :=
  match a, b with
  | _, [] => false
  | [], _ :: _ => true
  | x :: a', y :: b' => (x <? y) || ((x =? y) && pystr_ltb a' b')
  end.

Definition mem (c : Z) (s : pystr) : bool := existsb (Z.eqb c) s.

(** ** [unicodify] *)

Definition unicodify_char (c : Z) : Z :=
  if c =? 0 then 0x2A00
  else if c <=? 0x1F then Z.lor c 0x2400
  else if c >? 126 then Z.lor (Z.land c 0xFF) 0x1E00
  else c.

Definition unicodify (s : pystr) : pystr := map unicodify_char s.

(** The code points [unicodify] is meant to produce: printable ASCII, the
    circled dot, the Control Pictures, and Latin Extended Additional. *)
Definition printable (c : Z) : Prop :=
  32 <= c <= 126 \/ c = 0x2A00 \/ 0x2401 <= c <= 0x241F \/ 0x1E7F <= c <= 0x1EFF.

(** The facts about one byte, as a test that can be run on every byte. *)
Definition unicodify_char_check (c : Z) : bool :=
  let c' := unicodify_char c in
  (Z.land c' 0xFF =? Z.land c 0xFF)
  && implb ((32 <=? c) && (c <=? 126)) (c' =? c)
  && implb (c =? 0) (c' =? 0x2A00)
  && implb ((1 <=? c) && (c <=? 0x1F)) ((0x2401 <=? c') && (c' <=? 0x241F))
  && implb (126 <? c) ((0x1E7F <=? c') && (c' <=? 0x1EFF)).

(** ** [ConfidentCharacter] *)

Module ConfidentCharacter.

Record t : Type := mk {
  char : Z;
  bitwise_confidence : list Z;
  confidence : Z
}.

Definition __init__ (char : Z) (confidence : option Z)
    (bitwise_confidence : option (list Z)) : res t :=
  match confidence with
  | None =>
      match bitwise_confidence with
      | None => Raise TypeError
      | Some bc =>
          if negb (len bc =? 8) then Raise ValueError
          else Ok (mk char bc (Z.shiftr (sum bc) 3))
      end
  | Some c =>
      match bitwise_confidence with
      | Some _ => Raise ValueError
      | None => Ok (mk char (repeat c 8) c)
      end
  end.

(** [(ord(c) >> k) & 1], as a truth value. *)
Definition bit_set (c k : Z) : bool := negb (Z.land (Z.shiftr c k) 1 =? 0).

Definition get_bit_confidences (self : t) : res (list Z * list Z) :=
  foldM (fun '(bits_true, bits_false) k =>
           conf <- getitem (bitwise_confidence self) k ;;
           if bit_set (char self) k then
             old <- getitem bits_true k ;;
             bits_true' <- setitem bits_true k (old + 1 * conf) ;;
             Ok (bits_true', bits_false)
           else
             old <- getitem bits_false k ;;
             bits_false' <- setitem bits_false k (old + 1 * conf) ;;
             Ok (bits_true, bits_false'))
        (range 0 8) (repeat 0 8, repeat 0 8).

(** [list(map(add, a, b))]: as long as the shorter argument. *)
Fixpoint map_add (a b : list Z) : list Z :=
  match a, b with
  | x :: a', y :: b' => (x + y) :: map_add a' b'
  | _, _ => []
  end.

Definition __add__ (self other : t) : res t :=
  '(bits_true, bits_false) <- get_bit_confidences self ;;
  '(other_bits_true, other_bits_false) <- get_bit_confidences other ;;
  let new_bits_true := map_add bits_true other_bits_true in
  let new_bits_false := map_add bits_false other_bits_false in
  '(new_byte, new_bitwise_confidence) <-
    foldM (fun '(new_byte, nbc) i =>
             t_i <- getitem new_bits_true i ;;
             f_i <- getitem new_bits_false i ;;
             let how_true := t_i - f_i in
             if how_true >? 0 then
               nbc' <- setitem nbc i how_true ;;
               Ok (Z.lor new_byte (Z.shiftl 1 i), nbc')
             else
               nbc' <- setitem nbc i (- how_true) ;;
               Ok (new_byte, nbc'))
          (range 0 8) (0, repeat 0 8) ;;
  __init__ new_byte None (Some new_bitwise_confidence).

(** [__eq__]: the attribute dictionaries are equal. *)
Definition __eq__ (self other : t) : Prop := self = other.

(** What the constructor guarantees. *)
Definition wf (a : t) : Prop := List.length (bitwise_confidence a) = 8%nat.

(** The two vectors of [get_bit_confidences], bit by bit. *)
Definition true_weight (a : t) (k : nat) : Z :=
  if bit_set (char a) (Z.of_nat k) then nth k (bitwise_confidence a) 0 else 0.

Definition false_weight (a : t) (k : nat) : Z :=
  if bit_set (char a) (Z.of_nat k) then 0 else nth k (bitwise_confidence a) 0.

Definition signed (a : t) (k : nat) : Z := true_weight a k - false_weight a k.

(** [how_true] of the merge loop: summed true weight minus summed false
    weight. *)
Definition how_true (a b : t) (k : nat) : Z :=
  (true_weight a k + true_weight b k) - (false_weight a k + false_weight b k).

Definition how_trues (a b : t) : list Z := map (how_true a b) (seq 0 8).

Definition byte_of_bits (bs : list bool) : Z :=
  fold_left (fun byte '(i, b) => if b : bool then Z.lor byte (Z.shiftl 1 (Z.of_nat i)) else byte)
            (combine (seq 0 8) bs) 0.

(** The character whose signed bit weights are [ds]. *)
Definition merged (ds : list Z) : t :=
  mk (byte_of_bits (map (fun d => d >? 0) ds)) (map Z.abs ds)
     (Z.shiftr (sum (map Z.abs ds)) 3).

Definition example_W : t := mk 87 [3; 3; 3; 3; 3; 3; 3; 3] 3.
Definition example_G : t := mk 71 [1; 2; 1; 2; 1; 2; 1; 2] 1.
Definition example_X : t := mk 88 [9; 9; 9; 9; 9; 9; 9; 9] 9.

End ConfidentCharacter.

(** ** Numbers *)

(** Confidences arrive as a list of integers or as the characters of a
    digit string. *)
Inductive cval : Type :=
| CInt (z : Z)
| CChr (c : Z).

(** [int(x)]; only the ASCII digits are taken as digit characters. *)
Definition py_int (v : cval) : res Z :=
  match v with
  | CInt z => Ok z
  | CChr c => if (48 <=? c) && (c <=? 57) then Ok (c - 48) else Raise ValueError
  end.

(** The value in an arithmetic position: a character is a [TypeError]. *)
Definition as_int (v : cval) : res Z :=
  match v with
  | CInt z => Ok z
  | CChr _ => Raise TypeError
  end.

Definition Qltb (a b : Q) : bool := negb (Qle_bool b a).

(** [int(x)] of a quotient: truncation toward zero. *)
Definition Qtrunc (q : Q) : Z := Z.quot (Qnum q) (Zpos (Qden q)).

Definition Qmax (a b : Q) : Q := if Qltb a b then b else a.

Fixpoint insert_sorted {A : Type} (ltb : A -> A -> bool) (x : A) (l : list A) : list A :=
  match l with
  | [] => [x]
  | y :: t => if ltb y x then y :: insert_sorted ltb x t else x :: y :: t
  end.

(** [sorted(l)] for the order [ltb]. *)
Definition sorted {A : Type} (ltb : A -> A -> bool) (l : list A) : list A :=
  fold_right (insert_sorted ltb) [] l.

(** Tuples [(number, string)] compare on the number first. *)
Definition Qstr_ltb (a b : Q * pystr) : bool :=
  Qltb (fst a) (fst b) || (Qeq_bool (fst a) (fst b) && pystr_ltb (snd a) (snd b)).

Definition ZZ_ltb (a b : Z * Z) : bool :=
  (fst a <? fst b) || ((fst a =? fst b) && (snd a <? snd b)).

(** [max(l)] of a list of integers. *)
Definition py_max (l : list Z) : res Z :=
  match l with
  | [] => Raise ValueError
  | x :: t => Ok (fold_left Z.max t x)
  end.

(** [min(l)] of a list of pairs of integers. *)
Definition py_min_pair (l : list (Z * Z)) : res (Z * Z) :=
  match l with
  | [] => Raise ValueError
  | x :: t => Ok (fold_left (fun m y => if ZZ_ltb y m then y else m) t x)
  end.

(** ** Static tables *)

Definition _ORIGINATOR_CODES : list pystr :=
  map str ["EAS"; "CIV"; "WXR"; "PEP"]%string.

Definition _EVENT_CODES : list pystr :=
  map str ["BZW"; "CFA"; "CFW"; "DSW"; "FFA"; "FFW"; "FFS"; "FLA"; "FLW"; "FLS";
           "HWA"; "HWW"; "HUA"; "HUW"; "HLS"; "SVA"; "SVR"; "SVS"; "SMW"; "SPS";
           "TOA"; "TOR"; "TRA"; "TRW"; "TSA"; "TSW"; "WSA"; "WSW"; "EAN"; "EAT";
           "NIC"; "NPT"; "RMT"; "RWT"; "ADR"; "AVA"; "AVW"; "CAE"; "CDW"; "CEM";
           "EQW"; "EVI"; "FRW"; "HMW"; "LEW"; "LAE"; "TOE"; "NUW"; "RHW"; "SPW";
           "VOW"; "NMN"; "DMO"; "TXF"; "TXO"; "TXB"; "TXP"]%string.

Definition VALID_DURATIONS : list (Q * pystr) :=
  [(1, str "0015"); (1, str "0030"); (11 # 10, str "0045"); (11 # 10, str "0100");
   (1, str "0130"); (11 # 10, str "0200"); (1, str "0230"); (11 # 10, str "0300");
   (9 # 10, str "0330"); (11 # 10, str "0400"); (9 # 10, str "0430");
   (11 # 10, str "0500"); (9 # 10, str "0530"); (11 # 10, str "0600")]%Q.

Definition _DURATION_NUMBERS : list pystr := map snd VALID_DURATIONS.

Definition __ALPHA : pystr := str "ABCDEFGHIJKLMNOPQRSTUVWXYZ".
Definition __NUMERIC : pystr := str "0123456789".
Definition __PRINTABLE : pystr :=
  [0x10; 0x13] ++ filter (fun x => negb (x =? 43) && negb (x =? 45)) (range 33 127).

(** An entry of the positional grammar: a character class, or the integer
    that marks a repeatable block. *)
Inductive pattern : Type :=
| PStr (s : pystr)
| PInt (z : Z).

Definition _SAME_CHARS : list pattern :=
  [PStr (str "-"); PStr (str "ECWP"); PStr (str "AIXE"); PStr (str "SVRP"); PStr (str "-");
   PStr __ALPHA; PStr __ALPHA; PStr __ALPHA; PStr (str "-");
   PStr __PRINTABLE; PStr __PRINTABLE; PStr __PRINTABLE; PStr __PRINTABLE;
   PStr __PRINTABLE; PStr __PRINTABLE; PInt (-7);
   PStr (str "+"); PStr __NUMERIC; PStr __NUMERIC; PStr (str "0134"); PStr (str "05");
   PStr (str "-");
   PStr (str "0123"); PStr __NUMERIC; PStr __NUMERIC; PStr (str "012"); PStr __NUMERIC;
   PStr (str "012345"); PStr __NUMERIC; PStr (str "-");
   PStr __ALPHA; PStr __ALPHA; PStr __ALPHA; PStr __ALPHA; PStr (str "/");
   PStr (str "N"); PStr (str "W"); PStr (str "S"); PStr (str "-")].

Definition _END_SEQUENCE : pystr := str "+0___-_______-____/NWS-".

Definition underscore : Z := 95.
Definition dash : Z := 45.
Definition plus : Z := 43.

(** ** [_reconcile_character] *)

Definition bit_of (c j : Z) : Z := Z.land (Z.shiftr c j) 1.

Definition _reconcile_character (bitstrue bitsfalse : list Z) (pat : pystr)
    : res (Z * Z) :=
  if (sum bitstrue =? 0) && (len pat >? 1) then Ok (0, 0)
  else
    near <- mapM (fun t =>
              distance <- foldM (fun distance j =>
                            bt <- getitem bitstrue j ;;
                            bf <- getitem bitsfalse j ;;
                            let bit_weight := bt - bf in
                            if negb (bit_of t j =? Z.land (Z.b2z (bit_weight >? 0)) 1)
                            then Ok (distance + Z.abs bit_weight)
                            else Ok distance)
                          (range 0 8) 0 ;;
              Ok (distance, t)) pat ;;
    let near := sorted ZZ_ltb near in
    n0 <- getitem near 0 ;;
    confidence <-
      (if len near =? 1 then Ok 2
       else n1 <- getitem near 1 ;;
            Ok (if negb (fst n0 =? fst n1) then 2 else 1)) ;;
    Ok (confidence, snd n0).

(** ** [_word_distance] and [__median] *)

(** The loop of [_word_distance], from position [i] with [d] so far. *)
Fixpoint word_distance_loop (word : pystr) (confidence : list cval)
    (wildcard : option Z) (cs : pystr) (i d : Z) : res Z :=
  match cs with
  | [] => Ok d
  | ci :: cs' =>
      if len word >? i then
        wi <- getitem word i ;;
        if negb (match wildcard with Some w => ci =? w | None => false end)
           && negb (wi =? ci)
        then
          v <- getitem confidence i ;;
          n <- py_int v ;;
          word_distance_loop word confidence wildcard cs' (i + 1) (d + (1 + n))
        else word_distance_loop word confidence wildcard cs' (i + 1) d
      else Ok (d + (len word - i + 1) * 9)
  end.

Definition _word_distance (word : pystr) (confidence : list cval) (choice : pystr)
    (wildcard : option Z) : res Z :=
  word_distance_loop word confidence wildcard choice 0 0.

(** The half sum of the two middle elements is an exact rational here;
    the float the code returns is that number for integers of magnitude
    2^52 at most. *)
Definition __median (lst : list Z) : Q :=
  let quotient := len lst / 2 in
  let remainder := len lst mod 2 in
  if negb (remainder =? 0) then inject_Z (nth (Z.to_nat quotient) (sorted Z.ltb lst) 0)
  else (inject_Z (sum (slice (sorted Z.ltb lst) (quotient - 1) (quotient + 1))) / 2)%Q.

(** ** [_reconcile_word] *)

(** The candidate set: plain strings, or [(weight, string)] pairs. *)
Inductive choices : Type :=
| Plain (l : list pystr)
| Weighted (l : list (Q * pystr)).

Definition choices_len (c : choices) : Z :=
  match c with
  | Plain l => len l
  | Weighted l => len l
  end.

(** [l[a:b] = v]. *)
Definition slice_assign {A : Type} (l : list A) (a b : Z) (v : list A) : list A :=
  let a' := clamp_index (len l) a in
  let b' := Z.max a' (clamp_index (len l) b) in
  firstn (Z.to_nat a') l ++ v ++ skipn (Z.to_nat b') l.

Definition _reconcile_word (word : pystr) (confidences : list cval) (start : Z)
    (choices : choices) : res (pystr * list cval * bool) :=
  if choices_len choices =? 0 then Ok (word, confidences, false)
  else if len word <=? start then Ok (word, confidences, false)
  else
    (* confidences[0] + 1 *)
    c0 <- getitem confidences 0 ;;
    confidences <-
      match c0 with
      | CInt _ => Ok confidences
      | CChr _ => ints <- mapM py_int confidences ;; Ok (map CInt ints)
      end ;;
    (* choices[0][0] + 0 *)
    choices <-
      match choices with
      | Weighted l => Ok l
      | Plain l =>
          first <- getitem l 0 ;;
          _ <- getitem first 0 ;;
          Ok (map (fun x => (1%Q, x)) l)
      end ;;
    ch0 <- getitem choices 0 ;;
    let end_ := start + len (snd ch0) in
    let word := slice word start end_ in
    let confidence := slice confidences start end_ in
    candidates <- mapM (fun '(weight, c) =>
                    d <- _word_distance word confidence c None ;;
                    if Qeq_bool weight 0 then Raise ZeroDivisionError
                    else Ok ((inject_Z (d + 1) / weight)%Q, c)) choices ;;
    let candidates := sorted Qstr_ltb candidates in
    cand0 <- getitem candidates 0 ;;
    ints <- mapM as_int confidences ;;
    strictly_best <-
      (if Qltb (fst cand0) (Qmax 4 (__median ints)) then
         if len candidates =? 1 then Ok true
         else cand1 <- getitem candidates 1 ;; Ok (Qltb (fst cand0) (fst cand1))
       else Ok false) ;;
    if strictly_best then
      let word := snd cand0 in
      top <- py_max (slice ints start end_) ;;
      if end_ - start =? 0 then Raise ZeroDivisionError
      else
        let base_confidence :=
          Z.max 0 (Qtrunc (inject_Z (Z.max 4 top)
                           - fst cand0 / inject_Z (end_ - start))%Q) in
        confidences <-
          foldM (fun confidences i =>
                   wi <- getitem word i ;;
                   wj <- getitem word (i - start) ;;
                   if negb (wi =? wj) then setitem confidences i (CInt base_confidence)
                   else setitem confidences i (CInt (Z.min 9 (Z.shiftr base_confidence 3))))
                (range start end_) confidences ;;
        let l := slice_assign word start end_ word in
        Ok (l, confidences, true)
    else Ok (word, confidences, false).

(** ** [_truncate] *)

Definition is_frame_char (f : Z) : bool := negb (f =? underscore).

Definition frame_of (fips_count : Z) : pystr :=
  str "-___-___" ++ List.concat (repeat (str "-______") (Z.to_nat fips_count)) ++ _END_SEQUENCE.

Definition _truncate (avgmsg : pystr) (confidences : list cval)
    : res (pystr * list cval) :=
  if len avgmsg <? 38 then Ok (avgmsg, confidences)
  else
    candidates <- mapM (fun l =>
                    d <- _word_distance (slice avgmsg (l - 23) l) confidences
                           _END_SEQUENCE (Some underscore) ;;
                    Ok (d, l)) (range7 38 (len avgmsg + 1)) ;;
    winner <- py_min_pair candidates ;;
    let l := snd winner in
    let avgmsg := slice avgmsg 0 l in
    let confidences := slice confidences 0 l in
    ints <- mapM py_int confidences ;;
    let confidence_chars := len (filter is_frame_char _END_SEQUENCE) in
    let end_confidence :=
      Qtrunc ((inject_Z confidence_chars * __median ints - inject_Z (fst winner))
              / inject_Z confidence_chars)%Q in
    let fips_count :=
      Qtrunc (inject_Z (len avgmsg - len _END_SEQUENCE - 8) / 7)%Q in
    let frame := frame_of fips_count in
    if negb (len frame =? len avgmsg) then Raise AssertionError
    else
      '(avgmsg, ints) <-
        foldM (fun '(avgmsg, ints) i =>
                 fi <- getitem frame i ;;
                 if is_frame_char fi then
                   ai <- getitem avgmsg i ;;
                   if negb (ai =? fi) then
                     avgmsg' <- setitem avgmsg i fi ;;
                     ints' <- setitem ints i end_confidence ;;
                     Ok (avgmsg', ints')
                   else
                     ci <- getitem ints i ;;
                     ints' <- setitem ints i (Z.max end_confidence ci) ;;
                     Ok (avgmsg, ints')
                 else Ok (avgmsg, ints))
              (range 0 (len avgmsg)) (avgmsg, ints) ;;
      Ok (avgmsg, map CInt ints).

(** ** [split_message] *)

(** [s.split(sep)] for a one-character separator. *)
Fixpoint split_on (sep : Z) (s : pystr) : list pystr :=
  match s with
  | [] => [[]]
  | c :: t =>
      match split_on sep t with
      | [] => [[]]
      | h :: r => if c =? sep then [] :: h :: r else (c :: h) :: r
      end
  end.

Definition split_message (message : pystr) (confidences : list cval)
    : res (list pystr * list (list cval) * Z) :=
  '(message, confidences) <- _truncate message confidences ;;
  main_delimiter <- getitem message (len message - 23) ;;
  let main_delimiter_split := split_on main_delimiter message in
  '(final_message, fips_counter) <-
    (if len main_delimiter_split =? 2 then
       h0 <- getitem main_delimiter_split 0 ;;
       h1 <- getitem main_delimiter_split 1 ;;
       let first_half_split := split_on dash h0 in
       let second_half_split := split_on dash h1 in
       f1 <- getitem first_half_split 1 ;;
       f2 <- getitem first_half_split 2 ;;
       let fm := [dash :: f1; dash :: f2] in
       '(fm, fips_counter) <-
         foldM (fun '(fm, fips_counter) i =>
                  fi <- getitem first_half_split i ;;
                  Ok (fm ++ [dash :: fi], fips_counter + 1))
               (range 3 (len first_half_split)) (fm, 0) ;;
       s0 <- getitem second_half_split 0 ;;
       s1 <- getitem second_half_split 1 ;;
       s2 <- getitem second_half_split 2 ;;
       Ok (fm ++ [plus :: s0; dash :: s1; dash :: (s2 ++ [dash])], fips_counter)
     else Ok ([], 0)) ;;
  '(final_confidences, _) <-
    foldM (fun '(final_confidences, count) part =>
             '(con_set, count) <-
               foldM (fun '(con_set, count) _ =>
                        c <- getitem confidences count ;;
                        Ok (con_set ++ [c], count + 1))
                     part ([], count) ;;
             Ok (final_confidences ++ [con_set], count))
          final_message ([], 0) ;;
  Ok (final_message, final_confidences, fips_counter).

(** ** Collaborators outside the repository's sources *)

(** The reference data of [sources.radio.nwr_data]; [None] is the
    [KeyError] of an unknown transmitter. *)
Record nwr_data : Type := {
  get_counties : option pystr -> option (list pystr);
  get_wfo : option pystr -> option pystr
}.

(** The calls into [time] and [calendar]. *)
Record pytime : Type := {
  (** [time.strftime('%j%H%M', time.gmtime(t))] *)
  strftime_jHM : Z -> pystr;
  (** [time.gmtime(t).tm_year] and [.tm_yday] *)
  gmtime_year : Z -> Z;
  gmtime_yday : Z -> Z;
  (** [calendar.timegm(time.strptime(s, '%Y%j%H%M%Z'))] *)
  timegm_strptime : pystr -> res Z
}.

(** ** [MessageChunk] *)

Module MessageChunk.

Record t : Type := mk {
  chars : pystr;
  confidences : list cval;
  byte_confidence_index : Z
}.

(** [v[i] += d] on a list of integers. *)
Definition add_at (v : list Z) (i : Z) (d : res Z) : res (list Z) :=
  old <- getitem v i ;;
  d <- d ;;
  setitem v i (old + 1 * d).

(** The confidences of a chunk reach [sum_confidence] as lists, so its
    branch for [type(c) is str] is not taken.  [check_fips] is called
    nowhere and is left out. *)
Definition sum_confidence (chars : list pystr) (confidences : list (list cval))
    : res (list Z * list Z) :=
  c0 <- getitem confidences 0 ;;
  let size := len c0 in
  let zeros := repeat 0 (Z.to_nat (8 * size)) in
  foldM (fun acc i =>
           confidence <- getitem confidences i ;;
           chars_i <- getitem chars i ;;
           foldM (fun acc j =>
                    ch <- getitem chars_i j ;;
                    if negb (Z.land ch 0xFF =? 0) then
                      foldM (fun '(bitstrue, bitsfalse) k =>
                               let d := (c <- getitem confidence i ;; as_int c) in
                               if negb (bit_of ch k =? 0) then
                                 bitstrue' <- add_at bitstrue (Z.shiftl j 3 + k) d ;;
                                 Ok (bitstrue', bitsfalse)
                               else
                                 bitsfalse' <- add_at bitsfalse (Z.shiftl j 3 + k) d ;;
                                 Ok (bitstrue, bitsfalse'))
                            (range 0 8) acc
                    else Ok acc)
                 (range 0 (len chars_i)) acc)
        (range 0 (len confidences)) (zeros, zeros).

Definition assemble_chars (bitstrue bitsfalse : list Z) : res (pystr * list Z) :=
  let n := Z.shiftr (len bitstrue) 3 in
  foldM (fun '(avgchars, confidences) i =>
           '(c, confidences) <-
             foldM (fun '(c, confidences) j =>
                      bt <- getitem bitstrue (Z.shiftl i 3 + j) ;;
                      bf <- getitem bitsfalse (Z.shiftl i 3 + j) ;;
                      let bit_weight := bt - bf in
                      old <- getitem confidences i ;;
                      confidences' <- setitem confidences i (old + Z.abs bit_weight) ;;
                      Ok (Z.lor c (Z.shiftl (Z.b2z (bit_weight >? 0)) j), confidences'))
                   (range 0 8) (0, confidences) ;;
           Ok (avgchars ++ [c], confidences))
        (range 0 n) ([], repeat 0 (Z.to_nat n)).

(** [a + b] of two grammar entries. *)
Definition pattern_concat (a b : pattern) : res pystr :=
  match a, b with
  | PStr x, PStr y => Ok (x ++ y)
  | _, _ => Raise TypeError
  end.

(** [c in p] for a grammar entry. *)
Definition pattern_mem (c : Z) (p : pattern) : res bool :=
  match p with
  | PStr s => Ok (mem c s)
  | PInt _ => Raise TypeError
  end.

Definition approximate_chars (chars : pystr) (confidences : list cval)
    (bitstrue bitsfalse : list Z) (byte_pattern_index : Z)
    : res (pystr * list cval * Z) :=
  '(chars_to_return, confidences_to_return, _) <-
    foldM (fun '(chars_to_return, confidences_to_return, byte_pattern_counter) i =>
             c <- getitem chars i ;;
             byte_confidence <- getitem confidences i ;;
             entry <- getitem _SAME_CHARS byte_pattern_counter ;;
             '(multipath, pat) <-
               match entry with
               | PInt m =>
                   a <- getitem _SAME_CHARS (byte_pattern_index + m) ;;
                   b <- getitem _SAME_CHARS (byte_pattern_index + 1) ;;
                   p <- pattern_concat a b ;;
                   Ok (Some m, p)
               | PStr s => Ok (None, s)
               end ;;
             '(byte_confidence, c) <-
               (if negb (mem c pat) then
                  '(bc, c') <- _reconcile_character
                                 (slice bitstrue (i * 8) ((i + 1) * 8))
                                 (slice bitsfalse (i * 8) ((i + 1) * 8)) pat ;;
                  Ok (CInt (Z.shiftl bc 3), c')
                else Ok (byte_confidence, c)) ;;
             byte_pattern_counter <-
               match multipath with
               | None => Ok (byte_pattern_counter + 1)
               | Some m =>
                   if m =? 0 then Ok (byte_pattern_counter + 1)
                   else
                     nxt <- getitem _SAME_CHARS (byte_pattern_index + 1) ;;
                     is_next <- pattern_mem c nxt ;;
                     if is_next then Ok (byte_pattern_counter + 2)
                     else Ok (byte_pattern_counter + (m + 1))
               end ;;
             bc <- as_int byte_confidence ;;
             Ok (chars_to_return ++ [c],
                 confidences_to_return ++ [CInt (Z.min 9 (Z.shiftr bc 3))],
                 byte_pattern_counter))
          (range 0 (len chars)) ([], [], byte_pattern_index) ;;
  Ok (chars_to_return, confidences_to_return, byte_pattern_index).

Section WithReferenceData.

Variable data : nwr_data.

Definition candidate_fips_of (transmitter : option pystr) : list pystr :=
  match get_counties data transmitter with
  | Some l => l
  | None => []
  end.

Definition wfo_of (transmitter : option pystr) : list pystr :=
  match get_wfo data transmitter with
  | Some w => [w]
  | None => []
  end.

(** The [while fips_counter > 0] loop of the county branch. *)
Fixpoint reconcile_fips (n : nat) (candidate_fips : list pystr)
    (st : pystr * list cval * bool) : res (pystr * list cval * bool) :=
  match n with
  | O => Ok st
  | S n' =>
      let '(chars, confidences, _) := st in
      st' <- _reconcile_word chars confidences 1 (Plain candidate_fips) ;;
      reconcile_fips n' candidate_fips st'
  end.

Definition __init__ (chars : list pystr) (confidences : list (list cval))
    (byte_confidence_index : Z) (transmitter : option pystr) (fips_counter : Z)
    (valid_times : list (Q * pystr)) : res t :=
  let candidate_fips := candidate_fips_of transmitter in
  let wfo := wfo_of transmitter in
  '(bitstrue, bitsfalse) <- sum_confidence chars confidences ;;
  '(self_chars, self_confidences) <- assemble_chars bitstrue bitsfalse ;;
  let self_confidences := map CInt self_confidences in
  let bci := byte_confidence_index in
  let between a b := (a <=? bci) && (bci <=? b) in
  '(self_chars, self_confidences, matched, offset) <-
    (if between 0 3 then
       '(w, c, m) <- _reconcile_word self_chars self_confidences 1 (Plain _ORIGINATOR_CODES) ;;
       Ok (w, c, m, 4)
     else if between 4 6 then
       '(w, c, m) <- _reconcile_word self_chars self_confidences 1 (Plain _EVENT_CODES) ;;
       Ok (w, c, m, 4)
     else if between 7 12 then
       '(w, c, m) <- reconcile_fips (Z.to_nat fips_counter) candidate_fips
                       (self_chars, self_confidences, false) ;;
       Ok (w, c, m, 7)
     else if between 13 17 then
       '(w, c, m) <- _reconcile_word self_chars self_confidences 1 (Weighted VALID_DURATIONS) ;;
       Ok (w, c, m, 4)
     else if between 18 24 then
       '(w, c, m) <- _reconcile_word self_chars self_confidences 1 (Weighted valid_times) ;;
       Ok (w, c, m, 8)
     else if between 25 29 then
       '(w, c, m) <- _reconcile_word self_chars self_confidences 1 (Plain wfo) ;;
       Ok (w, c, m, 5)
     else if between 30 33 then
       '(w, c, m) <- _reconcile_word self_chars self_confidences 1 (Plain [str "NWS"]) ;;
       Ok (w, c, m, 5)
     else Ok (self_chars, self_confidences, false, 0)) ;;
  if negb matched then
    '(cs, conf, bci') <- approximate_chars self_chars self_confidences bitstrue bitsfalse bci ;;
    Ok (mk cs conf bci')
  else Ok (mk self_chars self_confidences (bci + offset)).

End WithReferenceData.

End MessageChunk.

(** ** [check_if_valid_code] and [average_message] *)

(** An element of [valid_code_list]: a code, or one of the
    [(weight, time)] tuples. *)
Inductive vcode : Type :=
| VStr (s : pystr)
| VTup (w : Q) (s : pystr).

Definition vcode_is (c : pystr) (v : vcode) : bool :=
  match v with
  | VStr s => pystr_eqb s c
  | VTup _ _ => false
  end.

Definition issuperset (valid_list : list vcode) (codes : list pystr) : bool :=
  forallb (fun c => existsb (vcode_is c) valid_list) codes.

(** [None] is the implicit return of the source. *)
Definition check_if_valid_code (codes : list pystr) (valid_list : list vcode)
    : res (option pystr) :=
  if issuperset valid_list codes then
    c0 <- getitem codes 0 ;;
    c1 <- getitem codes 1 ;;
    if pystr_eqb c0 c1 then
      c2 <- getitem codes 2 ;;
      if pystr_eqb c1 c2 then Ok (Some c0) else Ok None
    else Ok None
  else Ok None.

(** One received copy: [(message, confidences, arrival time)], held in a
    list ([is_list]) or in a tuple. *)
Record header : Type := mk_header {
  is_list : bool;
  h_message : pystr;
  h_confidences : list cval;
  h_time : Z
}.

Section Averaging.

Variable data : nwr_data.
Variable tm : pytime.

Definition valid_times_at (t0 : Z) : list (Q * pystr) :=
  map (fun '(weight, offset) => (weight, strftime_jHM tm (t0 + 60 * offset)))
      [((5 # 10)%Q, -4); ((7 # 10)%Q, -3); ((9 # 10)%Q, -2); ((11 # 10)%Q, -1); (1%Q, 0)].

Definition valid_code_list_of (valid_times : list (Q * pystr)) (wfo : list pystr)
    : list vcode :=
  map VStr _DURATION_NUMBERS ++ map VStr _EVENT_CODES ++ map VStr _ORIGINATOR_CODES
  ++ map (fun '(w, s) => VTup w s) valid_times ++ map VStr _EVENT_CODES ++ map VStr wfo.

(** Two-argument call [average_message(headers, transmitter)].  Each
    header is an object of its own.  The value returned is modelled; the
    assignments [i[0] = split_msg] and [i[1] = split_con], which
    overwrite the caller's list headers, are not. *)
Definition average_message (headers : list header) (transmitter : option pystr)
    : res (pystr * list cval) :=
  h0 <- getitem headers 0 ;;
  let valid_times := valid_times_at (h_time h0) in
  let wfo := MessageChunk.wfo_of data transmitter in
  let valid_code_list := valid_code_list_of valid_times wfo in
  (* First, break up the message into its component parts *)
  '(split_headers, fips_counter) <-
    foldM (fun '(acc, _) i =>
             '(split_msg, split_con, n) <- split_message (h_message i) (h_confidences i) ;;
             if is_list i then Ok (acc ++ [(split_msg, split_con)], n)
             else Raise TypeError)
          headers ([], 0) ;;
  s0 <- getitem split_headers 0 ;;
  '(avgmsg, confidences, _) <-
    foldM (fun '(avgmsg, confidences, byte_pattern_index) i =>
             codes <- mapM (fun code => ci <- getitem (fst code) i ;; Ok (slice ci 1 (len ci)))
                        split_headers ;;
             valid_code <- check_if_valid_code codes valid_code_list ;;
             let vc := match valid_code with Some vc => vc | None => [] end in
             (* [if valid_code:] a non-empty string *)
             if negb (len vc =? 0) then
               hi <- getitem split_headers i ;;
               part <- getitem (fst hi) i ;;
               Ok (avgmsg ++ part,
                   confidences ++ repeat (CInt 9) (List.length vc),
                   byte_pattern_index + len vc)
             else
               msgs <- mapM (fun c => getitem (fst c) i) split_headers ;;
               cons <- mapM (fun c => getitem (snd c) i) split_headers ;;
               chunk <- MessageChunk.__init__ data msgs cons byte_pattern_index
                          transmitter fips_counter valid_times ;;
               capped <- mapM (fun con => v <- as_int con ;; Ok (CInt (Z.min 9 v)))
                           (MessageChunk.confidences chunk) ;;
               Ok (avgmsg ++ MessageChunk.chars chunk,
                   confidences ++ capped,
                   MessageChunk.byte_confidence_index chunk))
          (range 0 (len (fst s0))) ([], [], 0) ;;
  Ok (unicodify avgmsg, slice confidences 0 (len avgmsg)).

End Averaging.

(** ** Objects read the clock: a state-and-exception monad *)

(** [float("-inf")], a number of seconds, or [float("inf")]. *)
Inductive xtime : Type :=
| NegInf
| Fin (z : Z)
| PosInf.

Definition xltb (a b : xtime) : bool :=
  match a, b with
  | NegInf, NegInf => false
  | NegInf, _ => true
  | Fin x, Fin y => x <? y
  | Fin _, PosInf => true
  | _, _ => false
  end.

(** The state of a computation: how many clock readings were taken, and
    the object the method runs on. *)
Record world (S : Type) : Type := mk_world {
  readings : nat;
  self : S
}.
Arguments mk_world {S} readings self.
Arguments readings {S} w.
Arguments self {S} w.

Definition M (S A : Type) : Type := world S -> res A * world S.

Definition ret {S A : Type} (a : A) : M S A := fun w => (Ok a, w).

Definition raise {S A : Type} (e : exn) : M S A := fun w => (Raise e, w).

Definition bindM {S A B : Type} (m : M S A) (k : A -> M S B) : M S B :=
  fun w =>
    match m w with
    | (Ok a, w') => k a w'
    | (Raise e, w') => (Raise e, w')
    end.

Definition lift {S A : Type} (r : res A) : M S A := fun w => (r, w).

Definition get {S : Type} : M S S := fun w => (Ok (self w), w).

Definition modify {S : Type} (f : S -> S) : M S unit :=
  fun w => (Ok tt, mk_world (readings w) (f (self w))).

(** One reading of the clock. *)
Definition now_ {S : Type} (clock : nat -> Z) : M S Z :=
  fun w => (Ok (clock (readings w)), mk_world (Datatypes.S (readings w)) (self w)).

Declare Scope m_scope.
Delimit Scope m_scope with m.
Notation "x <~ m ;; k" := (bindM m (fun x => k))
  (at level 61, m at next level, right associativity) : m_scope.
Notation "' p <~ m ;; k" := (bindM m (fun p => k))
  (at level 61, p pattern, m at next level, right associativity) : m_scope.
Notation "m1 ;;; m2" := (bindM m1 (fun _ => m2))
  (at level 61, right associativity) : m_scope.

(** ** [default_prioritization] *)

(** The levels of [logging]. *)
Definition CRITICAL : Z := 50.
Definition WARNING : Z := 30.
Definition INFO : Z := 20.
Definition DEBUG : Z := 10.

Definition default_prioritization (event_type : pystr) : res Z :=
  if pystr_eqb event_type (str "EQW") then Ok (CRITICAL + 10)
  else if pystr_eqb event_type (str "TOR") then Ok (CRITICAL + 5)
  else if pystr_eqb event_type (str "SVR") then Ok CRITICAL
  else
    c <- getitem event_type 2 ;;
    if c =? 87 then Ok CRITICAL
    else if pystr_eqb event_type (str "EVI") || (c =? 69) then Ok WARNING
    else if c =? 84 then Ok DEBUG
    else Ok INFO.

(** ** Strings and numbers of the accessors *)

(** [s.find(c)] for a one-character needle. *)
Fixpoint find_from (c : Z) (s : pystr) (i : Z) : Z :=
  match s with
  | [] => -1
  | x :: t => if x =? c then i else find_from c t (i + 1)
  end.

Definition find (s : pystr) (c : Z) : Z := find_from c s 0.

Definition is_digit (c : Z) : bool := (48 <=? c) && (c <=? 57).

(** [int(s)] of a string; only unsigned ASCII decimal numerals are read,
    every other spelling is a [ValueError]. *)
Definition int_of_str (s : pystr) : res Z :=
  if (len s =? 0) || negb (forallb is_digit s) then Raise ValueError
  else Ok (fold_left (fun acc c => 10 * acc + (c - 48)) s 0).

Fixpoint digits_of (fuel : nat) (n : Z) (acc : pystr) : pystr :=
  match fuel with
  | O => acc
  | Datatypes.S fuel' =>
      let acc' := (48 + n mod 10) :: acc in
      if n <? 10 then acc' else digits_of fuel' (n / 10) acc'
  end.

(** [str(n)] of an integer. *)
Definition str_of_Z (n : Z) : pystr :=
  if n <? 0 then 45 :: digits_of (Z.to_nat (- n)) (- n) []
  else digits_of (Datatypes.S (Z.to_nat n)) n [].

(** ** [SAMEMessage] *)

Module SAMEMessage.

(** [event_id]: the literal header, or ["%s-%.3f" % (transmitter, start_time)]. *)
Inductive event_id_t : Type :=
| IdLiteral (s : pystr)
| IdStamp (transmitter : option pystr) (start_time : Z).

(** The attributes.  [received_callback] records whether a callback is
    still registered, and [callback_calls] how often [cb(self)] has run;
    the callback itself is taken not to touch the message. *)
Record t : Type := mk {
  transmitter : option pystr;
  headers : option (list header);
  avg_message : option (pystr * list cval);
  received_callback : bool;
  callback_calls : nat;
  timeout : xtime;
  start_time : Z;
  published : Z;
  event_id : event_id_t
}.

Definition set_headers (v : option (list header)) (s : t) : t :=
  mk (transmitter s) v (avg_message s) (received_callback s) (callback_calls s)
     (timeout s) (start_time s) (published s) (event_id s).
Definition set_avg_message (v : option (pystr * list cval)) (s : t) : t :=
  mk (transmitter s) (headers s) v (received_callback s) (callback_calls s)
     (timeout s) (start_time s) (published s) (event_id s).
Definition set_timeout (v : xtime) (s : t) : t :=
  mk (transmitter s) (headers s) (avg_message s) (received_callback s) (callback_calls s)
     v (start_time s) (published s) (event_id s).
Definition set_start_time (v : Z) (s : t) : t :=
  mk (transmitter s) (headers s) (avg_message s) (received_callback s) (callback_calls s)
     (timeout s) v (published s) (event_id s).
Definition set_published (v : Z) (s : t) : t :=
  mk (transmitter s) (headers s) (avg_message s) (received_callback s) (callback_calls s)
     (timeout s) (start_time s) v (event_id s).
Definition set_event_id (v : event_id_t) (s : t) : t :=
  mk (transmitter s) (headers s) (avg_message s) (received_callback s) (callback_calls s)
     (timeout s) (start_time s) (published s) v.
(** [cb = self.received_callback; self.received_callback = None; cb(self)] *)
Definition run_callback (s : t) : t :=
  mk (transmitter s) (headers s) (avg_message s) false (Datatypes.S (callback_calls s))
     (timeout s) (start_time s) (published s) (event_id s).

(** The [headers] argument of the constructor. *)
Inductive headers_arg : Type :=
| HNone
| HStr (s : pystr)
| HList (l : list header).

Section Methods.

Variable data : nwr_data.
Variable tm : pytime.
Variable clock : nat -> Z.

Local Open Scope m_scope.

Definition time_time : M t Z := now_ clock.

(** [len(self.headers)] *)
Definition len_headers : M t Z :=
  s <~ get ;;
  match headers s with
  | Some l => ret (len l)
  | None => raise TypeError
  end.

Definition fully_received (make_it_so extend_timeout : bool) : M t bool :=
  (if make_it_so then modify (set_timeout NegInf) else ret tt) ;;;
  s <~ get ;;
  now <~ time_time ;;
  complete <~ (if xltb (timeout s) (Fin now) then ret true
               else n <~ len_headers ;; ret (3 <=? n)) ;;
  (if complete && received_callback s then modify run_callback else ret tt) ;;;
  (if negb complete && extend_timeout then
     now' <~ time_time ;; modify (set_timeout (Fin (now' + 6)))
   else ret tt) ;;;
  ret complete.

(** [get_SAME_message], with the statements that follow the averaging
    (the calls made to name the logger) passed in as [after_averaging]. *)
Definition get_SAME_message_with (after_averaging : M t unit)
    : M t (pystr * list cval) :=
  complete <~ fully_received false false ;;
  s <~ get ;;
  if complete then
    match avg_message s with
    | Some a => ret a
    | None =>
        hs <~ match headers s with
              | Some l => ret l
              | None => raise TypeError
              end ;;
        a <~ lift (average_message data tm hs (transmitter s)) ;;
        modify (set_avg_message (Some a)) ;;;
        after_averaging ;;;
        s' <~ get ;;
        match avg_message s' with
        | Some a' => ret a'
        | None => raise TypeError
        end
    end
  else
    n <~ len_headers ;;
    if n >? 0 then raise TypeError (* average_message(self.headers) lacks an argument *)
    else ret ([], []).

(** The calls at which [__avg_message] is already set never reach the
    logging lines. *)
Definition get_SAME_message_inner : M t (pystr * list cval) :=
  get_SAME_message_with (ret tt).

Definition name_the_logger : M t unit :=
  m <~ get_SAME_message_inner ;;
  let mtype := slice (fst m) 5 8 in
  _ <~ lift (default_prioritization mtype) ;;
  _ <~ get_SAME_message_inner ;;
  ret tt.

Definition get_SAME_message : M t (pystr * list cval) :=
  get_SAME_message_with name_the_logger.

Definition get_originator : M t pystr :=
  m <~ get_SAME_message ;; ret (slice (fst m) 1 4).

Definition get_event_type : M t pystr :=
  m <~ get_SAME_message ;; ret (slice (fst m) 5 8).

Definition get_counties : M t (list pystr) :=
  m <~ get_SAME_message ;;
  let m := fst m in
  ret (split_on dash (slice m 9 (find m plus))).

Definition get_areas : M t (list pystr) := get_counties.

Definition get_duration_str : M t pystr :=
  m <~ get_SAME_message ;;
  let m := fst m in
  let start := find m plus + 1 in
  ret (slice m start (start + 4)).

Definition get_start_time_str : M t pystr :=
  m <~ get_SAME_message ;;
  let m := fst m in
  let start := find m plus + 6 in
  ret (slice m start (start + 7)).

Definition get_duration_sec : M t Z :=
  d_str <~ get_duration_str ;;
  hh <~ lift (int_of_str (slice d_str 0 2)) ;;
  mm <~ lift (int_of_str (slice d_str 2 4)) ;;
  ret (hh * 60 * 60 + mm * 60).

Definition get_start_time_sec : M t Z :=
  s <~ get ;;
  let year := gmtime_year tm (start_time s) in
  let yday := gmtime_yday tm (start_time s) in
  st <~ get_start_time_str ;;
  issue_jday <~ lift (int_of_str (slice st 0 3)) ;;
  let year :=
    if (yday <? 10) && (issue_jday >? 355) then year - 1
    else if (yday >? 355) && (issue_jday <? 10) then year + 1
    else year in
  st' <~ get_start_time_str ;;
  lift (timegm_strptime tm (str_of_Z year ++ st' ++ str "UTC")).

Definition get_end_time_sec : M t Z :=
  a <~ get_start_time_sec ;;
  b <~ get_duration_sec ;;
  ret (a + b).

Definition get_broadcaster : M t pystr :=
  m <~ get_SAME_message ;;
  let m := fst m in
  let start := find m plus + 14 in
  ret (slice m start (-1)).

(** [confidence[0] + 'a'] succeeds on a string; a list of integers is
    joined into the string of its decimal numerals. *)
Definition stringify_confidence (confidence : list cval) : res (list cval) :=
  c0 <- getitem confidence 0 ;;
  match c0 with
  | CChr _ => Ok confidence
  | CInt _ =>
      Ok (map CChr (List.concat (map (fun x => match x with
                                            | CInt z => str_of_Z z
                                            | CChr c => [c]
                                            end) confidence)))
  end.

Definition add_header (header : pystr) (confidence : list cval) : M t unit :=
  complete <~ fully_received false false ;;
  if complete then raise ValueError
  else
    when <~ time_time ;;
    confidence <~ lift (stringify_confidence confidence) ;;
    s <~ get ;;
    match headers s with
    | None => raise AttributeError
    | Some l =>
        modify (set_headers (Some (l ++ [mk_header false (unicodify header) confidence when]))) ;;;
        modify (set_timeout (Fin (when + 6)))
    end.

Definition applies_to_fips (fips : pystr) : M t bool :=
  let fips := if len fips =? 5 then 48 :: fips else fips in
  if negb (len fips =? 6) then raise ValueError
  else
    m <~ get_SAME_message ;;
    let msg := fst m in
    lift (
      foldM (fun found i =>
               if found : bool then Ok true
               else
                 matched <-
                   foldM (fun matched x =>
                            if matched : bool then
                              a <- getitem msg (i + x) ;;
                              b <- getitem fips x ;;
                              Ok (a =? b)
                            else Ok false)
                         [-1; -2; -3; -4; -5] true ;;
                 f0 <- getitem fips 0 ;;
                 p <- (if f0 =? 48 then Ok true
                       else m6 <- getitem msg (i - 6) ;;
                            Ok ((m6 =? 48) || (f0 =? m6))) ;;
                 Ok (matched && p))
            (range7 15 (len msg - 20)) false)%py.

(** The constructor; it assigns every attribute before it returns. *)
Definition __init__ (transmitter : option pystr) (headers : headers_arg)
    (received_callback : bool) : M t unit :=
  '(transmitter, headers) <~
    lift (match transmitter with
          | Some tr =>
              c <- getitem tr 0 ;;
              if c =? dash then Ok (None, HStr tr) else Ok (Some tr, headers)
          | None => Ok (None, headers)
          end)%py ;;
  modify (fun _ => mk transmitter None None received_callback 0 (Fin 0) 0 0
                      (IdStamp transmitter 0)) ;;;
  event_id <~
    match headers with
    | HStr ((_ :: _) as h) =>
        modify (set_avg_message (Some (h, repeat (CChr 57) (List.length h)))) ;;;
        now <~ time_time ;;
        modify (set_start_time now) ;;;
        st <~ get_start_time_sec ;;
        modify (set_start_time st) ;;;
        modify (set_timeout NegInf) ;;;
        ret (Some (IdLiteral h))
    | HList ((h0 :: _) as l) =>
        modify (set_headers (Some l)) ;;;
        modify (set_start_time (h_time h0)) ;;;
        modify (set_timeout (Fin (h_time h0 + 6))) ;;;
        ret None
    | _ =>
        modify (set_headers (Some [])) ;;;
        now <~ time_time ;;
        modify (set_start_time now) ;;;
        modify (set_timeout (Fin (now + 6))) ;;;
        ret None
    end ;;
  s <~ get ;;
  modify (set_published (start_time s)) ;;;
  modify (set_event_id match event_id with
                       | Some e => e
                       | None => IdStamp transmitter (start_time s)
                       end).

(** A call of a public method, its result dropped. *)
Inductive call : Type :=
| Call_add_header (header : pystr) (confidence : list cval)
| Call_fully_received (make_it_so extend_timeout : bool)
| Call_get_SAME_message
| Call_get_originator
| Call_get_event_type
| Call_get_counties
| Call_get_areas
| Call_get_duration_str
| Call_get_start_time_str
| Call_get_duration_sec
| Call_get_start_time_sec
| Call_get_end_time_sec
| Call_get_broadcaster
| Call_applies_to_fips (fips : pystr).

Definition forget {A : Type} (m : M t A) : world t -> world t :=
  fun w => snd (m w).

(** The message after the call, whether it returned or raised. *)
Definition perform (c : call) : world t -> world t :=
  match c with
  | Call_add_header h conf => forget (add_header h conf)
  | Call_fully_received a b => forget (fully_received a b)
  | Call_get_SAME_message => forget get_SAME_message
  | Call_get_originator => forget get_originator
  | Call_get_event_type => forget get_event_type
  | Call_get_counties => forget get_counties
  | Call_get_areas => forget get_areas
  | Call_get_duration_str => forget get_duration_str
  | Call_get_start_time_str => forget get_start_time_str
  | Call_get_duration_sec => forget get_duration_sec
  | Call_get_start_time_sec => forget get_start_time_sec
  | Call_get_end_time_sec => forget get_end_time_sec
  | Call_get_broadcaster => forget get_broadcaster
  | Call_applies_to_fips f => forget (applies_to_fips f)
  end.

Definition perform_all (cs : list call) (w : world t) : world t :=
  fold_left (fun w c => perform c w) cs w.

End Methods.

End SAMEMessage.

(** ** [EventMessageGroup] and [MessageCache] *)

Module Cache.

(** What the cache asks of a message ([CommonMessage]): its accessors
    answer with fixed values.  [oid] is the identity of the object. *)
Record message : Type := mk_message {
  oid : Z;
  event_id : pystr;
  get_areas : list pystr;
  get_start_time_sec : Z;
  get_end_time_sec : Z;
  get_event_type : pystr
}.

(** [==] on messages, which define no [__eq__]: the same object. *)
Definition message_eqb (a b : message) : bool := oid a =? oid b.

Module EventMessageGroup.

Record t : Type := mk {
  messages : list message;
  areas : list pystr
}.

Definition __init__ : t := mk [] [].

Definition get_event_id (self : t) : option pystr :=
  match messages self with
  | m :: _ => Some (event_id m)
  | [] => None
  end.

(** [self.areas.update(...)]: a set, kept without repetitions. *)
Definition update_areas (areas new : list pystr) : list pystr :=
  fold_left (fun acc a => if existsb (pystr_eqb a) acc then acc else acc ++ [a]) new areas.

Definition add_message (self : t) (msg : message) : res t :=
  if negb (len (messages self) =? 0) then
    if negb (match get_event_id self with
             | Some e => pystr_eqb (event_id msg) e
             | None => false
             end)
    then Raise AssertionError
    else if existsb (message_eqb msg) (messages self) then Ok self
    else Ok (mk (messages self ++ [msg]) (update_areas (areas self) (get_areas msg)))
  else Ok (mk (messages self ++ [msg]) (update_areas (areas self) (get_areas msg))).

(** [self.messages[-1].get_end_time_sec()] *)
Definition get_end_time_sec (self : t) : res Z :=
  m <- getitem (messages self) (-1) ;;
  Ok (Cache.get_end_time_sec m).

End EventMessageGroup.

(** What the handlers send out. *)
Inductive emitted : Type :=
| update_score (m : option message)
| reduce_time_left (seconds : Z).

(** [__messages] is a dictionary: the groups by event id, in the order
    the ids were first inserted. *)
Record t : Type := mk {
  messages : list (pystr * EventMessageGroup.t);
  old_score : Z;
  fired : list emitted
}.

Definition set_messages (v : list (pystr * EventMessageGroup.t)) (s : t) : t :=
  mk v (old_score s) (fired s).

Definition emit (e : emitted) (s : t) : t :=
  mk (messages s) (old_score s) (fired s ++ [e]).

Fixpoint lookup (k : pystr) (d : list (pystr * EventMessageGroup.t))
    : option EventMessageGroup.t :=
  match d with
  | [] => None
  | (k', v) :: t => if pystr_eqb k k' then Some v else lookup k t
  end.

Fixpoint store (k : pystr) (v : EventMessageGroup.t)
    (d : list (pystr * EventMessageGroup.t)) : list (pystr * EventMessageGroup.t) :=
  match d with
  | [] => [(k, v)]
  | (k', v') :: t => if pystr_eqb k k' then (k', v) :: t else (k', v') :: store k v t
  end.

Section Handlers.

Variable clock : nat -> Z.

Local Open Scope m_scope.

Definition add_message (message : message) : M t unit :=
  s <~ get ;;
  let holder := match lookup (event_id message) (messages s) with
                | Some h => h
                | None => EventMessageGroup.__init__
                end in
  (* a new holder is stored before the message is added to it *)
  modify (set_messages (store (event_id message) holder (messages s))) ;;;
  holder' <~ lift (EventMessageGroup.add_message holder message) ;;
  modify (fun s => set_messages (store (event_id message) holder' (messages s)) s) ;;;
  modify (emit (update_score (Some message))).

Definition _get_first_expiry : M t xtime :=
  s <~ get ;;
  if negb (len (messages s) =? 0) then
    ends <~ lift (mapM (fun kv => EventMessageGroup.get_end_time_sec (snd kv)) (messages s)) ;;
    match ends with
    | [] => raise ValueError
    | e :: es => ret (Fin (fold_left Z.min es e))
    end
  else ret PosInf.

(** [min(15 * 60, max(0, first_expiry - now))] *)
Definition time_left (first_expiry : xtime) (now : Z) : Z :=
  match first_expiry with
  | Fin e => Z.min (15 * 60) (Z.max 0 (e - now))
  | PosInf => 15 * 60
  | NegInf => 0
  end.

(** The dictionary comprehension: one clock reading for each group. *)
Fixpoint keep_unexpired (d : list (pystr * EventMessageGroup.t))
    : M t (list (pystr * EventMessageGroup.t)) :=
  match d with
  | [] => ret []
  | (k, v) :: rest =>
      e <~ lift (EventMessageGroup.get_end_time_sec v) ;;
      now <~ now_ clock ;;
      rest' <~ keep_unexpired rest ;;
      ret (if e >=? now then (k, v) :: rest' else rest')
  end.

Definition _generate_events : M t unit :=
  first_expiry <~ _get_first_expiry ;;
  now <~ now_ clock ;;
  modify (emit (reduce_time_left (time_left first_expiry now))) ;;;
  now' <~ now_ clock ;;
  if xltb first_expiry (Fin now') then
    s <~ get ;;
    kept <~ keep_unexpired (messages s) ;;
    modify (set_messages kept) ;;;
    modify (emit (update_score None))
  else ret tt.

End Handlers.

(** ** [ScoredMessage] and [by_score_and_time] *)

Module ScoredMessage.

Record t : Type := mk {
  _msg : message;
  _score : Z
}.

Definition __init__ (msg : message) (score : Z) : t := mk msg (score + 0).

Definition score (self : t) : Z := _score self.

(** [__getattr__] hands every other attribute to the message. *)
Definition get_start_time_sec (self : t) : Z := Cache.get_start_time_sec (_msg self).

End ScoredMessage.

Definition by_score_and_time (a b : ScoredMessage.t) : Z :=
  let delta := ScoredMessage.score b - ScoredMessage.score a in
  if negb (delta =? 0) then delta
  else ScoredMessage.get_start_time_sec b - ScoredMessage.get_start_time_sec a.

(** Every message of the group carries the event id [e]. *)
Definition same_event (e : pystr) (g : EventMessageGroup.t) : Prop :=
  forall x, In x (EventMessageGroup.messages g) -> event_id x = e.

(** Every group holds a message and is stored under the event id of its
    messages, as [add_message] leaves the dictionary. *)
Definition well_keyed (c : t) : Prop :=
  forall k g, In (k, g) (messages c) ->
    EventMessageGroup.messages g <> [] /\ same_event k g.

(** The end time of a group; 0 stands in for a group without messages. *)
Definition group_end (g : EventMessageGroup.t) : Z :=
  match EventMessageGroup.get_end_time_sec g with
  | Ok e => e
  | Raise _ => 0
  end.

(** Every group holds a message, as [add_message] leaves them. *)
Definition populated (c : t) : Prop :=
  forall kg, In kg (messages c) -> EventMessageGroup.messages (snd kg) <> [].

(** [min] of the end times; infinity for an empty cache. *)
Definition first_expiry (c : t) : xtime :=
  match map (fun kg => group_end (snd kg)) (messages c) with
  | [] => PosInf
  | e :: es => Fin (fold_left Z.min es e)
  end.

(** What the sweep of [_generate_events] keeps of the groups [d] when it
    starts at reading [n]: the group at position [i] is compared with
    reading [n + i]. *)
Fixpoint unexpired_at (clock : nat -> Z) (n : nat)
    (d : list (pystr * EventMessageGroup.t)) : list (pystr * EventMessageGroup.t) :=
  match d with
  | [] => []
  | kg :: rest =>
      if group_end (snd kg) >=? clock n then kg :: unexpired_at clock (S n) rest
      else unexpired_at clock (S n) rest
  end.

(** A clock that is set back: it reads 2000 at its second reading and 0
    at every other. *)
Definition backward_clock : nat -> Z := fun k => if Nat.eqb k 1 then 2000 else 0.

Definition empty_cache : t := mk [] 0 [].

Definition example_tornado : message :=
  mk_message 1 (str "KRAH-1000.000") [str "037183"] 1000 1500 (str "TOR").

Definition example_storm : message :=
  mk_message 2 (str "KRAH-1200.000") [str "037183"; str "037063"] 1200 5000 (str "SVR").

(** The cache after the two messages were submitted. *)
Definition example_cache : t :=
  self (snd (add_message example_storm
               (snd (add_message example_tornado (mk_world 0 empty_cache))))).

End Cache.

(** * Vocabulary of the properties *)

(** A confidence [int()] accepts: an integer or a digit character. *)
Definition valid_confidence (v : cval) : Prop := exists z, py_int v = Ok z.

Definition conf_value (v : cval) : Z :=
  match py_int v with
  | Ok z => z
  | Raise _ => 0
  end.

Definition is_wildcard (wildcard : option Z) (c : Z) : bool :=
  match wildcard with
  | Some w => c =? w
  | None => false
  end.

(** The distance in the words of the specification: the sum, over the
    positions [i] of the candidate from [i] on, of [1 + confidence[i]]
    where the word differs from the candidate, wildcard positions
    skipped. *)
Fixpoint distance_from (word : pystr) (confidence : list cval) (wildcard : option Z)
    (cs : pystr) (i : nat) : Z :=
  match cs with
  | [] => 0
  | ci :: cs' =>
      (if negb (is_wildcard wildcard ci) && negb (nth i word 0 =? ci)
       then 1 + conf_value (nth i confidence (CInt 0))
       else 0)
      + distance_from word confidence wildcard cs' (S i)
  end.

(** The score of the candidate length [L]. *)
Definition skeleton_distance (avgmsg : pystr) (confidences : list cval) (L : Z) : Z :=
  distance_from (slice avgmsg (L - 23) L) confidences (Some underscore) _END_SEQUENCE 0.

(** The frame written over a message: its fixed characters replace the
    message's, its wildcards leave them. *)
Fixpoint lay_frame (frame msg : pystr) : pystr :=
  match frame, msg with
  | f :: frame', a :: msg' => (if is_frame_char f then f else a) :: lay_frame frame' msg'
  | _, _ => msg
  end.

(** The confidences the loop of [_truncate] leaves. *)
Fixpoint lay_confidence (end_confidence : Z) (frame msg : pystr) (ints : list Z) : list Z :=
  match frame, msg, ints with
  | f :: frame', a :: msg', c :: ints' =>
      (if is_frame_char f
       then if negb (a =? f) then end_confidence else Z.max end_confidence c
       else c) :: lay_confidence end_confidence frame' msg' ints'
  | _, _, _ => ints
  end.

(** The strings of a candidate set. *)
Definition choice_strings (c : choices) : list pystr :=
  match c with
  | Plain l => l
  | Weighted l => map snd l
  end.

(** The candidates all have the length of the first one. *)
Definition equal_length (c : choices) : Prop :=
  forall x y, In x (choice_strings c) -> In y (choice_strings c) ->
              List.length x = List.length y.

Definition ZZ_lt (a b : Z * Z) : Prop :=
  fst a < fst b \/ (fst a = fst b /\ snd a < snd b).

(** A computation keeps [P] when [P] holds of the state it leaves,
    whether it returns or raises. *)
Definition preserves {S A : Type} (P : world S -> Prop) (m : M S A) : Prop :=
  forall w, P w -> P (snd (m w)).

Definition bump_closed {S : Type} (P : world S -> Prop) : Prop :=
  forall w, P w -> P (mk_world (Datatypes.S (readings w)) (self w)).

Definition nondecreasing (clock : nat -> Z) : Prop :=
  forall i j, (i <= j)%nat -> clock i <= clock j.

Definition no_data : nwr_data :=
  {| get_counties := fun _ => None; get_wfo := fun _ => None |}.

(** A UTC calendar for the calls into [time] and [calendar]. *)
Module Utc.

Definition leaps_before (y : Z) : Z := (y - 1) / 4 - (y - 1) / 100 + (y - 1) / 400.

Definition days_before_year (y : Z) : Z :=
  365 * (y - 1970) + (leaps_before y - leaps_before 1970).

Fixpoint year_from (fuel : nat) (y d : Z) : Z :=
  match fuel with
  | O => y
  | S fuel' => if days_before_year (y + 1) <=? d then year_from fuel' (y + 1) d else y
  end.

Definition year_of_day (d : Z) : Z :=
  year_from (Z.to_nat (Z.abs d / 50000 + 3))
            (1970 + (if d <? 0 then d / 365 else d / 366)) d.

Definition tm_year (t : Z) : Z := year_of_day (t / 86400).

Definition tm_yday (t : Z) : Z :=
  t / 86400 - days_before_year (tm_year t) + 1.

Definition pad (width : nat) (n : Z) : pystr :=
  let d := str_of_Z n in
  repeat 48 (width - List.length d) ++ d.

Definition strftime (t : Z) : pystr :=
  pad 3 (tm_yday t) ++ pad 2 ((t mod 86400) / 3600) ++ pad 2 ((t mod 3600) / 60).

Definition strptime (s : pystr) : res Z :=
  if negb (len s =? 14) || negb (pystr_eqb (slice s 11 14) (str "UTC")) then Raise ValueError
  else
    year <- int_of_str (slice s 0 4) ;;
    jday <- int_of_str (slice s 4 7) ;;
    hh <- int_of_str (slice s 7 9) ;;
    mm <- int_of_str (slice s 9 11) ;;
    if (jday <? 1) || (366 <? jday) || (23 <? hh) || (59 <? mm) then Raise ValueError
    else Ok ((days_before_year year + jday - 1) * 86400 + hh * 3600 + mm * 60).

Definition time : pytime :=
  {| strftime_jHM := strftime;
     gmtime_year := tm_year;
     gmtime_yday := tm_yday;
     timegm_strptime := strptime |}.

End Utc.

(** A clock that starts at [t0] and advances [dt] seconds a reading. *)
Definition ticking (t0 dt : Z) : nat -> Z := fun k => t0 + dt * Z.of_nat k.

(** The attributes before the constructor has run. *)
Definition blank : SAMEMessage.t :=
  SAMEMessage.mk None None None false 0 (Fin 0) 0 0 (SAMEMessage.IdStamp None 0).

Definition clean_header : pystr :=
  str "-WXR-TOR-039173-039051-139069+0030-1591829-KCLE/NWS-".

(** The message holds its averaged header and nothing is pending. *)
Definition settled (s : SAMEMessage.t) (a : pystr * list cval) : Prop :=
  SAMEMessage.avg_message s = Some a /\ SAMEMessage.timeout s = NegInf
  /\ SAMEMessage.received_callback s = false.

(** The message built from the literal: while the constructor computes
    its start time, and once the constructor is done. *)
Definition under_construction (now : Z) : SAMEMessage.t :=
  SAMEMessage.mk None None (Some (clean_header, repeat (CChr 57) 52))
    false 0 (Fin 0) now 0 (SAMEMessage.IdStamp None 0).

Definition constructed (st : Z) : SAMEMessage.t :=
  SAMEMessage.mk None None (Some (clean_header, repeat (CChr 57) 52))
    false 0 NegInf st st (SAMEMessage.IdLiteral clean_header).

Definition keeps (s0 : SAMEMessage.t) : world SAMEMessage.t -> Prop :=
  fun w => self w = s0.

(** Reception is complete for good: the timeout lies before a reading
    already taken, or three headers are in. *)
Definition latched (clock : nat -> Z) (w : world SAMEMessage.t) : Prop :=
  (exists k0, (k0 <= readings w)%nat
              /\ xltb (SAMEMessage.timeout (self w)) (Fin (clock k0)) = true)
  \/ (exists l, SAMEMessage.headers (self w) = Some l /\ 3 <= len l).

(** A new message for transmitter KRAH, no header received. *)
Definition fresh (data : nwr_data) (tm : pytime) (clock : nat -> Z) : world SAMEMessage.t :=
  snd (SAMEMessage.__init__ data tm clock (Some (str "KRAH")) SAMEMessage.HNone false
         (mk_world 0 blank)).

(** Reference data in which transmitter KCLE is known. *)
Definition kcle_data : nwr_data :=
  {| get_counties := fun t =>
       match t with
       | Some s => if pystr_eqb s (str "KCLE")
                   then Some [str "039173"; str "039051"; str "139069"] else None
       | None => None
       end;
     get_wfo := fun t =>
       match t with
       | Some s => if pystr_eqb s (str "KCLE") then Some (str "KCLE") else None
       | None => None
       end |}.

(** One received copy of the clean header, every confidence 9, arrived
    at 18:29 UTC of day 159 of 2016. *)
Definition clean_copy (as_list : bool) : header :=
  mk_header as_list clean_header (repeat (CInt 9) 52) 1465324140.

(** The same header with a purge time outside [VALID_DURATIONS]. *)
Definition other_header : pystr :=
  str "-WXR-TOR-039173-039051-139069+0010-1591829-KCLE/NWS-".
Definition other_copy : header :=
  mk_header true other_header (repeat (CInt 9) 52) 1465324140.

(** ** Further vocabulary *)

(** The word agrees with the candidate [cs] from index [i] on, wildcard
    positions apart. *)
Definition agrees_from (word : pystr) (wildcard : option Z) (cs : pystr) (i : nat) : Prop :=
  forall j, (j < List.length cs)%nat ->
    is_wildcard wildcard (nth j cs 0) = true \/ nth (i + j) word 0 = nth j cs 0.

Definition nonnegative_confidence (v : cval) : Prop := exists z, py_int v = Ok z /\ 0 <= z.

(** The distance [_reconcile_character] computes between the received
    bit weights and the character [t]. *)
Definition char_distance (bitstrue bitsfalse : list Z) (t : Z) : Z :=
  fold_left (fun d j =>
               let bit_weight := nth j bitstrue 0 - nth j bitsfalse 0 in
               if negb (bit_of t (Z.of_nat j) =? Z.b2z (bit_weight >? 0))
               then d + Z.abs bit_weight else d)
            (seq 0 8) 0.

Definition ZZ_le (a b : Z * Z) : Prop := ~ ZZ_lt b a.

(** [[ord(c) & 0xFF for c in s]] *)
Definition low_bytes (s : pystr) : pystr := map (fun c => Z.land c 0xFF) s.

(** A byte is the byte of its eight bits; a test that can be run on
    every byte. *)
Definition byte_roundtrip_check (c : Z) : bool :=
  ConfidentCharacter.byte_of_bits
    (map (fun k => ConfidentCharacter.bit_set c (Z.of_nat k)) (seq 0 8)) =? c.

(** [l] is [l'] with some elements left out. *)
Inductive subsequence {A : Type} : list A -> list A -> Prop :=
| sub_nil : subsequence [] []
| sub_skip (x : A) (l l' : list A) : subsequence l l' -> subsequence l (x :: l')
| sub_keep (x : A) (l l' : list A) : subsequence l l' -> subsequence (x :: l) (x :: l').

(** What [fully_received] may change of a message: the timeout, and the
    callback when it fires. *)
Definition received_as (s s' : SAMEMessage.t) (fire : bool) : Prop :=
  SAMEMessage.transmitter s' = SAMEMessage.transmitter s
  /\ SAMEMessage.headers s' = SAMEMessage.headers s
  /\ SAMEMessage.avg_message s' = SAMEMessage.avg_message s
  /\ SAMEMessage.start_time s' = SAMEMessage.start_time s
  /\ SAMEMessage.published s' = SAMEMessage.published s
  /\ SAMEMessage.event_id s' = SAMEMessage.event_id s
  /\ SAMEMessage.received_callback s'
     = (if fire then false else SAMEMessage.received_callback s)
  /\ SAMEMessage.callback_calls s'
     = (if fire then S (SAMEMessage.callback_calls s) else SAMEMessage.callback_calls s).

(** The runs of the callback so far, and the one still to come. *)
Definition callback_budget (s : SAMEMessage.t) : nat :=
  (SAMEMessage.callback_calls s + (if SAMEMessage.received_callback s then 1 else 0))%nat.

Definition at_most_three (w : world SAMEMessage.t) : Prop :=
  match SAMEMessage.headers (self w) with
  | Some l => len l <= 3
  | None => True
  end.

(** No averaged header is stored and every received copy is a tuple, as
    [add_header] appends them. *)
Definition fed_by_add_header (w : world SAMEMessage.t) : Prop :=
  SAMEMessage.avg_message (self w) = None
  /\ exists l, SAMEMessage.headers (self w) = Some l
               /\ Forall (fun h => is_list h = false) l.

(** A message that holds an averaged header while its timeout is a
    finite time, as the last header received left it. *)
Definition averaged_example : SAMEMessage.t :=
  SAMEMessage.mk (Some (str "KCLE")) (Some []) (Some (clean_header, repeat (CInt 9) 52))
    false 1 (Fin 1006) 1000 1000 (SAMEMessage.IdStamp (Some (str "KCLE")) 1000).

(** Averaging cannot reach a received copy that is a list, which
    [average_message] would overwrite: the averaged header is stored
    already, or every received copy is a tuple. *)
Definition no_list_to_average (w : world SAMEMessage.t) : Prop :=
  SAMEMessage.avg_message (self w) <> None
  \/ exists l, SAMEMessage.headers (self w) = Some l
               /\ Forall (fun h => is_list h = false) l.

(** The test [applies_to_fips] makes of the county slot that ends at
    index [i] of the message. *)
Definition slot_matches (msg fips : pystr) (i : Z) : bool :=
  forallb (fun x => nth (Z.to_nat (i + x)) msg 0 =? nth (Z.to_nat (6 + x)) fips 0)
          [-1; -2; -3; -4; -5]
  && ((nth 0 fips 0 =? 48)
      || (nth (Z.to_nat (i - 6)) msg 0 =? 48)
      || (nth 0 fips 0 =? nth (Z.to_nat (i - 6)) msg 0)).

(** A confidence as [approximate_chars] returns it: an integer, 9 at most. *)
Definition capped_confidence (v : cval) : Prop := exists z, v = CInt z /\ z <= 9.

Definition all_of_length (n : nat) (l : list pystr) : bool :=
  forallb (fun x => Nat.eqb (List.length x) n) l.

(** [sep.join(parts)] *)
Definition join_with (sep : Z) (parts : list pystr) : pystr :=
  match parts with
  | [] => []
  | p :: ps => p ++ List.concat (map (cons sep) ps)
  end.

(** A header in the format of the protocol:
    [-ORG-EEE-PSSCCC-...-PSSCCC+TTTT-JJJHHMM-LLLLLLLL-]. *)
Definition SAME_header (originator event : pystr) (counties : list pystr)
    (purge issued station : pystr) : pystr :=
  [dash] ++ originator ++ [dash] ++ event ++ [dash] ++ join_with dash counties
  ++ [plus] ++ purge ++ [dash] ++ issued ++ [dash] ++ station ++ [dash].

(** The weight [bitstrue - bitsfalse] of bit [j] of character [i]. *)
Definition bit_weight (bitstrue bitsfalse : list Z) (i j : nat) : Z :=
  nth (8 * i + j) bitstrue 0 - nth (8 * i + j) bitsfalse 0.

(** The character and the confidence the bit weights of character [i]
    vote for. *)
Definition vote_char (bitstrue bitsfalse : list Z) (i : nat) : Z :=
  ConfidentCharacter.byte_of_bits
    (map (fun j => bit_weight bitstrue bitsfalse i j >? 0) (seq 0 8)).

Definition vote_confidence (bitstrue bitsfalse : list Z) (i : nat) : Z :=
  sum (map (fun j => Z.abs (bit_weight bitstrue bitsfalse i j)) (seq 0 8)).

(** What the character at position [q] of one copy adds to the true
    ([want = true]) or false weight of its bit [r]: the copy's
    confidence [d], unless the character is missing or a null. *)
Definition copy_weight (want : bool) (copy : pystr) (d : Z) (q r : nat) : Z :=
  if (q <? List.length copy)%nat
     && negb (Z.land (nth q copy 0) 0xFF =? 0)
     && Bool.eqb (negb (bit_of (nth q copy 0) (Z.of_nat r) =? 0)) want
  then d else 0.

Definition summed_weight (want : bool) (chars : list pystr) (ds : list Z) (q r : nat) : Z :=
  sum (map (fun cd => copy_weight want (fst cd) (snd cd) q r) (combine chars ds)).

(** [ds] are the confidences [sum_confidence] reads: of copy [i], the
    confidence at index [i]. *)
Definition diagonal (confidences : list (list cval)) (ds : list Z) : Prop :=
  List.length ds = List.length confidences
  /\ forall i, (i < List.length confidences)%nat ->
       (c <- getitem (nth i confidences []) (Z.of_nat i) ;; as_int c) = Ok (nth i ds 0).

(** The vectors keep their length [8 * size], and the weight of bit [r]
    of character [q] has grown by [extra q r]. *)
Definition grown (size : nat) (bt bf bt' bf' : list Z) (extra : bool -> nat -> nat -> Z)
    : Prop :=
  List.length bt' = (8 * size)%nat /\ List.length bf' = (8 * size)%nat
  /\ forall q r, (q < size)%nat -> (r < 8)%nat ->
       nth (8 * q + r) bt' 0 = nth (8 * q + r) bt 0 + extra true q r
       /\ nth (8 * q + r) bf' 0 = nth (8 * q + r) bf 0 + extra false q r.

(** * Properties *)

(** ** Sequences *)

Lemma range_0 (n : nat) : range 0 (Z.of_nat n) = map Z.of_nat (seq 0 n).
Proof. unfold range. rewrite Z.sub_0_r, Nat2Z.id. apply map_ext. intros; lia. Qed.

Lemma in_range_0 (n : nat) (c : Z) : 0 <= c < Z.of_nat n -> In c (range 0 (Z.of_nat n)).
Proof.
  intros H. rewrite range_0. apply in_map_iff. exists (Z.to_nat c). split; [lia|].
  apply in_seq. lia.
Qed.

Lemma getitem_nat {A} (l : list A) (n : nat) (d : A) :
  (n < List.length l)%nat -> getitem l (Z.of_nat n) = Ok (nth n l d).
Proof.
  intros H. unfold getitem.
  destruct (Z.ltb_spec (Z.of_nat n) 0) as [E|E]; [lia|].
  destruct (Z.ltb_spec (Z.of_nat n) 0); [lia|]. rewrite Nat2Z.id.
  rewrite (nth_error_nth' l d H). reflexivity.
Qed.

Lemma setitem_nat {A} (l : list A) (n : nat) (v : A) :
  (n < List.length l)%nat -> setitem l (Z.of_nat n) v = Ok (set_nth l n v).
Proof.
  intros H. unfold setitem, len.
  destruct (Z.ltb_spec (Z.of_nat n) 0) as [E|E]; [lia|].
  destruct (Z.ltb_spec (Z.of_nat n) 0); [lia|].
  destruct (Z.leb_spec (Z.of_nat (List.length l)) (Z.of_nat n)); [lia|].
  rewrite Nat2Z.id. reflexivity.
Qed.

Lemma set_nth_same {A} (l : list A) (n : nat) (d : A) :
  set_nth l n (nth n l d) = l.
Proof.
  revert n. induction l as [|x l IH]; intros [|n]; cbn; try reflexivity.
  now rewrite IH.
Qed.

Lemma length_set_nth {A} (l : list A) (n : nat) (v : A) :
  List.length (set_nth l n v) = List.length l.
Proof.
  revert n. induction l as [|x l IH]; intros [|n]; cbn; try reflexivity.
  now rewrite IH.
Qed.

Lemma list8 {A} (l : list A) :
  List.length l = 8%nat ->
  exists x0 x1 x2 x3 x4 x5 x6 x7, l = [x0; x1; x2; x3; x4; x5; x6; x7].
Proof.
  intros H. do 9 (destruct l as [|? l]; try discriminate H).
  repeat eexists.
Qed.

(** ** [unicodify] *)

Lemma unicodify_bytes_checked : forallb unicodify_char_check (range 0 256) = true.
Proof. vm_compute. reflexivity. Qed.

Lemma unicodify_char_ok (c : Z) :
  0 <= c <= 255 ->
  let c' := unicodify_char c in
  Z.land c' 0xFF = Z.land c 0xFF
  /\ (32 <= c <= 126 -> c' = c)
  /\ (c = 0 -> c' = 0x2A00)
  /\ (1 <= c <= 0x1F -> 0x2401 <= c' <= 0x241F)
  /\ (126 < c -> 0x1E7F <= c' <= 0x1EFF).
Proof.
  intros Hc c'.
  pose proof unicodify_bytes_checked as Hall.
  rewrite forallb_forall in Hall.
  specialize (Hall c (in_range_0 256 c ltac:(lia))).
  unfold unicodify_char_check in Hall. fold c' in Hall.
  repeat (apply andb_prop in Hall; destruct Hall as [Hall ?]).
  repeat split.
  - now apply Z.eqb_eq.
  - intros. apply Z.eqb_eq. destruct ((32 <=? c) && (c <=? 126)) eqn:E; [assumption|].
    apply andb_false_iff in E. destruct E as [E|E]; lia.
  - intros. apply Z.eqb_eq. destruct (c =? 0) eqn:E; [assumption|lia].
  - destruct ((1 <=? c) && (c <=? 31)) eqn:E.
    + cbn in H1. lia.
    + intros; apply andb_false_iff in E; destruct E as [E|E]; lia.
  - destruct ((1 <=? c) && (c <=? 31)) eqn:E.
    + cbn in H1. lia.
    + intros; apply andb_false_iff in E; destruct E as [E|E]; lia.
  - destruct (126 <? c) eqn:E; [cbn in H0; lia | lia].
  - destruct (126 <? c) eqn:E; [cbn in H0; lia | lia].
Qed.

(** C10. On a string of code points up to 255, [unicodify] keeps the
    length; at every index the low byte of the output equals the low byte
    of the input; printable ASCII (32 to 126) is returned unchanged; NUL
    becomes the circled dot U+2A00, the other control characters land in
    the Control Pictures block, the codes above 126 in U+1E7F..U+1EFF; so
    every output character is printable. *)
Theorem unicodify_spec (s : pystr) (Hs : Forall (fun c => 0 <= c <= 255) s) :
  List.length (unicodify s) = List.length s
  /\ forall i c, nth_error s i = Some c ->
       exists c', nth_error (unicodify s) i = Some c'
         /\ Z.land c' 0xFF = Z.land c 0xFF
         /\ (32 <= c <= 126 -> c' = c)
         /\ (c = 0 -> c' = 0x2A00)
         /\ (1 <= c <= 0x1F -> 0x2401 <= c' <= 0x241F)
         /\ (126 < c -> 0x1E7F <= c' <= 0x1EFF)
         /\ printable c'.
Proof.
  split; [apply length_map|].
  intros i c Hi.
  exists (unicodify_char c). split.
  - unfold unicodify. now rewrite nth_error_map, Hi.
  - rewrite Forall_forall in Hs.
    assert (Hc : 0 <= c <= 255) by (apply Hs; eapply nth_error_In; eauto).
    destruct (unicodify_char_ok c Hc) as (A & B & C & D & E).
    repeat split; try assumption; try (now apply D); try (now apply E).
    unfold printable.
    destruct (Z.eq_dec c 0); [right; left; auto|].
    destruct (Z_le_gt_dec c 31); [right; right; left; apply D; lia|].
    destruct (Z_le_gt_dec c 126); [left; rewrite B; lia|].
    right; right; right; apply E; lia.
Qed.

Lemma unicodify_spec_witness :
  Forall (fun c => 0 <= c <= 255) [45; 87; 0; 7; 200]
  /\ List.length (unicodify [45; 87; 0; 7; 200]) = 5%nat.
Proof.
  assert (H : Forall (fun c => 0 <= c <= 255) [45; 87; 0; 7; 200])
    by (repeat constructor; lia).
  split; [exact H | exact (proj1 (unicodify_spec [45; 87; 0; 7; 200] H))].
Defined.


(** ** [ConfidentCharacter] *)

Module ConfidentCharacterFacts.
Import ConfidentCharacter.

Lemma init_wf (c : Z) (conf : option Z) (bw : option (list Z)) (a : t) :
  __init__ c conf bw = Ok a -> wf a.
Proof.
  unfold __init__, wf. destruct conf as [v|], bw as [l|]; try discriminate.
  - intros [= <-]. reflexivity.
  - destruct (Z.eqb_spec (len l) 8) as [E|E]; cbn [negb]; [|discriminate].
    intros [= <-]. cbn [bitwise_confidence]. unfold len in E. lia.
Qed.

Lemma range_0_8 : range 0 8 = map Z.of_nat (seq 0 8).
Proof. reflexivity. Qed.

(** One round of the loop of [get_bit_confidences]. *)
Lemma bit_confidence_round (c : Z) (bw bt bf : list Z) (k : nat) :
  (k < List.length bw)%nat -> (k < List.length bt)%nat -> (k < List.length bf)%nat ->
  (conf <- getitem bw (Z.of_nat k) ;;
   if bit_set c (Z.of_nat k) then
     old <- getitem bt (Z.of_nat k) ;;
     bt' <- setitem bt (Z.of_nat k) (old + 1 * conf) ;;
     Ok (bt', bf)
   else
     old <- getitem bf (Z.of_nat k) ;;
     bf' <- setitem bf (Z.of_nat k) (old + 1 * conf) ;;
     Ok (bt, bf'))
  = Ok (set_nth bt k (nth k bt 0 + (if bit_set c (Z.of_nat k) then nth k bw 0 else 0)),
        set_nth bf k (nth k bf 0 + (if bit_set c (Z.of_nat k) then 0 else nth k bw 0))).
Proof.
  intros Hw Ht Hf.
  rewrite (getitem_nat bw k 0 Hw). cbn [bind].
  destruct (bit_set c (Z.of_nat k)).
  - rewrite (getitem_nat bt k 0 Ht). cbn [bind]. rewrite (setitem_nat _ _ _ Ht). cbn [bind].
    rewrite Z.add_0_r, set_nth_same. do 3 f_equal. lia.
  - rewrite (getitem_nat bf k 0 Hf). cbn [bind]. rewrite (setitem_nat _ _ _ Hf). cbn [bind].
    rewrite Z.add_0_r, set_nth_same. do 3 f_equal. lia.
Qed.

Lemma get_bit_confidences_wf (a : t) :
  wf a ->
  get_bit_confidences a = Ok (map (true_weight a) (seq 0 8), map (false_weight a) (seq 0 8)).
Proof.
  destruct a as [c bw cf]. unfold wf. cbn [bitwise_confidence].
  intros H.
  do 9 (destruct bw as [|? bw]; try discriminate H). clear H.
  unfold get_bit_confidences, true_weight, false_weight.
  rewrite range_0_8.
  cbn [char bitwise_confidence map seq foldM repeat].
  repeat (rewrite bit_confidence_round by (cbn [List.length]; lia); cbn [bind set_nth nth]).
  rewrite !Z.add_0_l. reflexivity.
Qed.

(** One round of the loop of [__add__]. *)
Lemma merge_round (nt nf nbc : list Z) (byte : Z) (i : nat) :
  (i < List.length nt)%nat -> (i < List.length nf)%nat -> (i < List.length nbc)%nat ->
  (t_i <- getitem nt (Z.of_nat i) ;;
   f_i <- getitem nf (Z.of_nat i) ;;
   let how_true := t_i - f_i in
   if how_true >? 0 then
     nbc' <- setitem nbc (Z.of_nat i) how_true ;;
     Ok (Z.lor byte (Z.shiftl 1 (Z.of_nat i)), nbc')
   else
     nbc' <- setitem nbc (Z.of_nat i) (- how_true) ;;
     Ok (byte, nbc'))
  = Ok (if nth i nt 0 - nth i nf 0 >? 0 then Z.lor byte (Z.shiftl 1 (Z.of_nat i)) else byte,
        set_nth nbc i (Z.abs (nth i nt 0 - nth i nf 0))).
Proof.
  intros Ht Hf Hn.
  rewrite (getitem_nat nt i 0 Ht), (getitem_nat nf i 0 Hf). cbn [bind].
  cbv zeta.
  destruct (Z.gtb_spec (nth i nt 0 - nth i nf 0) 0);
    rewrite (setitem_nat _ _ _ Hn); cbn [bind]; do 3 f_equal; lia.
Qed.

Lemma add_closed_form (a b : t) :
  wf a -> wf b -> __add__ a b = Ok (merged (how_trues a b)).
Proof.
  intros Ha Hb. unfold __add__.
  rewrite (get_bit_confidences_wf a Ha), (get_bit_confidences_wf b Hb).
  cbn [bind]. rewrite range_0_8.
  cbn [map seq foldM repeat map_add].
  repeat (rewrite merge_round by (cbn [List.length]; lia); cbn [bind set_nth nth]).
  reflexivity.
Qed.


Lemma bits_of_byte (b0 b1 b2 b3 b4 b5 b6 b7 : bool) :
  map (fun k => bit_set (byte_of_bits [b0; b1; b2; b3; b4; b5; b6; b7]) (Z.of_nat k)) (seq 0 8)
  = [b0; b1; b2; b3; b4; b5; b6; b7].
Proof. destruct b0, b1, b2, b3, b4, b5, b6, b7; vm_compute; reflexivity. Qed.

Lemma merged_wf (ds : list Z) : List.length ds = 8%nat -> wf (merged ds).
Proof. intros H. unfold wf, merged. cbn. now rewrite length_map. Qed.

Lemma length_how_trues (a b : t) : List.length (how_trues a b) = 8%nat.
Proof. reflexivity. Qed.

Lemma merged_bit (ds : list Z) (k : nat) :
  List.length ds = 8%nat -> (k < 8)%nat ->
  bit_set (char (merged ds)) (Z.of_nat k) = (nth k ds 0 >? 0).
Proof.
  intros H Hk. destruct (list8 ds H) as (d0 & d1 & d2 & d3 & d4 & d5 & d6 & d7 & ->).
  pose proof (bits_of_byte (d0 >? 0) (d1 >? 0) (d2 >? 0) (d3 >? 0)
                (d4 >? 0) (d5 >? 0) (d6 >? 0) (d7 >? 0)) as E.
  cbn [map seq] in E. cbn [merged char map].
  injection E as E0 E1 E2 E3 E4 E5 E6 E7.
  do 8 (destruct k as [|k]; [cbn [nth]; assumption|]). lia.
Qed.

Lemma nth_map_abs (ds : list Z) (k : nat) :
  nth k (map Z.abs ds) 0 = Z.abs (nth k ds 0).
Proof. change (nth k (map Z.abs ds) 0) with (nth k (map Z.abs ds) (Z.abs 0)). apply map_nth. Qed.

Lemma nth_how_trues (a b : t) (k : nat) :
  (k < 8)%nat -> nth k (how_trues a b) 0 = how_true a b k.
Proof.
  intros Hk. unfold how_trues.
  rewrite (nth_indep _ 0 (how_true a b 0)) by (rewrite length_map, length_seq; assumption).
  rewrite map_nth, seq_nth by assumption. reflexivity.
Qed.

Lemma merged_signed (ds : list Z) (k : nat) :
  List.length ds = 8%nat -> (k < 8)%nat -> signed (merged ds) k = nth k ds 0.
Proof.
  intros H Hk. unfold signed, true_weight, false_weight.
  rewrite (merged_bit ds k H Hk). cbn [merged bitwise_confidence].
  rewrite nth_map_abs.
  destruct (Z.gtb_spec (nth k ds 0) 0); lia.
Qed.

Lemma how_trues_ext (a b a' b' : t) :
  (forall k, (k < 8)%nat -> signed a k + signed b k = signed a' k + signed b' k) ->
  how_trues a b = how_trues a' b'.
Proof.
  intros H. unfold how_trues. apply map_ext_in. intros k Hk. apply in_seq in Hk.
  specialize (H k ltac:(lia)). unfold how_true, signed in *. lia.
Qed.

(** C5. [__add__] is commutative and associative on the characters the
    constructor makes: [a + b = b + a] and [(a + b) + c = a + (b + c)].
    Bit [k] of the sum is set exactly when [how_true], the summed true
    weight minus the summed false weight, is greater than 0, and the
    bitwise confidence of the sum at [k] is its absolute value. *)
Theorem add_commutative_associative (a b c : t) (Ha : wf a) (Hb : wf b) (Hc : wf c) :
  __add__ a b = __add__ b a
  /\ (ab <- __add__ a b ;; __add__ ab c) = (bc <- __add__ b c ;; __add__ a bc)
  /\ exists r, __add__ a b = Ok r /\ wf r
       /\ forall k, (k < 8)%nat ->
            bit_set (char r) (Z.of_nat k) = (how_true a b k >? 0)
            /\ nth k (bitwise_confidence r) 0 = Z.abs (how_true a b k).
Proof.
  split; [|split].
  - rewrite !add_closed_form by assumption. do 2 f_equal.
    apply how_trues_ext. intros; lia.
  - rewrite (add_closed_form a b Ha Hb), (add_closed_form b c Hb Hc). cbn [bind].
    rewrite !add_closed_form by (try assumption; apply merged_wf, length_how_trues).
    do 2 f_equal. apply how_trues_ext. intros k Hk.
    rewrite !merged_signed by (try assumption; apply length_how_trues).
    rewrite !nth_how_trues by assumption.
    unfold how_true, signed. lia.
  - exists (merged (how_trues a b)). split; [now apply add_closed_form|].
    split; [apply merged_wf, length_how_trues|].
    intros k Hk.
    split.
    + rewrite merged_bit by (try assumption; apply length_how_trues).
      now rewrite nth_how_trues.
    + cbn [merged bitwise_confidence]. now rewrite nth_map_abs, nth_how_trues.
Qed.

Lemma add_commutative_associative_witness :
  wf example_W /\ wf example_G /\ wf example_X
  /\ __add__ example_W example_G = __add__ example_G example_W
  /\ (ab <- __add__ example_W example_G ;; __add__ ab example_X)
     = (bc <- __add__ example_G example_X ;; __add__ example_W bc).
Proof.
  pose proof (add_commutative_associative example_W example_G example_X
                eq_refl eq_refl eq_refl) as H.
  repeat split; apply H.
Defined.

End ConfidentCharacterFacts.

(** ** The state monad *)

Section Preservation.
Context {S : Type} (P : world S -> Prop).

Lemma preserves_ret {A} (a : A) : preserves P (ret a).
Proof. intros w H. exact H. Qed.

Lemma preserves_raise {A} (e : exn) : preserves P (@raise S A e).
Proof. intros w H. exact H. Qed.

Lemma preserves_lift {A} (r : res A) : preserves P (lift r).
Proof. intros w H. exact H. Qed.

Lemma preserves_get : preserves P get.
Proof. intros w H. exact H. Qed.

Lemma preserves_now (clock : nat -> Z) : bump_closed P -> preserves P (now_ clock).
Proof. intros Hb w H. apply Hb, H. Qed.

Lemma preserves_modify (f : S -> S) :
  (forall w, P w -> P (mk_world (readings w) (f (self w)))) -> preserves P (modify f).
Proof. intros Hf w H. apply Hf, H. Qed.

Lemma preserves_bind {A B} (m : M S A) (k : A -> M S B) :
  preserves P m -> (forall a, preserves P (k a)) -> preserves P (bindM m k).
Proof.
  intros Hm Hk w H. unfold bindM.
  specialize (Hm w H). destruct (m w) as [[a|e] w']; cbn in *.
  - apply Hk, Hm.
  - exact Hm.
Qed.
End Preservation.

(** ** [SAMEMessage]: reception latches *)

Section Latch.
Variable data : nwr_data.
Variable tm : pytime.
Variable clock : nat -> Z.
Hypothesis clock_mono : nondecreasing clock.

Lemma latched_bump : bump_closed (latched clock).
Proof.
  intros w [(k0 & Hk & Hl)|H]; [left | right; exact H].
  exists k0. cbn. split; [lia | exact Hl].
Qed.

Lemma xltb_mono (t : xtime) (a b : Z) : a <= b -> xltb t (Fin a) = true -> xltb t (Fin b) = true.
Proof.
  intros Hab H. destruct t; cbn in *; try reflexivity; try discriminate.
  apply Z.ltb_lt in H. apply Z.ltb_lt. lia.
Qed.

Lemma fully_received_latched (a b : bool) (w : world SAMEMessage.t) :
  latched clock w ->
  exists w', SAMEMessage.fully_received clock a b w = (Ok true, w') /\ latched clock w'.
Proof.
  intros HL.
  assert (HL' : exists w1, (if a then modify (SAMEMessage.set_timeout NegInf) else ret tt) w = (Ok tt, w1)
                           /\ latched clock w1).
  { destruct a; [|exists w; split; [reflexivity | exact HL]].
    eexists; split; [reflexivity|]. left. exists (readings w).
    split; [apply Nat.le_refl | reflexivity]. }
  destruct HL' as (w1 & E1 & HL').
  unfold SAMEMessage.fully_received, bindM at 1. rewrite E1. clear E1 HL w.
  unfold bindM, get, SAMEMessage.time_time, now_. cbn [fst snd readings self].
  destruct HL' as [(k0 & Hk & Hl)|(l & Hh & Hlen)].
  - rewrite (xltb_mono _ _ _ (clock_mono _ _ Hk) Hl).
    unfold ret at 1. cbn [andb negb].
    destruct (SAMEMessage.received_callback (self w1)); cbn; eexists; (split; [reflexivity|]);
      left; exists k0; cbn; (split; [lia | exact Hl]).
  - destruct (xltb (SAMEMessage.timeout (self w1)) (Fin (clock (readings w1)))) eqn:Ex.
    + unfold ret at 1. cbn [andb negb].
      destruct (SAMEMessage.received_callback (self w1)); cbn; eexists; (split; [reflexivity|]);
        left; exists (readings w1); cbn; (split; [lia | exact Ex]).
    + unfold SAMEMessage.len_headers, bindM, get. cbn [self]. rewrite Hh. unfold ret.
      destruct (Z.leb_spec 3 (len l)); [|lia]. cbn [andb negb].
      destruct (SAMEMessage.received_callback (self w1)); cbn; eexists; (split; [reflexivity|]);
        right; exists l; cbn; (split; [exact Hh | exact Hlen]).
Qed.

Lemma latched_set_avg_message (v : option (pystr * list cval)) (w : world SAMEMessage.t) :
  latched clock w -> latched clock (mk_world (readings w) (SAMEMessage.set_avg_message v (self w))).
Proof. intros [(k0 & Hk & Hl)|(l & Hh & Hlen)]; [left; exists k0 | right; exists l]; auto. Qed.

Lemma preserves_fully_received (a b : bool) :
  preserves (latched clock) (SAMEMessage.fully_received clock a b).
Proof.
  intros w HL. destruct (fully_received_latched a b w HL) as (w' & E & HL').
  now rewrite E.
Qed.

Ltac preserve_with known :=
  repeat first
    [ known
    | apply preserves_fully_received
    | apply preserves_ret
    | apply preserves_raise
    | apply preserves_lift
    | apply preserves_get
    | apply preserves_now; apply latched_bump
    | apply preserves_modify; intros; apply latched_set_avg_message; assumption
    | apply preserves_bind; [|intros]
    | match goal with
      | |- preserves _ (let '(_, _) := ?x in _) => destruct x
      | |- preserves _ (if ?c then _ else _) => destruct c
      | |- preserves _ (match ?x with _ => _ end) => destruct x
      end ].

Ltac preserve := preserve_with fail.

Lemma preserves_len_headers : preserves (latched clock) SAMEMessage.len_headers.
Proof. unfold SAMEMessage.len_headers. preserve. Qed.

Lemma preserves_get_SAME_message_with (after : M SAMEMessage.t unit) :
  preserves (latched clock) after ->
  preserves (latched clock) (SAMEMessage.get_SAME_message_with data tm clock after).
Proof.
  intros Ha. unfold SAMEMessage.get_SAME_message_with.
  preserve_with ltac:(first [apply preserves_len_headers | exact Ha]).
Qed.

Lemma preserves_get_SAME_message :
  preserves (latched clock) (SAMEMessage.get_SAME_message data tm clock).
Proof.
  apply preserves_get_SAME_message_with. unfold SAMEMessage.name_the_logger.
  preserve_with ltac:(apply preserves_get_SAME_message_with).
Qed.

Ltac preserve_accessor :=
  preserve_with ltac:(apply preserves_get_SAME_message).

Lemma preserves_get_duration_str :
  preserves (latched clock) (SAMEMessage.get_duration_str data tm clock).
Proof. unfold SAMEMessage.get_duration_str. preserve_accessor. Qed.

Lemma preserves_get_start_time_str :
  preserves (latched clock) (SAMEMessage.get_start_time_str data tm clock).
Proof. unfold SAMEMessage.get_start_time_str. preserve_accessor. Qed.

Lemma preserves_get_duration_sec :
  preserves (latched clock) (SAMEMessage.get_duration_sec data tm clock).
Proof.
  unfold SAMEMessage.get_duration_sec. preserve_with ltac:(apply preserves_get_duration_str).
Qed.

Lemma preserves_get_start_time_sec :
  preserves (latched clock) (SAMEMessage.get_start_time_sec data tm clock).
Proof.
  unfold SAMEMessage.get_start_time_sec. preserve_with ltac:(apply preserves_get_start_time_str).
Qed.

Lemma preserves_add_header (h : pystr) (conf : list cval) :
  preserves (latched clock) (SAMEMessage.add_header clock h conf).
Proof.
  intros w HL. destruct (fully_received_latched false false w HL) as (w' & E & HL').
  unfold SAMEMessage.add_header, bindM. now rewrite E.
Qed.

Lemma preserves_perform (c : SAMEMessage.call) (w : world SAMEMessage.t) :
  latched clock w -> latched clock (SAMEMessage.perform data tm clock c w).
Proof.
  destruct c; cbn [SAMEMessage.perform]; unfold SAMEMessage.forget; revert w;
    match goal with |- forall w, _ -> latched _ (snd (?m w)) => change (preserves (latched clock) m) end.
  - apply preserves_add_header.
  - apply preserves_fully_received.
  - apply preserves_get_SAME_message.
  - unfold SAMEMessage.get_originator. preserve_accessor.
  - unfold SAMEMessage.get_event_type. preserve_accessor.
  - unfold SAMEMessage.get_counties. preserve_accessor.
  - unfold SAMEMessage.get_areas, SAMEMessage.get_counties. preserve_accessor.
  - apply preserves_get_duration_str.
  - apply preserves_get_start_time_str.
  - apply preserves_get_duration_sec.
  - apply preserves_get_start_time_sec.
  - unfold SAMEMessage.get_end_time_sec.
    preserve_with ltac:(first [apply preserves_get_start_time_sec
                              | apply preserves_get_duration_sec]).
  - unfold SAMEMessage.get_broadcaster. preserve_accessor.
  - unfold SAMEMessage.applies_to_fips. cbv zeta. preserve_accessor.
Qed.

Lemma preserves_perform_all (cs : list SAMEMessage.call) (w : world SAMEMessage.t) :
  latched clock w -> latched clock (SAMEMessage.perform_all data tm clock cs w).
Proof.
  revert w. induction cs as [|c cs IH]; intros w HL; [exact HL|].
  cbn. apply IH, preserves_perform, HL.
Qed.

Lemma fully_received_true_latched (a b : bool) (w w1 : world SAMEMessage.t) :
  SAMEMessage.fully_received clock a b w = (Ok true, w1) -> latched clock w1.
Proof.
  unfold SAMEMessage.fully_received, bindM, get, SAMEMessage.time_time, now_, SAMEMessage.len_headers.
  intros H.
  destruct a; cbn [modify ret fst snd readings self] in H.
  - cbn in H. destruct (SAMEMessage.received_callback (self w)); cbn in H;
      injection H as <-; left; exists 0%nat; (split; [lia | reflexivity]).
  - destruct (xltb (SAMEMessage.timeout (self w)) (Fin (clock (readings w)))) eqn:Ex.
    + cbn in H. destruct (SAMEMessage.received_callback (self w)); cbn in H;
        injection H as <-; left; exists (readings w); cbn; auto.
    + unfold bindM, get in H. cbn [self] in H.
      destruct (SAMEMessage.headers (self w)) as [l|] eqn:Eh; [|discriminate H].
      unfold ret in H. destruct (Z.leb_spec 3 (len l)).
      * cbn in H. destruct (SAMEMessage.received_callback (self w)); cbn in H;
          injection H as <-; right; exists l; cbn; auto.
      * cbn in H. destruct b; cbn in H; discriminate H.
Qed.

(** C6. [fully_received] is monotone under a nondecreasing clock: once a
    call has returned true (the timeout had passed, three headers were
    in, or [make_it_so] forced it), every later call returns true,
    whatever methods were called in between and with whatever flags. *)
Theorem fully_received_monotone (a b : bool) (w w1 : world SAMEMessage.t) (cs : list SAMEMessage.call)
    (a' b' : bool) :
  SAMEMessage.fully_received clock a b w = (Ok true, w1) ->
  fst (SAMEMessage.fully_received clock a' b' (SAMEMessage.perform_all data tm clock cs w1)) = Ok true.
Proof.
  intros H. apply fully_received_true_latched in H.
  apply (preserves_perform_all cs) in H.
  destruct (fully_received_latched a' b' _ H) as (w' & E & _).
  now rewrite E.
Qed.
End Latch.

Lemma ticking_nondecreasing (t0 dt : Z) : 0 <= dt -> nondecreasing (ticking t0 dt).
Proof. intros H i j Hij. unfold ticking. nia. Qed.

Lemma fully_received_monotone_witness :
  nondecreasing (ticking 1000 7)
  /\ SAMEMessage.fully_received (ticking 1000 7) false false
       (fresh no_data Utc.time (ticking 1000 7))
     = (Ok true, mk_world 2 (self (fresh no_data Utc.time (ticking 1000 7))))
  /\ fst (SAMEMessage.fully_received (ticking 1000 7) false true
            (SAMEMessage.perform_all no_data Utc.time (ticking 1000 7)
               [SAMEMessage.Call_fully_received false true;
                SAMEMessage.Call_add_header (str "-WXR") [CInt 9];
                SAMEMessage.Call_get_SAME_message]
               (mk_world 2 (self (fresh no_data Utc.time (ticking 1000 7))))))
     = Ok true.
Proof.
  assert (Hmono : nondecreasing (ticking 1000 7)) by (apply ticking_nondecreasing; lia).
  split; [exact Hmono|]. split; [reflexivity|].
  apply (fully_received_monotone no_data Utc.time (ticking 1000 7) Hmono false false
           (fresh no_data Utc.time (ticking 1000 7))).
  reflexivity.
Defined.

(** ** [SAMEMessage]: the accessors *)

Section Literal.
Variable data : nwr_data.
Variable tm : pytime.
Variable clock : nat -> Z.

Lemma get_SAME_message_settled (w : world SAMEMessage.t) (a : pystr * list cval) :
  settled (self w) a ->
  SAMEMessage.get_SAME_message data tm clock w = (Ok a, mk_world (S (readings w)) (self w)).
Proof.
  destruct w as [n s]. destruct s. unfold settled. cbn.
  intros (-> & -> & ->). reflexivity.
Qed.

Lemma get_SAME_message_inner_settled (w : world SAMEMessage.t) (a : pystr * list cval) :
  settled (self w) a ->
  SAMEMessage.get_SAME_message_inner data tm clock w = (Ok a, mk_world (S (readings w)) (self w)).
Proof.
  destruct w as [n s]. destruct s. unfold settled. cbn.
  intros (-> & -> & ->). reflexivity.
Qed.



Lemma keeps_bind_get (s0 : SAMEMessage.t) {B} (k : SAMEMessage.t -> M SAMEMessage.t B) :
  preserves (keeps s0) (k s0) -> preserves (keeps s0) (bindM get k).
Proof. intros H w E. unfold bindM, get. rewrite E. apply H, E. Qed.

Section Keeps.
Variable s0 : SAMEMessage.t.
Variable a : pystr * list cval.
Hypothesis Havg : SAMEMessage.avg_message s0 = Some a.
Hypothesis Hcb : SAMEMessage.received_callback s0 = false.

Ltac keep_with known :=
  repeat first
    [ known
    | apply keeps_bind_get; rewrite ?Havg, ?Hcb; cbv zeta
    | rewrite andb_false_r
    | apply preserves_ret
    | apply preserves_raise
    | apply preserves_lift
    | apply preserves_now; intros ? ?; assumption
    | apply preserves_bind; [|intros]
    | match goal with
      | |- preserves _ (if ?c then _ else _) => destruct c
      | |- preserves _ (match ?x with _ => _ end) => destruct x
      end ].

Lemma keeps_fully_received : preserves (keeps s0) (SAMEMessage.fully_received clock false false).
Proof.
  unfold SAMEMessage.fully_received, SAMEMessage.time_time, SAMEMessage.len_headers. keep_with fail.
Qed.

Lemma keeps_get_SAME_message_with (after : M SAMEMessage.t unit) :
  preserves (keeps s0) (SAMEMessage.get_SAME_message_with data tm clock after).
Proof.
  unfold SAMEMessage.get_SAME_message_with, SAMEMessage.len_headers.
  keep_with ltac:(apply keeps_fully_received).
Qed.

Lemma keeps_get_start_time_sec :
  preserves (keeps s0) (SAMEMessage.get_start_time_sec data tm clock).
Proof.
  unfold SAMEMessage.get_start_time_sec, SAMEMessage.get_start_time_str, SAMEMessage.get_SAME_message.
  keep_with ltac:(apply keeps_get_SAME_message_with).
Qed.
End Keeps.

Lemma init_literal_unfold (n : nat) (s0 : SAMEMessage.t) (G : M SAMEMessage.t Z) :
  G = SAMEMessage.get_start_time_sec data tm clock ->
  SAMEMessage.__init__ data tm clock (Some clean_header) SAMEMessage.HNone false (mk_world n s0)
  = match G (mk_world (S n) (under_construction (clock n))) with
    | (Ok st, w') =>
        (Ok tt, mk_world (readings w')
                  (SAMEMessage.set_event_id (SAMEMessage.IdLiteral clean_header)
                     (SAMEMessage.set_published st
                        (SAMEMessage.set_timeout NegInf (SAMEMessage.set_start_time st (self w'))))))
    | (Raise e, w') => (Raise e, w')
    end.
Proof.
  intros EG. unfold SAMEMessage.__init__. rewrite <- EG. clear EG.
  vm_compute.
  match goal with |- context [G ?w] => destruct (G w) as [[st|e] w'] end; reflexivity.

Qed.

Lemma init_literal (w0 w1 : world SAMEMessage.t) :
  SAMEMessage.__init__ data tm clock (Some clean_header) SAMEMessage.HNone false w0 = (Ok tt, w1) ->
  exists st, self w1 = constructed st.
Proof.
  destruct w0 as [n s0].
  rewrite (init_literal_unfold n s0 _ eq_refl).
  pose proof (keeps_get_start_time_sec (under_construction (clock n)) _ eq_refl eq_refl
                (mk_world (S n) (under_construction (clock n))) eq_refl) as K.
  revert K.
  destruct (SAMEMessage.get_start_time_sec data tm clock (mk_world (S n) (under_construction (clock n))))
    as [[st|e] [n' s']]; [|discriminate].
  unfold keeps. cbn [snd self]. intros -> H. injection H as <-. exists st. reflexivity.
Qed.

(** C2. For a [SAMEMessage] constructed from the literal
    [-WXR-TOR-039173-039051-139069+0030-1591829-KCLE/NWS-], at any later
    time: [get_originator() = WXR], [get_event_type() = TOR],
    [get_counties() = [039173, 039051, 139069]],
    [get_duration_str() = 0030], [get_duration_sec() = 1800] and
    [get_start_time_str() = 1591829]. *)
Theorem literal_accessors (w0 w1 w : world SAMEMessage.t) :
  SAMEMessage.__init__ data tm clock (Some clean_header) SAMEMessage.HNone false w0 = (Ok tt, w1) ->
  self w = self w1 ->
  fst (SAMEMessage.get_originator data tm clock w) = Ok (str "WXR")
  /\ fst (SAMEMessage.get_event_type data tm clock w) = Ok (str "TOR")
  /\ fst (SAMEMessage.get_counties data tm clock w) = Ok [str "039173"; str "039051"; str "139069"]
  /\ fst (SAMEMessage.get_duration_str data tm clock w) = Ok (str "0030")
  /\ fst (SAMEMessage.get_duration_sec data tm clock w) = Ok 1800
  /\ fst (SAMEMessage.get_start_time_str data tm clock w) = Ok (str "1591829").
Proof.
  intros H E. destruct (init_literal w0 w1 H) as (st & Hs). rewrite <- E in Hs. unfold constructed in Hs.
  assert (S0 : forall w', self w' = self w ->
             SAMEMessage.get_SAME_message data tm clock w'
             = (Ok (clean_header, repeat (CChr 57) 52), mk_world (S (readings w')) (self w'))).
  { intros w' E'. apply get_SAME_message_settled. rewrite E', Hs. repeat split. }
  unfold SAMEMessage.get_duration_sec, SAMEMessage.get_originator, SAMEMessage.get_event_type, SAMEMessage.get_counties,
    SAMEMessage.get_duration_str, SAMEMessage.get_start_time_str, bindM.
  rewrite (S0 w eq_refl).
  repeat split; vm_compute; reflexivity.
Qed.

(** C7. For a query [X] of five characters, [applies_to_fips("0" + X)]
    does what [applies_to_fips(X)] does; a query whose length is neither 5
    nor 6 raises [ValueError] and leaves the message as it was. *)
Theorem applies_to_fips_leading_zero :
  (forall X w, len X = 5 ->
     SAMEMessage.applies_to_fips data tm clock (48 :: X) w = SAMEMessage.applies_to_fips data tm clock X w)
  /\ (forall fips w, len fips <> 5 -> len fips <> 6 ->
        SAMEMessage.applies_to_fips data tm clock fips w = (Raise ValueError, w)).
Proof.
  split.
  - intros X w HX. unfold SAMEMessage.applies_to_fips.
    assert (E6 : len (48 :: X) = 6) by (unfold len in *; cbn [List.length]; lia).
    rewrite E6, HX. reflexivity.
  - intros fips w H5 H6. unfold SAMEMessage.applies_to_fips.
    destruct (Z.eqb_spec (len fips) 5); [contradiction|].
    destruct (Z.eqb_spec (len fips) 6); [contradiction|]. reflexivity.
Qed.

Lemma get_SAME_message_timed_out_empty (w : world SAMEMessage.t) :
  SAMEMessage.headers (self w) = Some [] ->
  SAMEMessage.avg_message (self w) = None ->
  xltb (SAMEMessage.timeout (self w)) (Fin (clock (readings w))) = true ->
  fst (SAMEMessage.get_SAME_message data tm clock w) = Raise IndexError.
Proof.
  destruct w as [n s]. destruct s. cbn [self readings SAMEMessage.headers
    SAMEMessage.avg_message SAMEMessage.timeout].
  intros -> -> H.
  unfold SAMEMessage.get_SAME_message, SAMEMessage.get_SAME_message_with,
    SAMEMessage.fully_received, SAMEMessage.time_time, bindM, now_, get, ret, modify.
  cbn [self readings SAMEMessage.timeout fst snd]. rewrite H.
  cbn [andb negb SAMEMessage.received_callback self].
  destruct received_callback; reflexivity.
Qed.

(** C8. A message that has collected no header answers
    [get_SAME_message()] with the pair of the empty string and the empty
    list while its timeout has not passed; once the timeout has passed the
    same call raises [IndexError] from [average_message]. *)
Theorem get_SAME_message_without_headers :
  SAMEMessage.headers (self (fresh data tm (ticking 1000 7))) = Some []
  /\ fst (SAMEMessage.get_SAME_message data tm (ticking 1000 1)
            (fresh data tm (ticking 1000 1))) = Ok ([], [])
  /\ fst (SAMEMessage.get_SAME_message data tm (ticking 1000 7)
            (fresh data tm (ticking 1000 7))) = Raise IndexError.
Proof. repeat split. Qed.

End Literal.

Lemma literal_accessors_witness :
  let clock := ticking 1465323600 1 in
  let w0 := mk_world 0 blank in
  let w1 := snd (SAMEMessage.__init__ no_data Utc.time clock (Some clean_header)
                   SAMEMessage.HNone false w0) in
  SAMEMessage.__init__ no_data Utc.time clock (Some clean_header) SAMEMessage.HNone false w0
  = (Ok tt, w1)
  /\ fst (SAMEMessage.get_duration_sec no_data Utc.time clock w1) = Ok 1800.
Proof.
  intros clock w0 w1.
  assert (H : SAMEMessage.__init__ no_data Utc.time clock (Some clean_header)
                SAMEMessage.HNone false w0 = (Ok tt, w1)) by (vm_compute; reflexivity).
  split; [exact H|].
  apply (literal_accessors no_data Utc.time clock w0 w1 w1 H eq_refl).
Defined.

Lemma applies_to_fips_leading_zero_witness :
  let clock := ticking 1465323600 1 in
  let w1 := snd (SAMEMessage.__init__ no_data Utc.time clock (Some clean_header)
                   SAMEMessage.HNone false (mk_world 0 blank)) in
  len (str "39173") = 5
  /\ SAMEMessage.applies_to_fips no_data Utc.time clock (48 :: str "39173") w1
     = SAMEMessage.applies_to_fips no_data Utc.time clock (str "39173") w1
  /\ SAMEMessage.applies_to_fips no_data Utc.time clock (str "391") w1
     = (Raise ValueError, w1).
Proof.
  intros clock w1.
  destruct (applies_to_fips_leading_zero no_data Utc.time clock) as [A B].
  split; [reflexivity|]. split.
  - apply A. reflexivity.
  - apply B; intros H; vm_compute in H; discriminate H.
Defined.


(** ** [MessageCache]: the expiry tick *)

Module CacheFacts.
Import Cache.

Section Facts.
Variable clock : nat -> Z.
Hypothesis clock_mono : nondecreasing clock.

Lemma get_end_time_sec_populated (g : EventMessageGroup.t) :
  EventMessageGroup.messages g <> [] ->
  EventMessageGroup.get_end_time_sec g = Ok (group_end g).
Proof.
  intros H. unfold group_end, EventMessageGroup.get_end_time_sec, getitem.
  destruct (EventMessageGroup.messages g) as [|m l] eqn:E; [contradiction|].
  assert (Hlen : len (m :: l) = Z.of_nat (List.length l) + 1)
    by (unfold len; cbn [List.length]; lia).
  change (-1 <? 0) with true. cbv iota. rewrite Hlen.
  destruct (Z.ltb_spec (-1 + (Z.of_nat (List.length l) + 1)) 0); [lia|].
  destruct (nth_error (m :: l) (Z.to_nat (-1 + (Z.of_nat (List.length l) + 1)))) eqn:En.
  - reflexivity.
  - apply nth_error_None in En. cbn [List.length] in En. lia.
Qed.

Lemma mapM_ends (d : list (pystr * EventMessageGroup.t)) :
  (forall kg, In kg d -> EventMessageGroup.messages (snd kg) <> []) ->
  mapM (fun kv => EventMessageGroup.get_end_time_sec (snd kv)) d
  = Ok (map (fun kg => group_end (snd kg)) d).
Proof.
  induction d as [|kg d IH]; intros H; [reflexivity|].
  cbn [mapM map]. rewrite get_end_time_sec_populated by (apply H; now left).
  cbn [bind]. rewrite IH by (intros; apply H; now right). reflexivity.
Qed.

Lemma get_first_expiry_populated (w : world t) :
  populated (self w) -> _get_first_expiry w = (Ok (first_expiry (self w)), w).
Proof.
  intros H. unfold _get_first_expiry, first_expiry, bindM, get, lift.
  unfold populated in H.
  destruct (messages (self w)) as [|kg d] eqn:E; [reflexivity|].
  assert (Hl : (len (kg :: d) =? 0) = false)
    by (apply Z.eqb_neq; unfold len; cbn [List.length]; lia).
  rewrite Hl. cbn [negb]. rewrite mapM_ends by exact H. reflexivity.
Qed.

Lemma fold_min_le_init (es : list Z) (v : Z) : fold_left Z.min es v <= v.
Proof.
  revert v. induction es as [|y es IH]; intros v; cbn [fold_left]; [lia|].
  etransitivity; [apply IH | lia].
Qed.

Lemma fold_min_le (es : list Z) (e x : Z) :
  In x (e :: es) -> fold_left Z.min es e <= x.
Proof.
  intros [<-|H]; [apply fold_min_le_init|].
  revert e. induction es as [|y es IH]; intros e; [destruct H|].
  cbn [fold_left]. destruct H as [<-|H].
  - etransitivity; [apply fold_min_le_init | lia].
  - now apply IH.
Qed.

Lemma first_expiry_le (c : t) (kg : pystr * EventMessageGroup.t) (now : Z) :
  In kg (messages c) -> xltb (first_expiry c) (Fin now) = false -> now <= group_end (snd kg).
Proof.
  intros Hin Hx. unfold first_expiry in Hx.
  pose proof (in_map (fun kg => group_end (snd kg)) _ _ Hin) as Hm.
  destruct (map (fun kg => group_end (snd kg)) (messages c)) as [|e es]; [destruct Hm|].
  cbn [xltb] in Hx. apply Z.ltb_ge in Hx.
  pose proof (fold_min_le es e _ Hm). cbn beta in *. lia.
Qed.

Lemma keep_unexpired_closed (d : list (pystr * EventMessageGroup.t)) (n : nat) (c0 : t) :
  (forall kg, In kg d -> EventMessageGroup.messages (snd kg) <> []) ->
  keep_unexpired clock d (mk_world n c0)
  = (Ok (unexpired_at clock n d), mk_world (n + List.length d) c0).
Proof.
  revert n. induction d as [|[k v] d IH]; intros n H.
  - cbn. now rewrite Nat.add_0_r.
  - assert (Hv : EventMessageGroup.get_end_time_sec v = Ok (group_end v))
      by (apply get_end_time_sec_populated, (H (k, v)); now left).
    cbn [keep_unexpired unexpired_at snd]. unfold bindM, lift, now_. rewrite Hv.
    cbn [readings self]. rewrite (IH (S n)) by (intros kg Hin; apply H; now right).
    unfold ret. cbn [List.length]. rewrite Nat.add_succ_r. reflexivity.
Qed.

(** A group that is kept is one of the groups, and ends at or after the
    first reading of the sweep. *)
Lemma unexpired_at_kept (d : list (pystr * EventMessageGroup.t)) (n : nat)
    (kg : pystr * EventMessageGroup.t) :
  In kg (unexpired_at clock n d) -> In kg d /\ clock n <= group_end (snd kg).
Proof.
  revert n. induction d as [|kg0 d IH]; intros n; cbn [unexpired_at]; [intros []|].
  assert (Hn : clock n <= clock (S n)) by (apply clock_mono; lia).
  destruct (Z.geb_spec (group_end (snd kg0)) (clock n)).
  - intros [<-|Hin]; [split; [now left | lia]|].
    destruct (IH _ Hin). split; [now right | lia].
  - intros Hin. destruct (IH _ Hin). split; [now right | lia].
Qed.

(** A group that ends at or after the last reading of the sweep is kept. *)
Lemma unexpired_at_live (d : list (pystr * EventMessageGroup.t)) (n : nat)
    (kg : pystr * EventMessageGroup.t) :
  In kg d -> clock (Nat.pred (n + List.length d)) <= group_end (snd kg) ->
  In kg (unexpired_at clock n d).
Proof.
  revert n. induction d as [|kg0 d IH]; intros n; [intros []|].
  cbn [unexpired_at List.length]. rewrite Nat.add_succ_r. cbn [Nat.pred].
  assert (Hn : clock n <= clock (n + List.length d)) by (apply clock_mono; lia).
  intros [->|Hin] He.
  - destruct (Z.geb_spec (group_end (snd kg)) (clock n)); [now left | lia].
  - assert (Hkept : In kg (unexpired_at clock (S n) d)).
    { apply IH; [exact Hin|]. destruct d as [|kg1 d']; [destruct Hin|].
      cbn [List.length] in *. rewrite Nat.add_succ_r. cbn [Nat.pred Nat.add].
      rewrite Nat.add_succ_r in He. exact He. }
    destruct (group_end (snd kg0) >=? clock n); [now right | exact Hkept].
Qed.

Lemma unexpired_at_subsequence (d : list (pystr * EventMessageGroup.t)) (n : nat) :
  subsequence (unexpired_at clock n d) d.
Proof.
  revert n. induction d as [|kg0 d IH]; intros n; cbn [unexpired_at]; [constructor|].
  destruct (group_end (snd kg0) >=? clock n); constructor; apply IH.
Qed.

(** C9. One [generate_events] tick, on a cache whose groups are populated
    and under a nondecreasing clock.  [now] is the reading the handler
    compares the first expiry with; the sweep then takes one later
    reading for each group.  Afterwards every group left in the cache
    ends at [now] or later.  When the minimum end time (infinity for an
    empty cache) is before [now], the groups left are the old ones, in
    their order, that end at or after the reading the sweep took for
    them: every group ending before [now] is gone, every group ending at
    or after the last reading of the sweep is kept, and
    [update_score(None)] is fired; otherwise the groups are unchanged and
    no [update_score] is fired. *)
Theorem generate_events_spec (c : t) (n : nat) :
  populated c ->
  let now := clock (S n) in
  exists w',
    _generate_events clock (mk_world n c) = (Ok tt, w')
    /\ (forall kg, In kg (messages (self w')) -> now <= group_end (snd kg))
    /\ (xltb (first_expiry c) (Fin now) = true ->
          messages (self w') = unexpired_at clock (S (S n)) (messages c)
          /\ (forall kg, In kg (messages c) -> group_end (snd kg) < now ->
                         ~ In kg (messages (self w')))
          /\ (forall kg, In kg (messages (self w')) -> In kg (messages c))
          /\ (forall kg, In kg (messages c) ->
                 clock (S n + List.length (messages c)) <= group_end (snd kg) ->
                 In kg (messages (self w')))
          /\ fired (self w')
             = fired c ++ [reduce_time_left (time_left (first_expiry c) (clock n));
                           update_score None])
    /\ (xltb (first_expiry c) (Fin now) = false ->
          messages (self w') = messages c
          /\ fired (self w')
             = fired c ++ [reduce_time_left (time_left (first_expiry c) (clock n))]).
Proof.
  intros Hp now.
  unfold _generate_events, bindM at 1.
  rewrite (get_first_expiry_populated (mk_world n c) Hp). cbn [self].
  unfold bindM at 1, now_ at 1. cbn [readings self].
  unfold bindM at 1, modify at 1. cbn [readings self].
  unfold bindM at 1, now_ at 1. cbn [readings self]. fold now.
  destruct (xltb (first_expiry c) (Fin now)) eqn:Ex.
  - unfold bindM at 1, get at 1. cbn [self messages emit].
    unfold bindM at 1.
    rewrite (keep_unexpired_closed (messages c) (S (S n))
               (emit (reduce_time_left (time_left (first_expiry c) (clock n))) c) Hp).
    assert (Hn : now <= clock (S (S n))) by (apply clock_mono; lia).
    eexists. split; [reflexivity|]. cbn [self readings set_messages emit messages fired].
    split; [|split; [|intros; discriminate]].
    + intros kg Hin. destruct (unexpired_at_kept _ _ _ Hin). lia.
    + intros _. split; [reflexivity|]. split; [|split; [|split]].
      * intros kg Hin He Hkept. destruct (unexpired_at_kept _ _ _ Hkept). lia.
      * intros kg Hin. now destruct (unexpired_at_kept _ _ _ Hin).
      * intros kg Hin He. apply unexpired_at_live; [exact Hin|].
        cbn [Nat.add Nat.pred]. cbn [Nat.add] in He. exact He.
      * rewrite <- app_assoc. reflexivity.
  - eexists. split; [reflexivity|]. cbn [self emit messages fired].
    split; [|split; [intros; discriminate|]].
    + intros kg Hin. now apply (first_expiry_le c kg now).
    + intros _. split; reflexivity.
Qed.

Lemma pystr_eqb_refl (a : pystr) : pystr_eqb a a = true.
Proof. induction a as [|x a IH]; [reflexivity|]. cbn. now rewrite Z.eqb_refl. Qed.

Lemma store_store (k : pystr) (v0 v : EventMessageGroup.t)
    (d : list (pystr * EventMessageGroup.t)) :
  store k v (store k v0 d) = store k v d.
Proof.
  induction d as [|[k' v'] d IH]; cbn [store].
  - now rewrite pystr_eqb_refl.
  - destruct (pystr_eqb k k') eqn:E; cbn [store]; rewrite E; [reflexivity|].
    now rewrite IH.
Qed.

Lemma in_store (k : pystr) (v : EventMessageGroup.t)
    (d : list (pystr * EventMessageGroup.t)) (kg : pystr * EventMessageGroup.t) :
  In kg (store k v d) -> snd kg = v \/ In kg d.
Proof.
  induction d as [|[k' v'] d IH]; cbn [store].
  - intros [<-|[]]. now left.
  - destruct (pystr_eqb k k').
    + intros [<-|H]; [now left | right; now right].
    + intros [<-|H]; [right; now left|].
      destruct (IH H); [now left | right; now right].
Qed.

Lemma lookup_in (k : pystr) (d : list (pystr * EventMessageGroup.t))
    (h : EventMessageGroup.t) :
  lookup k d = Some h -> exists k', In (k', h) d.
Proof.
  induction d as [|[k' v'] d IH]; cbn [lookup]; [discriminate|].
  destruct (pystr_eqb k k').
  - intros [= ->]. exists k'. now left.
  - intros H. destruct (IH H) as (k'' & Hin). exists k''. now right.
Qed.

Lemma group_add_message_populated (g g' : EventMessageGroup.t) (m : message) :
  EventMessageGroup.add_message g m = Ok g' -> EventMessageGroup.messages g' <> [].
Proof.
  unfold EventMessageGroup.add_message.
  destruct (EventMessageGroup.messages g) as [|m0 l] eqn:E.
  - cbn. intros [= <-]. cbn. discriminate.
  - assert (Hl : (len (m0 :: l) =? 0) = false)
      by (apply Z.eqb_neq; unfold len; cbn [List.length]; lia).
    rewrite Hl. cbn [negb].
    repeat match goal with |- context [if ?c then _ else _] => destruct c end;
      intros [= <-]; cbn; try rewrite E; try discriminate.
Qed.

(** Submitting a message keeps every group populated, also when the
    group refuses it. *)
Lemma add_message_populated (m : message) (w : world t) :
  populated (self w) -> populated (self (snd (add_message m w))).
Proof.
  intros Hp. unfold add_message, bindM, get, modify, lift.
  cbn [self readings set_messages messages].
  destruct (lookup (event_id m) (messages (self w))) as [h|] eqn:El.
  - destruct (lookup_in _ _ _ El) as (k' & Hin).
    pose proof (Hp _ Hin) as Hh. cbn [snd] in Hh.
    destruct (EventMessageGroup.add_message h m) as [h'|e] eqn:Ea;
      cbn [self snd readings set_messages messages emit]; intros kg Hkg.
    + rewrite store_store in Hkg. destruct (in_store _ _ _ _ Hkg) as [->|H'].
      * eapply group_add_message_populated, Ea.
      * now apply Hp.
    + destruct (in_store _ _ _ _ Hkg) as [->|H']; [exact Hh | now apply Hp].
  - destruct (EventMessageGroup.add_message EventMessageGroup.__init__ m) as [h'|e] eqn:Ea;
      [|discriminate Ea].
    cbn [self snd readings set_messages messages emit]. intros kg Hkg.
    rewrite store_store in Hkg. destruct (in_store _ _ _ _ Hkg) as [->|H'].
    + eapply group_add_message_populated, Ea.
    + now apply Hp.
Qed.
End Facts.

Lemma example_cache_populated : populated example_cache.
Proof.
  apply add_message_populated, add_message_populated. intros kg [].
Qed.

Lemma generate_events_spec_witness :
  nondecreasing (ticking 2000 1)
  /\ populated example_cache
  /\ exists w',
       _generate_events (ticking 2000 1) (mk_world 0 example_cache) = (Ok tt, w')
       /\ (forall kg, In kg (messages (self w')) -> 2001 <= group_end (snd kg)).
Proof.
  assert (Hmono : nondecreasing (ticking 2000 1)) by (apply ticking_nondecreasing; lia).
  split; [exact Hmono|]. split; [exact example_cache_populated|].
  destruct (generate_events_spec (ticking 2000 1) Hmono example_cache 0
              example_cache_populated) as (w' & E & H & _).
  exists w'. split; [exact E | exact H].
Defined.

(** Without the assumption on the clock the tick does not establish the
    invariant: the handler compares the first expiry (1500) with the
    reading 2000, the sweep then reads 0, and the group that ended at
    1500 stays in the cache. *)
Lemma generate_events_backward_clock :
  exists w' kg,
    _generate_events backward_clock (mk_world 0 example_cache) = (Ok tt, w')
    /\ In kg (messages (self w'))
    /\ group_end (snd kg) < backward_clock 1.
Proof.
  eexists. exists (str "KRAH-1000.000", EventMessageGroup.mk [example_tornado] [str "037183"]).
  split; [vm_compute; reflexivity|]. split; [left; reflexivity | vm_compute; reflexivity].
Qed.

End CacheFacts.

(** ** [_truncate] *)

Lemma clamp_index_in (n i : Z) : 0 <= i <= n -> clamp_index n i = i.
Proof.
  intros H. unfold clamp_index. destruct (Z.ltb_spec i 0); lia.
Qed.

Lemma slice_firstn_skipn {A} (l : list A) (a b : Z) :
  0 <= a <= b -> b <= len l ->
  slice l a b = firstn (Z.to_nat (b - a)) (skipn (Z.to_nat a) l).
Proof.
  intros Ha Hb. unfold slice. rewrite !clamp_index_in by lia. reflexivity.
Qed.

Lemma slice_length {A} (l : list A) (a b : Z) :
  0 <= a <= b -> b <= len l -> List.length (slice l a b) = Z.to_nat (b - a).
Proof.
  intros Ha Hb. rewrite slice_firstn_skipn by assumption.
  rewrite length_firstn, length_skipn. unfold len in Hb. lia.
Qed.

Lemma mapM_ok {A B} (f : A -> res B) (g : A -> B) (l : list A) :
  (forall x, In x l -> f x = Ok (g x)) -> mapM f l = Ok (map g l).
Proof.
  induction l as [|x l IH]; intros H; [reflexivity|].
  cbn [mapM map]. rewrite (H x (or_introl eq_refl)). cbn [bind].
  rewrite IH by (intros; apply H; now right). reflexivity.
Qed.

Lemma py_int_valid (v : cval) : valid_confidence v -> py_int v = Ok (conf_value v).
Proof. intros [z H]. unfold conf_value. now rewrite H. Qed.

Lemma word_distance_loop_total (word : pystr) (confidence : list cval)
    (wildcard : option Z) (cs : pystr) (i : nat) (d : Z) :
  (i + List.length cs <= List.length word)%nat ->
  (i + List.length cs <= List.length confidence)%nat ->
  Forall valid_confidence confidence ->
  word_distance_loop word confidence wildcard cs (Z.of_nat i) d
  = Ok (d + distance_from word confidence wildcard cs i).
Proof.
  intros Hw Hc Hv. revert i d Hw Hc.
  induction cs as [|ci cs IH]; intros i d Hw Hc; cbn [word_distance_loop distance_from].
  - now rewrite Z.add_0_r.
  - cbn [List.length] in Hw, Hc.
    destruct (Z.gtb_spec (len word) (Z.of_nat i)) as [_|Hn]; [|unfold len in Hn; lia].
    rewrite (getitem_nat word i 0) by lia. cbn [bind].
    fold (is_wildcard wildcard ci).
    replace (Z.of_nat i + 1) with (Z.of_nat (S i)) by lia.
    destruct (negb (is_wildcard wildcard ci) && negb (nth i word 0 =? ci)).
    + rewrite (getitem_nat confidence i (CInt 0)) by lia. cbn [bind].
      rewrite py_int_valid
        by (rewrite Forall_forall in Hv; apply Hv, nth_In; lia).
      cbn [bind]. rewrite IH by lia. f_equal. lia.
    + rewrite IH by lia. f_equal.
Qed.

Lemma ZZ_ltb_lt (a b : Z * Z) : ZZ_ltb a b = true <-> ZZ_lt a b.
Proof.
  unfold ZZ_ltb, ZZ_lt. rewrite orb_true_iff, andb_true_iff, !Z.ltb_lt, Z.eqb_eq.
  reflexivity.
Qed.

Lemma py_min_pair_least (c : Z * Z) (cs : list (Z * Z)) :
  exists m, py_min_pair (c :: cs) = Ok m
            /\ In m (c :: cs)
            /\ forall y, In y (c :: cs) -> ~ ZZ_lt y m.
Proof.
  unfold py_min_pair.
  assert (G : forall cs m0, exists m,
             fold_left (fun m y => if ZZ_ltb y m then y else m) cs m0 = m
             /\ (m = m0 \/ In m cs)
             /\ ~ ZZ_lt m0 m
             /\ forall y, In y cs -> ~ ZZ_lt y m).
  { clear. induction cs as [|y cs IH]; intros m0.
    - exists m0. cbn. repeat split; auto; unfold ZZ_lt; lia.
    - cbn [fold_left].
      destruct (IH (if ZZ_ltb y m0 then y else m0)) as (m & E & Hin & Hm0 & Hall).
      exists m. split; [exact E|].
      destruct (ZZ_ltb y m0) eqn:Ey.
      + apply ZZ_ltb_lt in Ey. split; [|split].
        * destruct Hin as [->|Hin]; right; [now left | now right].
        * unfold ZZ_lt in *. lia.
        * intros y' [<-|Hy']; [exact Hm0 | now apply Hall].
      + assert (Hy : ~ ZZ_lt y m0) by (rewrite <- ZZ_ltb_lt, Ey; discriminate).
        split; [|split].
        * destruct Hin as [->|Hin]; [now left | right; now right].
        * exact Hm0.
        * intros y' [<-|Hy']; [|now apply Hall].
          unfold ZZ_lt in *. lia. }
  destruct (G cs c) as (m & E & Hin & Hc & Hall).
  exists m. split; [now rewrite E|]. split.
  - destruct Hin as [->|Hin]; [now left | now right].
  - intros y [<-|Hy]; [exact Hc | now apply Hall].
Qed.

(** The loop of [_truncate] that writes the frame, from position
    [length mpre] on. *)
Lemma lay_frame_loop (ec : Z) (fsuf msuf : pystr) (isuf : list Z)
    (fpre mpre : pystr) (ipre : list Z) :
  List.length fpre = List.length mpre -> List.length ipre = List.length mpre ->
  List.length fsuf = List.length msuf -> List.length isuf = List.length msuf ->
  foldM (fun '(avgmsg, ints) i =>
           fi <- getitem (fpre ++ fsuf) i ;;
           if is_frame_char fi then
             ai <- getitem avgmsg i ;;
             if negb (ai =? fi) then
               avgmsg' <- setitem avgmsg i fi ;;
               ints' <- setitem ints i ec ;;
               Ok (avgmsg', ints')
             else
               ci <- getitem ints i ;;
               ints' <- setitem ints i (Z.max ec ci) ;;
               Ok (avgmsg, ints')
           else Ok (avgmsg, ints))
        (map Z.of_nat (seq (List.length mpre) (List.length msuf)))
        (mpre ++ msuf, ipre ++ isuf)
  = Ok (mpre ++ lay_frame fsuf msuf, ipre ++ lay_confidence ec fsuf msuf isuf).
Proof.
  revert msuf isuf fpre mpre ipre.
  induction fsuf as [|f fsuf IH]; intros [|a msuf] [|c isuf] fpre mpre ipre Hf Hi Hfs His;
    try discriminate; [reflexivity|].
  cbn [List.length] in Hfs, His.
  assert (Nth : forall {A} (pre suf : list A) (x d : A) n,
             n = List.length pre -> nth n (pre ++ x :: suf) d = x).
  { intros A pre suf x d n ->. rewrite app_nth2 by lia. now rewrite Nat.sub_diag. }
  assert (Set_ : forall {A} (pre suf : list A) (x v : A) n,
             n = List.length pre -> set_nth (pre ++ x :: suf) n v = pre ++ v :: suf).
  { intros A pre suf x v n ->. clear. induction pre as [|p pre IHp]; cbn; [reflexivity|].
    now rewrite IHp. }
  cbn [List.length seq map foldM lay_frame lay_confidence].
  rewrite (getitem_nat _ _ 0) by (rewrite length_app; cbn [List.length]; lia).
  rewrite (Nth _ fpre fsuf f 0 _ (eq_sym Hf)). cbn [bind].
  assert (Step : forall x y,
             foldM (fun '(avgmsg, ints) i =>
                      fi <- getitem (fpre ++ f :: fsuf) i ;;
                      if is_frame_char fi then
                        ai <- getitem avgmsg i ;;
                        if negb (ai =? fi) then
                          avgmsg' <- setitem avgmsg i fi ;;
                          ints' <- setitem ints i ec ;;
                          Ok (avgmsg', ints')
                        else
                          ci <- getitem ints i ;;
                          ints' <- setitem ints i (Z.max ec ci) ;;
                          Ok (avgmsg, ints')
                      else Ok (avgmsg, ints))
                   (map Z.of_nat (seq (S (List.length mpre)) (List.length msuf)))
                   (mpre ++ x :: msuf, ipre ++ y :: isuf)
             = Ok (mpre ++ x :: lay_frame fsuf msuf,
                   ipre ++ y :: lay_confidence ec fsuf msuf isuf)).
  { intros x y.
    specialize (IH msuf isuf (fpre ++ [f]) (mpre ++ [x]) (ipre ++ [y])).
    rewrite !length_app, <- !app_assoc in IH. cbn [List.length app] in IH.
    rewrite !Nat.add_1_r in IH. apply IH; lia. }
  destruct (is_frame_char f).
  - rewrite (getitem_nat _ _ 0) by (rewrite length_app; cbn [List.length]; lia).
    rewrite (Nth _ mpre msuf a 0 _ eq_refl). cbn [bind].
    destruct (Z.eqb_spec a f) as [->|Hne]; cbn [negb].
    + rewrite (getitem_nat _ _ 0) by (rewrite length_app; cbn [List.length]; lia).
      rewrite (Nth _ ipre isuf c 0 _ (eq_sym Hi)). cbn [bind].
      rewrite !setitem_nat by (rewrite length_app; cbn [List.length]; lia).
      cbn [bind]. rewrite (Set_ _ ipre isuf c _ _ (eq_sym Hi)). apply Step.
    + rewrite !setitem_nat by (rewrite length_app; cbn [List.length]; lia).
      cbn [bind]. rewrite (Set_ _ mpre msuf a f _ eq_refl), (Set_ _ ipre isuf c ec _ (eq_sym Hi)).
      apply Step.
  - apply Step.
Qed.

Lemma in_range7 (n L : Z) :
  In L (range7 38 (n + 1)) <-> exists k : nat, L = 38 + 7 * Z.of_nat k /\ L <= n.
Proof.
  unfold range7. rewrite in_map_iff. split.
  - intros (k & <- & Hk). apply in_seq in Hk. exists k. split; [reflexivity|].
    pose proof (Z.mul_div_le (n + 1 - 38 + 6) 7 ltac:(lia)). lia.
  - intros (k & -> & Hk). exists k. split; [reflexivity|]. apply in_seq.
    assert (Z.of_nat k + 1 <= (n + 1 - 38 + 6) / 7) by (apply Z.div_le_lower_bound; lia).
    lia.
Qed.

Lemma length_concat_repeat {A} (s : list A) (n : nat) :
  List.length (List.concat (repeat s n)) = (n * List.length s)%nat.
Proof. induction n as [|n IH]; cbn; [reflexivity|]. rewrite length_app, IH. reflexivity. Qed.

Lemma length_frame_of (k : nat) :
  len (frame_of (Z.of_nat k + 1)) = 38 + 7 * Z.of_nat k.
Proof.
  unfold frame_of, len. rewrite !length_app.
  rewrite (length_concat_repeat (A:=Z) (str "-______")).
  replace (Z.to_nat (Z.of_nat k + 1)) with (S k) by lia.
  change (List.length (str "-___-___")) with 8%nat.
  change (List.length (str "-______")) with 7%nat.
  change (List.length _END_SEQUENCE) with 23%nat. lia.
Qed.

Lemma fips_count_of (k : nat) :
  Qtrunc (inject_Z (38 + 7 * Z.of_nat k - 23 - 8) / 7)%Q = Z.of_nat k + 1.
Proof.
  unfold Qtrunc, Qdiv, Qmult, Qinv, inject_Z. cbn [Qnum Qden].
  change (Z.pos (1 * 7)) with 7.
  replace ((38 + 7 * Z.of_nat k - 23 - 8) * 1) with ((Z.of_nat k + 1) * 7) by lia.
  apply Z.quot_mul. lia.
Qed.

Lemma lay_frame_length (frame msg : pystr) :
  List.length (lay_frame frame msg) = List.length msg.
Proof.
  revert msg. induction frame as [|f frame IH]; intros [|a msg]; cbn; auto.
Qed.

Lemma lay_confidence_length (ec : Z) (frame msg : pystr) (ints : list Z) :
  List.length ints = List.length msg ->
  List.length (lay_confidence ec frame msg ints) = List.length ints.
Proof.
  revert msg ints. induction frame as [|f frame IH]; intros [|a msg] [|c ints] H;
    cbn [lay_confidence List.length] in *; try reflexivity; try discriminate H.
  rewrite IH by lia. reflexivity.
Qed.

Lemma in_slice {A} (l : list A) (a b : Z) (x : A) : In x (slice l a b) -> In x l.
Proof.
  unfold slice. set (n := Z.to_nat (clamp_index (len l) a)).
  set (k := Z.to_nat _). intros H.
  rewrite <- (firstn_skipn n l). apply in_or_app. right.
  rewrite <- (firstn_skipn k (skipn n l)). apply in_or_app. now left.
Qed.

(** C4. A message shorter than 38 is returned unchanged.  For a message
    of length at least 38 with a confidence for each byte, [_truncate]
    returns the prefix of length [L], where [L] is one of 38, 45, 52, ...
    up to the length and has the least wildcard distance of
    [avgmsg[L-23:L]] to the terminal skeleton; over the prefix are written
    the fixed characters of the frame ["-___-___"], one ["-______"] for
    each of the [(L - 23 - 8) / 7] location codes, and the skeleton. *)
Theorem truncate_spec (avgmsg : pystr) (confidences : list cval) :
  (len avgmsg < 38 -> _truncate avgmsg confidences = Ok (avgmsg, confidences))
  /\ (38 <= len avgmsg ->
      List.length confidences = List.length avgmsg ->
      Forall valid_confidence confidences ->
      exists L confidences',
        _truncate avgmsg confidences
        = Ok (lay_frame (frame_of ((L - 23 - 8) / 7)) (slice avgmsg 0 L), confidences')
        /\ (exists k : nat, L = 38 + 7 * Z.of_nat k /\ L <= len avgmsg)
        /\ (forall L', (exists k : nat, L' = 38 + 7 * Z.of_nat k /\ L' <= len avgmsg) ->
              skeleton_distance avgmsg confidences L
              <= skeleton_distance avgmsg confidences L')
        /\ len (lay_frame (frame_of ((L - 23 - 8) / 7)) (slice avgmsg 0 L)) = L
        /\ len confidences' = L).
Proof.
  split.
  - intros H. unfold _truncate. destruct (Z.ltb_spec (len avgmsg) 38); [reflexivity | lia].
  - intros Hlen Hc Hv. unfold _truncate.
    destruct (Z.ltb_spec (len avgmsg) 38) as [|_]; [lia|].
    assert (Hcl : len confidences = len avgmsg) by (unfold len; now rewrite Hc).
    rewrite (mapM_ok _ (fun l => (skeleton_distance avgmsg confidences l, l))).
    2:{ intros l Hl. apply in_range7 in Hl. destruct Hl as (k & -> & Hk).
        unfold _word_distance, skeleton_distance.
        rewrite (word_distance_loop_total _ _ _ _ 0 0).
        - reflexivity.
        - rewrite slice_length by lia. change (List.length _END_SEQUENCE) with 23%nat. lia.
        - change (List.length _END_SEQUENCE) with 23%nat. unfold len in Hcl, Hlen. lia.
        - exact Hv. }
    cbn [bind].
    destruct (map (fun l => (skeleton_distance avgmsg confidences l, l))
                  (range7 38 (len avgmsg + 1))) as [|c cs] eqn:Ecs.
    { apply map_eq_nil in Ecs.
      assert (Hin : In 38 (range7 38 (len avgmsg + 1)))
        by (apply in_range7; exists 0%nat; lia).
      rewrite Ecs in Hin. destruct Hin. }
    destruct (py_min_pair_least c cs) as (m & Em & Hin & Hleast).
    rewrite Em. cbn [bind]. rewrite <- Ecs in Hin, Hleast. clear Ecs Em c cs.
    apply in_map_iff in Hin. destruct Hin as (L & <- & HL).
    cbn [snd fst].
    pose proof HL as HL'. apply in_range7 in HL'. destruct HL' as (k & EL & HLn).
    set (ints := map conf_value (slice confidences 0 L)).
    rewrite (mapM_ok _ conf_value).
    2:{ intros v Hin. apply py_int_valid. rewrite Forall_forall in Hv.
        apply Hv. eapply in_slice, Hin. }
    cbn [bind]. fold ints.
    assert (Hml : List.length (slice avgmsg 0 L) = Z.to_nat L)
      by (rewrite slice_length by lia; f_equal; lia).
    assert (Hil : List.length ints = Z.to_nat L).
    { unfold ints. rewrite length_map, slice_length by lia. f_equal; lia. }
    assert (Hfc : Qtrunc (inject_Z (len (slice avgmsg 0 L) - len _END_SEQUENCE - 8) / 7)%Q
                  = (L - 23 - 8) / 7).
    { unfold len at 1. rewrite Hml, Z2Nat.id by lia.
      change (len _END_SEQUENCE) with 23. rewrite EL, fips_count_of.
      replace (38 + 7 * Z.of_nat k - 23 - 8) with ((Z.of_nat k + 1) * 7) by lia.
      now rewrite Z.div_mul by lia. }
    rewrite Hfc.
    assert (Hk1 : (L - 23 - 8) / 7 = Z.of_nat k + 1).
    { rewrite EL. replace (38 + 7 * Z.of_nat k - 23 - 8) with ((Z.of_nat k + 1) * 7) by lia.
      now rewrite Z.div_mul by lia. }
    assert (Hfl : len (frame_of ((L - 23 - 8) / 7)) = len (slice avgmsg 0 L)).
    { rewrite Hk1, length_frame_of. unfold len. rewrite Hml. lia. }
    rewrite Hfl, Z.eqb_refl. cbn [negb].
    set (ec := Qtrunc _).
    pose proof (lay_frame_loop ec (frame_of ((L - 23 - 8) / 7)) (slice avgmsg 0 L) ints
                  [] [] [] eq_refl eq_refl) as Hloop.
    cbn [app List.length] in Hloop.
    rewrite <- range_0 in Hloop. fold (len (slice avgmsg 0 L)) in Hloop.
    rewrite Hloop by (unfold len in Hfl; lia).
    cbn [bind].
    exists L. eexists. split; [reflexivity|].
    split; [exists k; auto|]. split; [|split].
    + intros L' HL2. apply in_range7 in HL2.
      specialize (Hleast _ (in_map _ _ _ HL2)). unfold ZZ_lt in Hleast. cbn [fst snd] in Hleast.
      lia.
    + unfold len. rewrite lay_frame_length, Hml. lia.
    + unfold len. rewrite length_map, lay_confidence_length by lia. lia.
Qed.

Lemma truncate_spec_witness :
  38 <= len clean_header
  /\ List.length (repeat (CInt 9) 52) = List.length clean_header
  /\ Forall valid_confidence (repeat (CInt 9) 52)
  /\ exists L confidences',
       _truncate clean_header (repeat (CInt 9) 52)
       = Ok (lay_frame (frame_of ((L - 23 - 8) / 7)) (slice clean_header 0 L), confidences').
Proof.
  assert (Hv : Forall valid_confidence (repeat (CInt 9) 52)).
  { apply Forall_forall. intros x Hx. apply repeat_spec in Hx. subst x.
    exists 9. reflexivity. }
  split; [vm_compute; discriminate|]. split; [reflexivity|]. split; [exact Hv|].
  destruct (proj2 (truncate_spec clean_header (repeat (CInt 9) 52))
              ltac:(vm_compute; discriminate) eq_refl Hv) as (L & c' & E & _).
  exists L, c'. exact E.
Defined.

(** A header followed by seven bytes of noise is cut where the skeleton
    aligns. *)
Example truncate_trailing_noise :
  exists confidences',
    _truncate (clean_header ++ str "ABCDEFG") (repeat (CInt 3) 59)
    = Ok (clean_header, confidences').
Proof. eexists. vm_compute. reflexivity. Qed.

(** ** [_reconcile_word] *)

Lemma in_insert_sorted {A} (ltb : A -> A -> bool) (x y : A) (l : list A) :
  In y (insert_sorted ltb x l) -> y = x \/ In y l.
Proof.
  induction l as [|z l IH]; cbn [insert_sorted].
  - intros [<-|[]]. now left.
  - destruct (ltb z x).
    + intros [<-|H]; [right; now left|]. destruct (IH H); [now left | right; now right].
    + intros [<-|H]; [now left | now right].
Qed.

Lemma in_sorted {A} (ltb : A -> A -> bool) (y : A) (l : list A) :
  In y (sorted ltb l) -> In y l.
Proof.
  unfold sorted. induction l as [|x l IH]; cbn [fold_right]; [auto|].
  intros H. destruct (in_insert_sorted _ _ _ _ H) as [->|H']; [now left | right; auto].
Qed.

Lemma getitem_in {A} (l : list A) (i : Z) (x : A) : getitem l i = Ok x -> In x l.
Proof.
  unfold getitem. destruct (_ <? 0); [discriminate|].
  destruct (nth_error l _) eqn:E; [|discriminate].
  intros [= <-]. eapply nth_error_In, E.
Qed.

Lemma mapM_in {A B} (f : A -> res B) (l : list A) (r : list B) (y : B) :
  mapM f l = Ok r -> In y r -> exists x, In x l /\ f x = Ok y.
Proof.
  revert r. induction l as [|x l IH]; intros r; cbn [mapM].
  - intros [= <-] [].
  - destruct (f x) as [b|] eqn:Ef; [|discriminate]. cbn [bind].
    destruct (mapM f l) as [bs|]; [|discriminate]. cbn [bind].
    intros [= <-] [<-|Hin].
    + exists x. split; [now left | exact Ef].
    + destruct (IH bs eq_refl Hin) as (x' & Hx & E). exists x'. split; [now right | exact E].
Qed.

Lemma getitem_beyond {A} (l : list A) (i : Z) : len l <= i -> getitem l i = Raise IndexError.
Proof.
  intros H. unfold getitem. unfold len in *.
  destruct (Z.ltb_spec i 0); [lia|]. destruct (Z.ltb_spec i 0); [lia|].
  destruct (nth_error l (Z.to_nat i)) eqn:E; [|reflexivity].
  assert (Z.to_nat i < List.length l)%nat by (apply nth_error_Some; congruence). lia.
Qed.

Lemma foldM_last_raises {A S} (f : S -> A -> res S) (x : A) (l : list A) (s : S) :
  (forall s', exists e, f s' x = Raise e) -> exists e, foldM f (l ++ [x]) s = Raise e.
Proof.
  intros H. revert s. induction l as [|a l IH]; intros s; cbn [app foldM].
  - destruct (H s) as (e & ->). now exists e.
  - destruct (f s a) as [s'|e]; cbn [bind]; [apply IH | now exists e].
Qed.

Lemma range_snoc (a b : Z) : a < b -> range a b = range a (b - 1) ++ [b - 1].
Proof.
  intros H. unfold range.
  replace (Z.to_nat (b - a)) with (Z.to_nat (b - 1 - a) + 1)%nat by lia.
  rewrite seq_app, map_app. cbn [seq map]. do 2 f_equal. lia.
Qed.

(** With a start index of 1 or more and candidates of one length,
    [_reconcile_word] never returns a match: it raises, or it returns
    [matched = False]. *)
Lemma reconcile_word_never_matches (word : pystr) (confidences : list cval)
    (start : Z) (cs : choices) (r : pystr * list cval * bool) :
  1 <= start -> equal_length cs ->
  _reconcile_word word confidences start cs = Ok r -> snd r = false.
Proof.
  intros Hstart Heq. unfold _reconcile_word.
  destruct (choices_len cs =? 0); [intros [= <-]; reflexivity|].
  destruct (len word <=? start); [intros [= <-]; reflexivity|].
  destruct (getitem confidences 0) as [c0|]; [|discriminate]. cbn [bind].
  destruct (match c0 with CInt _ => _ | CChr _ => _ end) as [confidences'|];
    [|discriminate]. cbn [bind].
  destruct (match cs with Weighted l => _ | Plain l => _ end) as [choices'|] eqn:Ech;
    [|discriminate]. cbn [bind].
  assert (Hsnd : map snd choices' = choice_strings cs).
  { destruct cs as [l|l]; cbn [choice_strings].
    - destruct (getitem l 0); [|discriminate]. cbn [bind] in Ech.
      destruct (getitem a 0); [|discriminate]. cbn [bind] in Ech.
      injection Ech as <-. rewrite map_map. cbn [snd]. apply map_id.
    - now injection Ech as <-. }
  destruct (getitem choices' 0) as [ch0|] eqn:E0; [|discriminate]. cbn [bind].
  destruct (mapM _ choices') as [candidates|] eqn:Ec; [|discriminate]. cbn [bind].
  destruct (getitem (sorted Qstr_ltb candidates) 0) as [cand0|] eqn:Ecand;
    [|discriminate]. cbn [bind].
  destruct (mapM as_int confidences') as [ints|]; [|discriminate]. cbn [bind].
  destruct (if Qltb _ _ then _ else _) as [[|]|]; [| |discriminate]; cbn [bind].
  2:{ intros [= <-]. reflexivity. }
  destruct (py_max _) as [top|]; [|discriminate]. cbn [bind].
  destruct (Z.eqb_spec (start + len (snd ch0) - start) 0) as [|Hne]; [discriminate|].
  assert (Hlen : len (snd cand0) = len (snd ch0)).
  { apply getitem_in, in_sorted in Ecand.
    destruct (mapM_in _ _ _ _ Ec Ecand) as ([w c] & Hin & Ef).
    destruct (_word_distance _ _ c None); [|discriminate]. cbn [bind] in Ef.
    destruct (Qeq_bool w 0); [discriminate|]. injection Ef as <-. cbn [snd].
    unfold len. f_equal. apply Heq; rewrite <- Hsnd.
    - now apply (in_map snd _ (w, c)).
    - apply (in_map snd), (getitem_in _ _ _ E0). }
  rewrite range_snoc by (unfold len in *; lia).
  match goal with
  | |- context [foldM ?f (?l ++ [?x]) ?s] =>
      destruct (foldM_last_raises f x l s) as (e & ->)
  end.
  - intros s'. rewrite getitem_beyond by lia. cbn [bind]. now exists IndexError.
  - discriminate.
Qed.

(** C3. [_reconcile_word] on the word [-WXR] with confidences 9, start 1
    and the originator codes: the best candidate [WXR] is accepted, and
    the call raises [IndexError] in the loop that rewrites the
    confidences.  On [-QQQ] nothing is accepted and the call returns the
    three characters [QQQ] from the start index on, not the word it was
    given.  With start 0 and a word of the candidates' length the call
    returns the candidate. *)
Theorem reconcile_word_at_start_1 :
  _reconcile_word (str "-WXR") (repeat (CInt 9) 4) 1 (Plain _ORIGINATOR_CODES)
  = Raise IndexError
  /\ _reconcile_word (str "-QQQ") (repeat (CInt 9) 4) 1 (Plain _ORIGINATOR_CODES)
     = Ok (str "QQQ", repeat (CInt 9) 4, false)
  /\ _reconcile_word (str "WXR") (repeat (CInt 9) 3) 0 (Plain _ORIGINATOR_CODES)
     = Ok (str "WXR", repeat (CInt 1) 3, true).
Proof. repeat split; vm_compute; reflexivity. Qed.

(** ** [average_message] *)

(** [check_if_valid_code] compares three codes whatever their number:
    valid codes from fewer than three copies raise [IndexError]. *)
Lemma check_if_valid_code_short (codes : list pystr) (valid_list : list vcode) :
  issuperset valid_list codes = true ->
  (List.length codes < 3)%nat ->
  (forall a b, In a codes -> In b codes -> a = b) ->
  check_if_valid_code codes valid_list = Raise IndexError.
Proof.
  intros Hv Hn Hsame. unfold check_if_valid_code. rewrite Hv.
  destruct codes as [|a [|b [|c codes]]]; cbn [List.length] in Hn; try lia;
    try reflexivity.
  change (getitem [a; b] 0) with (Ok a). change (getitem [a; b] 1) with (Ok b).
  cbn [bind]. rewrite (Hsame a b) by (cbn; auto).
  assert (E : forall x, pystr_eqb x x = true)
    by (induction x as [|z x IH]; cbn; [reflexivity | now rewrite Z.eqb_refl]).
  rewrite E. reflexivity.
Qed.

(** C1. [average_message] on copies of the clean header with every
    confidence 9, for the transmitter KCLE whose reference data holds the
    three counties: one copy, two copies and three copies each raise
    [IndexError]; copies held in tuples raise [TypeError]; three copies
    of a header whose purge time is not a listed duration return a string
    that is not the header. *)
Theorem average_message_clean_copies :
  let kcle := Some (str "KCLE") in
  average_message kcle_data Utc.time [clean_copy true] kcle = Raise IndexError
  /\ average_message kcle_data Utc.time [clean_copy true; clean_copy true] kcle
     = Raise IndexError
  /\ average_message kcle_data Utc.time
       [clean_copy true; clean_copy true; clean_copy true] kcle
     = Raise IndexError
  /\ average_message kcle_data Utc.time
       [clean_copy false; clean_copy false; clean_copy false] kcle
     = Raise TypeError
  /\ exists confidences,
       average_message kcle_data Utc.time [other_copy; other_copy; other_copy] kcle
       = Ok (str "-WXR-TORMP-MP-MQ-KP-MQ-KC-", confidences).
Proof.
  cbv zeta. repeat split; try (vm_compute; reflexivity).
  eexists. vm_compute. reflexivity.
Qed.

(** ** The UTC calendar of the examples *)

Example utc_strftime : Utc.strftime 1465324140 = str "1591829".
Proof. reflexivity. Qed.

Example utc_strptime : Utc.strptime (str "20161591829UTC") = Ok 1465324140.
Proof. reflexivity. Qed.

Example utc_new_year :
  Utc.tm_year 1483228799 = 2016 /\ Utc.tm_yday 1483228799 = 366
  /\ Utc.tm_year 1483228800 = 2017 /\ Utc.tm_yday 1483228800 = 1.
Proof. repeat split. Qed.

(** * Further properties of the code *)

(** ** Sequences, strings and loops *)

Lemma pystr_eqb_eq (a b : pystr) : pystr_eqb a b = true <-> a = b.
Proof.
  revert b. induction a as [|x a IH]; intros [|y b]; cbn [pystr_eqb];
    try (split; [discriminate | congruence]); [tauto|].
  rewrite andb_true_iff, Z.eqb_eq, IH.
  split; [intros [-> ->]; reflexivity | intros [= -> ->]; auto].
Qed.

Lemma getitem_Z {A} (l : list A) (i : Z) (d : A) :
  0 <= i < len l -> getitem l i = Ok (nth (Z.to_nat i) l d).
Proof.
  intros H. rewrite <- (Z2Nat.id i) at 1 by lia. apply getitem_nat. unfold len in H. lia.
Qed.

Lemma nth_set_nth {A} (l : list A) (i k : nat) (v d : A) :
  (i < List.length l)%nat ->
  nth k (set_nth l i v) d = if Nat.eqb k i then v else nth k l d.
Proof.
  revert i k. induction l as [|x l IH]; intros i k Hi; [cbn in Hi; lia|].
  destruct i as [|i], k as [|k]; cbn [set_nth nth Nat.eqb]; try reflexivity.
  apply IH. cbn [List.length] in Hi. lia.
Qed.

Lemma set_nth_twice {A} (l : list A) (i : nat) (u v : A) :
  set_nth (set_nth l i u) i v = set_nth l i v.
Proof.
  revert i. induction l as [|x l IH]; intros [|i]; cbn [set_nth]; try reflexivity.
  now rewrite IH.
Qed.

Lemma in_skipn {A} (x : A) (k : nat) (l : list A) : In x (skipn k l) -> In x l.
Proof. intros H. rewrite <- (firstn_skipn k l). apply in_or_app. now right. Qed.

Lemma insert_sorted_in {A} (ltb : A -> A -> bool) (x y : A) (l : list A) :
  y = x \/ In y l -> In y (insert_sorted ltb x l).
Proof.
  induction l as [|z l IH]; cbn [insert_sorted].
  - intros [->|[]]. now left.
  - destruct (ltb z x).
    + intros [->|[->|H]]; [right; apply IH; now left | now left | right; apply IH; now right].
    + intros [->|H]; [now left | now right].
Qed.

Lemma sorted_in {A} (ltb : A -> A -> bool) (y : A) (l : list A) :
  In y l -> In y (sorted ltb l).
Proof.
  unfold sorted. induction l as [|x l IH]; cbn [fold_right]; [auto|].
  intros [->|H]; apply insert_sorted_in; [now left | right; auto].
Qed.

Lemma length_insert_sorted {A} (ltb : A -> A -> bool) (x : A) (l : list A) :
  List.length (insert_sorted ltb x l) = S (List.length l).
Proof.
  induction l as [|z l IH]; cbn [insert_sorted]; [reflexivity|].
  destruct (ltb z x); cbn [List.length]; [now rewrite IH | reflexivity].
Qed.

Lemma length_sorted {A} (ltb : A -> A -> bool) (l : list A) :
  List.length (sorted ltb l) = List.length l.
Proof.
  unfold sorted. induction l as [|x l IH]; cbn [fold_right]; [reflexivity|].
  now rewrite length_insert_sorted, IH.
Qed.

(** A loop that returns has kept what every round keeps. *)
Lemma foldM_invariant {A S} (I : nat -> S -> Prop) (f : S -> A -> res S)
    (l : list A) (s s' : S) (n : nat) :
  (forall k s a s', I k s -> f s a = Ok s' -> I (Datatypes.S k) s') ->
  I n s -> foldM f l s = Ok s' -> I (n + List.length l)%nat s'.
Proof.
  intros Hstep. revert s n. induction l as [|a l IH]; intros s n Hs; cbn [foldM List.length].
  - intros [= <-]. now rewrite Nat.add_0_r.
  - destruct (f s a) as [s1|] eqn:E; [|discriminate]. cbn [bind]. intros H.
    rewrite Nat.add_succ_r. apply (IH s1 (Datatypes.S n)); [|exact H].
    eapply Hstep; eassumption.
Qed.

(** A loop over [g a], ..., [g (a + n - 1)] whose rounds all return,
    returns. *)
Lemma foldM_seq_total {S} (I : nat -> S -> Prop) (f : S -> Z -> res S) (g : nat -> Z)
    (n a : nat) (s : S) :
  I a s ->
  (forall k s, (a <= k < a + n)%nat -> I k s ->
               exists s', f s (g k) = Ok s' /\ I (Datatypes.S k) s') ->
  exists s', foldM f (map g (seq a n)) s = Ok s' /\ I (a + n)%nat s'.
Proof.
  revert a s. induction n as [|n IH]; intros a s Hs Hstep; cbn [seq map foldM].
  - exists s. rewrite Nat.add_0_r. now split.
  - destruct (Hstep a s ltac:(lia) Hs) as (s1 & -> & H1). cbn [bind].
    destruct (IH (Datatypes.S a) s1 H1) as (s' & E & H').
    + intros k s0 Hk. apply Hstep. lia.
    + exists s'. split; [exact E|]. now rewrite Nat.add_succ_r.
Qed.

Ltac bind_inv H :=
  repeat match type of H with
         | bind ?m _ = Ok _ =>
             let E := fresh "E" in
             destruct m eqn:E; [cbn [bind] in H | discriminate H]
         | (let '(_, _) := ?x in _) = Ok _ => destruct x
         end.

(** ** [ConfidentCharacter]: construction and agreeing copies *)

Module ConfidentCharacterMerge.
Import ConfidentCharacter ConfidentCharacterFacts.

Lemma bytes_roundtrip_checked : forallb byte_roundtrip_check (range 0 256) = true.
Proof. vm_compute. reflexivity. Qed.

Lemma byte_of_bits_of_byte (c : Z) :
  0 <= c < 256 -> byte_of_bits (map (fun k => bit_set c (Z.of_nat k)) (seq 0 8)) = c.
Proof.
  intros H. pose proof bytes_roundtrip_checked as E.
  rewrite forallb_forall in E. apply Z.eqb_eq. apply E.
  apply (in_range_0 256 c). lia.
Qed.

(** X1. The two ways of constructing a [ConfidentCharacter] agree: a
    byte-wide confidence [conf] gives the object that the bitwise
    confidence of eight times [conf] gives.  A bitwise confidence whose
    length is not 8 raises [ValueError], as does giving both arguments;
    giving neither raises [TypeError] (from [len(None)]). *)
Theorem init_scalar_bitwise (c conf : Z) (bw : list Z) :
  __init__ c (Some conf) None = __init__ c None (Some (repeat conf 8))
  /\ (List.length bw <> 8%nat -> __init__ c None (Some bw) = Raise ValueError)
  /\ __init__ c (Some conf) (Some bw) = Raise ValueError
  /\ __init__ c None None = Raise TypeError.
Proof.
  repeat split.
  - unfold __init__.
    assert (E : (len (repeat conf 8) =? 8) = true) by reflexivity.
    rewrite E. cbn [negb]. do 2 f_equal.
    unfold sum. cbn [repeat fold_left]. rewrite Z.shiftr_div_pow2 by lia.
    change (2 ^ 3) with 8. apply Z.div_unique_exact; lia.
  - intros H. unfold __init__. destruct (Z.eqb_spec (len bw) 8) as [E|E]; [|reflexivity].
    unfold len in E. lia.
Qed.

Lemma init_scalar_bitwise_witness :
  List.length [1; 2; 3] <> 8%nat /\ __init__ 87 None (Some [1; 2; 3]) = Raise ValueError.
Proof.
  split; [discriminate|].
  destruct (init_scalar_bitwise 87 3 [1; 2; 3]) as (_ & H & _). apply H. discriminate.
Defined.

(** X2. Copies that agree reinforce each other: when two characters hold
    the same byte and all their bitwise confidences are positive, their
    sum holds that byte, and its bitwise confidences are the sums of
    theirs. *)
Theorem add_agreeing (a b : t) :
  wf a -> wf b -> 0 <= char a < 256 -> char b = char a ->
  Forall (fun x => 0 < x) (bitwise_confidence a) ->
  Forall (fun x => 0 < x) (bitwise_confidence b) ->
  let bw := map_add (bitwise_confidence a) (bitwise_confidence b) in
  __add__ a b = Ok (mk (char a) bw (Z.shiftr (sum bw) 3)).
Proof.
  intros Ha Hb Hc Hcb Pa Pb bw. rewrite (add_closed_form a b Ha Hb).
  assert (Hd : forall k, (k < 8)%nat ->
             how_true a b k = if bit_set (char a) (Z.of_nat k)
                              then nth k bw 0 else - nth k bw 0).
  { intros k Hk. unfold how_true, true_weight, false_weight, bw. rewrite Hcb.
    destruct (list8 _ Ha) as (a0 & a1 & a2 & a3 & a4 & a5 & a6 & a7 & ->).
    destruct (list8 _ Hb) as (b0 & b1 & b2 & b3 & b4 & b5 & b6 & b7 & ->).
    destruct (bit_set (char a) (Z.of_nat k));
      do 8 (destruct k as [|k]; [cbn [nth map_add]; lia|]); lia. }
  assert (Hpos : forall k, (k < 8)%nat -> 0 < nth k bw 0).
  { intros k Hk. unfold bw.
    destruct (list8 _ Ha) as (a0 & a1 & a2 & a3 & a4 & a5 & a6 & a7 & Ea).
    destruct (list8 _ Hb) as (b0 & b1 & b2 & b3 & b4 & b5 & b6 & b7 & Eb).
    rewrite Ea in Pa |- *. rewrite Eb in Pb |- *.
    repeat match goal with H : Forall _ (_ :: _) |- _ => inversion H; clear H; subst end.
    do 8 (destruct k as [|k]; [cbn [nth map_add]; lia|]). lia. }
  assert (Hbits : map (fun d => d >? 0) (how_trues a b)
                  = map (fun k => bit_set (char a) (Z.of_nat k)) (seq 0 8)).
  { unfold how_trues. rewrite map_map. apply map_ext_in. intros k Hk.
    apply in_seq in Hk. rewrite Hd by lia. specialize (Hpos k ltac:(lia)).
    destruct (bit_set (char a) (Z.of_nat k));
      [destruct (Z.gtb_spec (nth k bw 0) 0) | destruct (Z.gtb_spec (- nth k bw 0) 0)];
      reflexivity || lia. }
  assert (Habs : map Z.abs (how_trues a b) = bw).
  { assert (Hl : List.length bw = 8%nat).
    { unfold bw.
      destruct (list8 _ Ha) as (a0 & a1 & a2 & a3 & a4 & a5 & a6 & a7 & ->).
      destruct (list8 _ Hb) as (b0 & b1 & b2 & b3 & b4 & b5 & b6 & b7 & ->). reflexivity. }
    apply (nth_ext _ _ 0 0).
    - rewrite length_map, length_how_trues. now rewrite Hl.
    - intros k Hk. rewrite length_map, length_how_trues in Hk.
      rewrite nth_map_abs, nth_how_trues, Hd by assumption.
      specialize (Hpos k Hk). destruct (bit_set _ _); lia. }
  unfold merged. rewrite Hbits, Habs, byte_of_bits_of_byte by assumption. reflexivity.
Qed.

Lemma add_agreeing_witness :
  __add__ example_W (mk 87 [1; 2; 1; 2; 1; 2; 1; 2] 1)
  = Ok (mk 87 [4; 5; 4; 5; 4; 5; 4; 5] 4).
Proof.
  apply (add_agreeing example_W (mk 87 [1; 2; 1; 2; 1; 2; 1; 2] 1)).
  - reflexivity.
  - reflexivity.
  - cbn. lia.
  - reflexivity.
  - cbn. repeat constructor.
  - cbn. repeat constructor.
Defined.

End ConfidentCharacterMerge.

(** ** [_word_distance] *)

Lemma word_distance_loop_agrees (word : pystr) (confidence : list cval)
    (wildcard : option Z) (cs : pystr) (i : nat) (d : Z) :
  (i + List.length cs <= List.length word)%nat ->
  agrees_from word wildcard cs i ->
  word_distance_loop word confidence wildcard cs (Z.of_nat i) d = Ok d.
Proof.
  revert i d. induction cs as [|ci cs IH]; intros i d Hw Ha; cbn [word_distance_loop].
  - reflexivity.
  - cbn [List.length] in Hw.
    destruct (Z.gtb_spec (len word) (Z.of_nat i)) as [_|Hn]; [|unfold len in Hn; lia].
    rewrite (getitem_nat word i 0) by lia. cbn [bind].
    fold (is_wildcard wildcard ci).
    replace (Z.of_nat i + 1) with (Z.of_nat (S i)) by lia.
    assert (Hnext : agrees_from word wildcard cs (S i)).
    { intros j Hj. specialize (Ha (S j) ltac:(cbn [List.length]; lia)).
      cbn [nth] in Ha. now rewrite Nat.add_succ_r in Ha. }
    destruct (Ha 0%nat ltac:(cbn [List.length]; lia)) as [H0|H0]; cbn [nth] in H0.
    + rewrite H0. cbn [negb andb]. apply IH; [lia | exact Hnext].
    + rewrite Nat.add_0_r in H0. rewrite H0, Z.eqb_refl, andb_false_r.
      apply IH; [lia | exact Hnext].
Qed.

Lemma distance_from_nonneg (word : pystr) (confidence : list cval)
    (wildcard : option Z) (cs : pystr) (i : nat) :
  Forall nonnegative_confidence confidence ->
  (i + List.length cs <= List.length confidence)%nat ->
  0 <= distance_from word confidence wildcard cs i
  /\ (distance_from word confidence wildcard cs i = 0 -> agrees_from word wildcard cs i).
Proof.
  intros Hv. revert i. induction cs as [|ci cs IH]; intros i Hc; cbn [distance_from].
  - split; [lia|]. intros _ j Hj. cbn in Hj. lia.
  - cbn [List.length] in Hc. destruct (IH (S i) ltac:(lia)) as [Hpos Hz].
    assert (Hci : 0 <= conf_value (nth i confidence (CInt 0))).
    { rewrite Forall_forall in Hv.
      destruct (Hv (nth i confidence (CInt 0)) ltac:(apply nth_In; lia)) as (z & E & Hz0).
      unfold conf_value. now rewrite E. }
    destruct (negb (is_wildcard wildcard ci)) eqn:Ew;
      destruct (negb (nth i word 0 =? ci)) eqn:Ee; cbn [andb]; (split; [lia|]);
      intros H0; try lia.
    all: intros j Hj; destruct j as [|j]; cbn [nth];
      [| rewrite Nat.add_succ_r; apply (Hz ltac:(lia) j); cbn [List.length] in Hj; lia ].
    + right. rewrite Nat.add_0_r. apply negb_false_iff, Z.eqb_eq in Ee. exact Ee.
    + left. now apply negb_false_iff in Ew.
    + left. now apply negb_false_iff in Ew.
Qed.

(** X3. [_word_distance] of a word at least as long as the candidate:
    when the word agrees with the candidate at every position that is
    not a wildcard, the distance is 0 and no confidence is read (the list
    of confidences may even be empty).  When the confidences are valid,
    non-negative and as many as the candidate is long, the call returns a
    distance that is 0 or more, and that is 0 only if the word agrees
    with the candidate. *)
Theorem word_distance_zero (word : pystr) (confidence : list cval) (choice : pystr)
    (wildcard : option Z) :
  (List.length choice <= List.length word)%nat ->
  (agrees_from word wildcard choice 0 -> _word_distance word confidence choice wildcard = Ok 0)
  /\ ((List.length choice <= List.length confidence)%nat ->
      Forall nonnegative_confidence confidence ->
      exists d, _word_distance word confidence choice wildcard = Ok d /\ 0 <= d
                /\ (d = 0 -> agrees_from word wildcard choice 0)).
Proof.
  intros Hw. split.
  - intros Ha. apply (word_distance_loop_agrees word confidence wildcard choice 0 0); [lia | exact Ha].
  - intros Hc Hv. unfold _word_distance.
    assert (Hvalid : Forall valid_confidence confidence).
    { eapply Forall_impl; [|exact Hv]. intros v (z & E & _). now exists z. }
    change 0 with (Z.of_nat 0) at 1.
    rewrite (word_distance_loop_total word confidence wildcard choice 0 0) by (assumption || lia).
    destruct (distance_from_nonneg word confidence wildcard choice 0 Hv ltac:(lia)) as [Hpos Hz].
    eexists. split; [reflexivity|]. split; [lia|]. intros H0. apply Hz. lia.
Qed.

Lemma word_distance_zero_witness :
  _word_distance (str "ABC") [] (str "A_C") (Some underscore) = Ok 0.
Proof.
  refine (proj1 (word_distance_zero (str "ABC") [] (str "A_C") (Some underscore) _) _).
  - cbn. lia.
  - intros j Hj. cbn in Hj.
    destruct j as [|[|[|j]]]; [right | left | right | lia]; reflexivity.
Defined.

Lemma word_distance_loop_short (word : pystr) (confidence : list cval)
    (wildcard : option Z) (cs : pystr) (i : nat) (d : Z) :
  (i <= List.length word < i + List.length cs)%nat ->
  word_distance_loop word confidence wildcard cs (Z.of_nat i) d
  = (d' <- word_distance_loop word confidence wildcard
             (firstn (List.length word - i) cs) (Z.of_nat i) d ;;
     Ok (d' + 9)).
Proof.
  revert i d. induction cs as [|ci cs IH]; intros i d H; cbn [List.length] in H; [lia|].
  destruct (Nat.eq_dec (List.length word) i) as [He|Hne].
  - replace (List.length word - i)%nat with 0%nat by lia.
    cbn [firstn word_distance_loop bind].
    destruct (Z.gtb_spec (len word) (Z.of_nat i)) as [Hlt|Hge]; unfold len in *; [lia|].
    f_equal. lia.
  - replace (List.length word - i)%nat with (S (List.length word - S i)) by lia.
    cbn [firstn word_distance_loop].
    destruct (Z.gtb_spec (len word) (Z.of_nat i)) as [Hlt|Hge]; unfold len in *; [|lia].
    destruct (getitem word (Z.of_nat i)) as [wi|e]; [|reflexivity]. cbn [bind].
    replace (Z.of_nat i + 1) with (Z.of_nat (S i)) by lia.
    destruct (negb _ && negb _).
    + destruct (getitem confidence (Z.of_nat i)) as [v|e]; [|reflexivity]. cbn [bind].
      destruct (py_int v) as [n|e]; [|reflexivity]. cbn [bind].
      apply IH. lia.
    + apply IH. lia.
Qed.

(** X4. A word shorter than the candidate costs 9 more than its distance
    to the candidate cut to the word's length, however many characters
    are missing: [(len(word) - i + 1) * 9] is evaluated where [i] is
    [len(word)]. *)
Theorem word_distance_short_word (word : pystr) (confidence : list cval) (choice : pystr)
    (wildcard : option Z) :
  (List.length word < List.length choice)%nat ->
  _word_distance word confidence choice wildcard
  = (d <- _word_distance word confidence (firstn (List.length word) choice) wildcard ;;
     Ok (d + 9)).
Proof.
  intros H. unfold _word_distance.
  change 0 with (Z.of_nat 0) at 1 3.
  rewrite (word_distance_loop_short word confidence wildcard choice 0 0) by lia.
  now rewrite Nat.sub_0_r.
Qed.

Lemma word_distance_short_word_witness :
  _word_distance (str "AB") [] (str "ABCDE") None = Ok 9.
Proof.
  rewrite (word_distance_short_word (str "AB") [] (str "ABCDE") None).
  - reflexivity.
  - cbn. lia.
Defined.

(** ** [_reconcile_character] *)

Lemma char_distance_round (bt bf : list Z) (t d : Z) (j : nat) :
  (j < List.length bt)%nat -> (j < List.length bf)%nat ->
  (b <- getitem bt (Z.of_nat j) ;;
   f <- getitem bf (Z.of_nat j) ;;
   let bit_weight := b - f in
   if negb (bit_of t (Z.of_nat j) =? Z.land (Z.b2z (bit_weight >? 0)) 1)
   then Ok (d + Z.abs bit_weight) else Ok d)
  = Ok (let bit_weight := nth j bt 0 - nth j bf 0 in
        if negb (bit_of t (Z.of_nat j) =? Z.b2z (bit_weight >? 0))
        then d + Z.abs bit_weight else d).
Proof.
  intros Hb Hf. rewrite (getitem_nat bt j 0 Hb), (getitem_nat bf j 0 Hf). cbn [bind].
  cbv zeta.
  assert (E : forall b : bool, Z.land (Z.b2z b) 1 = Z.b2z b) by (intros []; reflexivity).
  rewrite E. destruct (negb _); reflexivity.
Qed.

Lemma char_distance_loop (bt bf : list Z) (t : Z) :
  (8 <= List.length bt)%nat -> (8 <= List.length bf)%nat ->
  foldM (fun distance j =>
           b <- getitem bt j ;;
           f <- getitem bf j ;;
           let bit_weight := b - f in
           if negb (bit_of t j =? Z.land (Z.b2z (bit_weight >? 0)) 1)
           then Ok (distance + Z.abs bit_weight)
           else Ok distance)
        (range 0 8) 0
  = Ok (char_distance bt bf t).
Proof.
  intros Hb Hf. rewrite ConfidentCharacterFacts.range_0_8. unfold char_distance.
  cbn [map seq foldM fold_left].
  repeat (rewrite char_distance_round by lia; cbn [bind]).
  reflexivity.
Qed.

Lemma ZZ_ltb_false (a b : Z * Z) : ZZ_ltb a b = false <-> ZZ_le b a.
Proof.
  unfold ZZ_le. rewrite <- ZZ_ltb_lt. destruct (ZZ_ltb a b); split; congruence.
Qed.

Lemma insert_sorted_ZZ (x : Z * Z) (l : list (Z * Z)) :
  StronglySorted ZZ_le l -> StronglySorted ZZ_le (insert_sorted ZZ_ltb x l).
Proof.
  induction 1 as [|y l Hs IH Hall]; cbn [insert_sorted].
  - repeat constructor.
  - destruct (ZZ_ltb y x) eqn:E.
    + constructor; [exact IH|]. rewrite Forall_forall in *. intros z Hz.
      destruct (in_insert_sorted _ _ _ _ Hz) as [->|Hz'].
      * apply ZZ_ltb_lt in E. unfold ZZ_le, ZZ_lt in *. lia.
      * now apply Hall.
    + apply ZZ_ltb_false in E. constructor; [now constructor|].
      constructor; [exact E|]. rewrite Forall_forall in *. intros z Hz.
      specialize (Hall z Hz). unfold ZZ_le, ZZ_lt in *. lia.
Qed.

Lemma sorted_ZZ (l : list (Z * Z)) : StronglySorted ZZ_le (sorted ZZ_ltb l).
Proof.
  unfold sorted. induction l as [|x l IH]; cbn [fold_right]; [constructor|].
  now apply insert_sorted_ZZ.
Qed.

(** X5. [_reconcile_character] with eight weights in each vector.  An
    empty pattern raises [IndexError].  When no true weight was received
    and the pattern offers more than one character, the result is
    confidence 0 and the null character.  Otherwise the result is a
    character of the pattern that is nearest to the received bits (no
    character of the pattern has a smaller distance), with confidence 1
    or 2. *)
Theorem reconcile_character_spec (bitstrue bitsfalse : list Z) (pat : pystr) :
  (8 <= List.length bitstrue)%nat -> (8 <= List.length bitsfalse)%nat ->
  (pat = [] -> _reconcile_character bitstrue bitsfalse pat = Raise IndexError)
  /\ (sum bitstrue = 0 -> 1 < len pat ->
      _reconcile_character bitstrue bitsfalse pat = Ok (0, 0))
  /\ (pat <> [] -> sum bitstrue <> 0 \/ len pat = 1 ->
      exists confidence c,
        _reconcile_character bitstrue bitsfalse pat = Ok (confidence, c)
        /\ In c pat /\ (confidence = 1 \/ confidence = 2)
        /\ forall t, In t pat ->
             char_distance bitstrue bitsfalse c <= char_distance bitstrue bitsfalse t).
Proof.
  intros Hb Hf. unfold _reconcile_character. split; [|split].
  - intros ->. change (len (@nil Z) >? 1) with false. rewrite andb_false_r. reflexivity.
  - intros -> Hl. destruct (Z.gtb_spec (len pat) 1); [reflexivity | lia].
  - intros Hne Hcase.
    assert (Hguard : (sum bitstrue =? 0) && (len pat >? 1) = false).
    { destruct Hcase as [H|H].
      - apply Z.eqb_neq in H. now rewrite H.
      - rewrite H. apply andb_false_r. }
    rewrite Hguard.
    rewrite (mapM_ok _ (fun t => (char_distance bitstrue bitsfalse t, t)))
      by (intros t _; rewrite char_distance_loop by assumption; reflexivity).
    cbn [bind].
    set (near := map (fun t => (char_distance bitstrue bitsfalse t, t)) pat).
    pose proof (sorted_ZZ near) as Hs.
    pose proof (length_sorted ZZ_ltb near) as Hlen.
    assert (Hnear : List.length near = List.length pat) by apply length_map.
    destruct (sorted ZZ_ltb near) as [|n0 rest] eqn:Es.
    { destruct pat; [contradiction | cbn in *; lia]. }
    change (getitem (n0 :: rest) 0) with (Ok n0). cbn [bind].
    assert (Hconf : exists confidence,
               (if len (n0 :: rest) =? 1 then Ok 2
                else n1 <- getitem (n0 :: rest) 1 ;;
                     Ok (if negb (fst n0 =? fst n1) then 2 else 1))
               = Ok confidence /\ (confidence = 1 \/ confidence = 2)).
    { destruct rest as [|n1 rest'].
      - exists 2. split; [reflexivity | now right].
      - assert (E1 : (len (n0 :: n1 :: rest') =? 1) = false)
          by (apply Z.eqb_neq; unfold len; cbn [List.length]; lia).
        rewrite E1. change (getitem (n0 :: n1 :: rest') 1) with (Ok n1). cbn [bind].
        destruct (negb (fst n0 =? fst n1)); eexists; (split; [reflexivity|]); auto. }
    destruct Hconf as (confidence & -> & Hc). cbn [bind].
    exists confidence, (snd n0). split; [reflexivity|].
    assert (Hin0 : In n0 near) by (apply (in_sorted ZZ_ltb); rewrite Es; now left).
    unfold near in Hin0. apply in_map_iff in Hin0. destruct Hin0 as (c & <- & Hc0).
    cbn [snd]. split; [exact Hc0|]. split; [exact Hc|].
    intros t Ht.
    assert (Hin : In (char_distance bitstrue bitsfalse t, t) (sorted ZZ_ltb near))
      by (apply sorted_in, in_map_iff; now exists t).
    rewrite Es in Hin. inversion Hs as [|? ? _ Hall]; subst.
    destruct Hin as [Hin|Hin].
    + injection Hin as E _. lia.
    + rewrite Forall_forall in Hall. specialize (Hall _ Hin).
      unfold ZZ_le, ZZ_lt in Hall. cbn [fst snd] in Hall. lia.
Qed.

Lemma reconcile_character_spec_witness :
  exists confidence c,
    _reconcile_character [9; 9; 9; 0; 9; 0; 9; 0] [0; 0; 0; 9; 0; 9; 0; 9] (str "NW")
    = Ok (confidence, c)
    /\ In c (str "NW").
Proof.
  destruct (reconcile_character_spec [9; 9; 9; 0; 9; 0; 9; 0] [0; 0; 0; 9; 0; 9; 0; 9]
              (str "NW")) as (_ & _ & H).
  - cbn. lia.
  - cbn. lia.
  - destruct H as (confidence & c & E & Hin & _).
    + discriminate.
    + left. discriminate.
    + exists confidence, c. split; [exact E | exact Hin].
Defined.

(** ** [__median] *)

(** X6. The median of a non-empty list of integers of magnitude 2^52 at
    most lies between the least and the greatest of its elements.  It
    is half an integer of magnitude 2^53 at most, so the float the code
    returns for a list of even length holds it exactly. *)
Theorem median_between (lst : list Z) (lo hi : Z) :
  lst <> [] -> (forall x, In x lst -> lo <= x <= hi) ->
  - 2 ^ 52 <= lo -> hi <= 2 ^ 52 ->
  (inject_Z lo <= __median lst <= inject_Z hi)%Q
  /\ exists k, (__median lst == inject_Z k / 2)%Q /\ - 2 ^ 53 <= k <= 2 ^ 53.
Proof.
  intros Hne Hb Hlo Hhi. unfold __median.
  set (s := sorted Z.ltb lst).
  assert (Hlen : List.length s = List.length lst) by apply length_sorted.
  assert (Hs : forall x, In x s -> lo <= x <= hi)
    by (intros x Hx; apply Hb, (in_sorted Z.ltb), Hx).
  assert (Hpos : 0 < len lst) by (destruct lst; [contradiction | unfold len; cbn; lia]).
  pose proof (Z.div_mod (len lst) 2 ltac:(lia)) as Hdm.
  pose proof (Z.mod_pos_bound (len lst) 2 ltac:(lia)) as Hmod.
  change (2 ^ 52) with 4503599627370496 in *.
  change (2 ^ 53) with 9007199254740992.
  destruct (Z.eqb_spec (len lst mod 2) 0) as [He|Ho]; cbn [negb].
  - assert (Hq : 1 <= len lst / 2) by lia.
    rewrite slice_firstn_skipn by (unfold len in *; lia).
    replace (len lst / 2 + 1 - (len lst / 2 - 1)) with 2 by lia.
    change (Z.to_nat 2) with 2%nat.
    pose proof (length_skipn (Z.to_nat (len lst / 2 - 1)) s) as Hsk.
    destruct (skipn (Z.to_nat (len lst / 2 - 1)) s) as [|a [|b r]] eqn:Esk;
      cbn [List.length] in Hsk; unfold len in *; try lia.
    assert (Ha : lo <= a <= hi)
      by (apply Hs, (in_skipn a (Z.to_nat (Z.of_nat (List.length lst) / 2 - 1))); rewrite Esk; now left).
    assert (Hb' : lo <= b <= hi)
      by (apply Hs, (in_skipn b (Z.to_nat (Z.of_nat (List.length lst) / 2 - 1))); rewrite Esk;
          right; now left).
    cbn [firstn]. unfold sum. cbn [fold_left]. split.
    + unfold Qle, Qdiv, Qmult, Qinv, inject_Z. cbn. lia.
    + exists (0 + a + b). split; [reflexivity | lia].
  - assert (Hin : In (nth (Z.to_nat (len lst / 2)) s 0) s)
      by (apply nth_In; unfold len in *; lia).
    specialize (Hs _ Hin). split.
    + rewrite <- !Zle_Qle. exact Hs.
    + exists (2 * nth (Z.to_nat (len lst / 2)) s 0). split; [|lia].
      unfold Qeq, Qdiv, Qmult, Qinv, inject_Z. cbn [Qnum Qden]. lia.
Qed.

Lemma median_between_witness :
  (inject_Z 1 <= __median [3; 1; 2; 2]%Z <= inject_Z 3)%Q.
Proof.
  apply (median_between [3; 1; 2; 2] 1 3).
  - discriminate.
  - intros x [<-|[<-|[<-|[<-|[]]]]]; lia.
  - vm_compute. discriminate.
  - vm_compute. discriminate.
Defined.

(** ** [_reconcile_word] away from the start of the word *)

(** X7. With a start index of 1 or more and candidates of one length (as
    [MessageChunk] calls it), a call of [_reconcile_word] that returns
    reports no match, and the word it returns is the word it was given
    (when there are no candidates or the word ends before the start
    index) or the slice of the word from the start index on, as long as
    the first candidate. *)
Theorem reconcile_word_from_offset (word : pystr) (confidences : list cval)
    (start : Z) (cs : choices) (r : pystr * list cval * bool) :
  1 <= start -> equal_length cs ->
  _reconcile_word word confidences start cs = Ok r ->
  snd r = false
  /\ (fst (fst r) = word
      \/ exists c0 rest, choice_strings cs = c0 :: rest
                         /\ fst (fst r) = slice word start (start + len c0)).
Proof.
  intros Hstart Heq H.
  pose proof (reconcile_word_never_matches word confidences start cs r Hstart Heq H) as Hm.
  split; [exact Hm|]. revert H. unfold _reconcile_word.
  destruct (choices_len cs =? 0); [intros [= <-]; now left|].
  destruct (len word <=? start); [intros [= <-]; now left|].
  destruct (getitem confidences 0) as [c0|]; [|discriminate]. cbn [bind].
  destruct (match c0 with CInt _ => _ | CChr _ => _ end) as [confidences'|];
    [|discriminate]. cbn [bind].
  destruct (match cs with Weighted l => _ | Plain l => _ end) as [choices'|] eqn:Ech;
    [|discriminate]. cbn [bind].
  assert (Hsnd : map snd choices' = choice_strings cs).
  { destruct cs as [l|l]; cbn [choice_strings].
    - destruct (getitem l 0); [|discriminate]. cbn [bind] in Ech.
      destruct (getitem a 0); [|discriminate]. cbn [bind] in Ech.
      injection Ech as <-. rewrite map_map. cbn [snd]. apply map_id.
    - now injection Ech as <-. }
  destruct (getitem choices' 0) as [ch0|] eqn:E0; [|discriminate]. cbn [bind].
  assert (Hfirst : exists rest, choice_strings cs = snd ch0 :: rest).
  { rewrite <- Hsnd. destruct choices' as [|x rest]; [discriminate E0|].
    injection E0 as ->. now exists (map snd rest). }
  destruct Hfirst as (rest & Hfirst).
  destruct (mapM _ choices') as [candidates|]; [|discriminate]. cbn [bind].
  destruct (getitem (sorted Qstr_ltb candidates) 0) as [cand0|]; [|discriminate]. cbn [bind].
  destruct (mapM as_int confidences') as [ints|]; [|discriminate]. cbn [bind].
  destruct (if Qltb _ _ then _ else _) as [[|]|]; [| |discriminate]; cbn [bind].
  - destruct (py_max _) as [top|]; [|discriminate]. cbn [bind].
    destruct (_ =? 0); [discriminate|].
    destruct (foldM _ _ _); [|discriminate]. cbn [bind].
    intros [= <-]. discriminate Hm.
  - intros [= <-]. right. exists (snd ch0), rest. split; [exact Hfirst | reflexivity].
Qed.

Lemma reconcile_word_from_offset_witness :
  1 <= 1 /\ equal_length (Plain _ORIGINATOR_CODES)
  /\ snd (str "QQQ", repeat (CInt 9) 4, false) = false.
Proof.
  assert (Heq : equal_length (Plain _ORIGINATOR_CODES)).
  { intros x y Hx Hy. cbn in Hx, Hy.
    repeat (destruct Hx as [<-|Hx]; [repeat (destruct Hy as [<-|Hy]; [reflexivity|]); destruct Hy|]).
    destruct Hx. }
  split; [lia|]. split; [exact Heq|].
  apply (reconcile_word_from_offset (str "-QQQ") (repeat (CInt 9) 4) 1
           (Plain _ORIGINATOR_CODES) _ ltac:(lia) Heq).
  vm_compute. reflexivity.
Defined.

(** ** [check_if_valid_code] *)

(** X8. [check_if_valid_code] returns a code exactly when every code is
    in the valid list and the first three codes are that code; it
    returns [None] when some code is not in the valid list, and it raises
    [IndexError] when fewer than three codes, all valid and equal, are
    given. *)
Theorem check_if_valid_code_spec (codes : list pystr) (valid_list : list vcode) (c : pystr) :
  (check_if_valid_code codes valid_list = Ok (Some c)
   <-> issuperset valid_list codes = true /\ exists rest, codes = c :: c :: c :: rest)
  /\ (issuperset valid_list codes = false -> check_if_valid_code codes valid_list = Ok None)
  /\ (issuperset valid_list codes = true -> (List.length codes < 3)%nat ->
      (forall a b, In a codes -> In b codes -> a = b) ->
      check_if_valid_code codes valid_list = Raise IndexError).
Proof.
  split; [|split].
  - unfold check_if_valid_code. split.
    + destruct (issuperset valid_list codes); [|discriminate].
      destruct codes as [|c0 [|c1 [|c2 rest]]]; try discriminate.
      * change (getitem [c0; c1] 0) with (Ok c0). change (getitem [c0; c1] 1) with (Ok c1).
        cbn [bind]. destruct (pystr_eqb c0 c1); discriminate.
      * change (getitem (c0 :: c1 :: c2 :: rest) 0) with (Ok c0).
        change (getitem (c0 :: c1 :: c2 :: rest) 1) with (Ok c1).
        change (getitem (c0 :: c1 :: c2 :: rest) 2) with (Ok c2). cbn [bind].
        destruct (pystr_eqb c0 c1) eqn:E01; [|discriminate].
        destruct (pystr_eqb c1 c2) eqn:E12; [|discriminate].
        apply pystr_eqb_eq in E01, E12. intros [= <-]. subst.
        split; [reflexivity | now exists rest].
    + intros [-> (rest & ->)].
      change (getitem (c :: c :: c :: rest) 0) with (Ok c).
      change (getitem (c :: c :: c :: rest) 1) with (Ok c).
      change (getitem (c :: c :: c :: rest) 2) with (Ok c). cbn [bind].
      now rewrite (proj2 (pystr_eqb_eq c c) eq_refl).
  - intros H. unfold check_if_valid_code. now rewrite H.
  - apply check_if_valid_code_short.
Qed.

Lemma check_if_valid_code_spec_witness :
  check_if_valid_code [str "WXR"; str "WXR"; str "WXR"; str "EAS"]
    [VStr (str "EAS"); VStr (str "WXR")] = Ok (Some (str "WXR")).
Proof.
  apply (check_if_valid_code_spec [str "WXR"; str "WXR"; str "WXR"; str "EAS"]
           [VStr (str "EAS"); VStr (str "WXR")] (str "WXR")).
  split; [reflexivity|]. exists [str "EAS"]. reflexivity.
Defined.

(** ** [default_prioritization] *)

(** X9. [default_prioritization] raises [IndexError] exactly on event
    types of fewer than three characters; on every other string it
    returns one of the six levels, CRITICAL or more when the third
    character is W, and DEBUG exactly when the third character is T. *)
Theorem default_prioritization_levels (event_type : pystr) :
  (len event_type < 3 -> default_prioritization event_type = Raise IndexError)
  /\ (3 <= len event_type ->
      exists level, default_prioritization event_type = Ok level
        /\ In level [CRITICAL + 10; CRITICAL + 5; CRITICAL; WARNING; INFO; DEBUG]
        /\ (nth 2 event_type 0 = 87 -> CRITICAL <= level)
        /\ (level = DEBUG <-> nth 2 event_type 0 = 84)).
Proof.
  split; intros H.
  { unfold default_prioritization.
    repeat match goal with
           | |- context [pystr_eqb event_type ?s] =>
               let E := fresh "E" in
               destruct (pystr_eqb event_type s) eqn:E;
               [apply pystr_eqb_eq in E; subst event_type; vm_compute in H; discriminate H|]
           end.
    now rewrite getitem_beyond by lia. }
  destruct event_type as [|a [|b [|c rest]]]; try (unfold len in H; cbn [List.length] in H; lia).
  unfold default_prioritization.
  change (getitem (a :: b :: c :: rest) 2) with (Ok c). cbn [nth bind].
  destruct (pystr_eqb (a :: b :: c :: rest) (str "EQW")) eqn:E1.
  { apply pystr_eqb_eq in E1. vm_compute in E1. injection E1 as ? ? ? ?; subst.
    eexists. split; [reflexivity|]. vm_compute. intuition discriminate. }
  destruct (pystr_eqb (a :: b :: c :: rest) (str "TOR")) eqn:E2.
  { apply pystr_eqb_eq in E2. vm_compute in E2. injection E2 as ? ? ? ?; subst.
    eexists. split; [reflexivity|]. vm_compute. intuition discriminate. }
  destruct (pystr_eqb (a :: b :: c :: rest) (str "SVR")) eqn:E3.
  { apply pystr_eqb_eq in E3. vm_compute in E3. injection E3 as ? ? ? ?; subst.
    eexists. split; [reflexivity|]. vm_compute. intuition discriminate. }
  destruct (Z.eqb_spec c 87) as [->|H87].
  { eexists. split; [reflexivity|]. vm_compute. intuition discriminate. }
  destruct (pystr_eqb (a :: b :: c :: rest) (str "EVI")) eqn:E4.
  { apply pystr_eqb_eq in E4. vm_compute in E4. injection E4 as ? ? ? ?; subst.
    eexists. split; [reflexivity|]. vm_compute. intuition discriminate. }
  cbn [orb].
  destruct (Z.eqb_spec c 69) as [->|H69].
  { eexists. split; [reflexivity|]. vm_compute. intuition discriminate. }
  destruct (Z.eqb_spec c 84) as [->|H84].
  { eexists. split; [reflexivity|]. vm_compute. intuition discriminate. }
  eexists. split; [reflexivity|]. unfold CRITICAL, WARNING, INFO, DEBUG. cbn [In].
  split; [auto 10|]. split; [intros; lia|]. split; [discriminate | intros; lia].
Qed.

Lemma default_prioritization_levels_witness :
  exists level, default_prioritization (str "FFW") = Ok level /\ CRITICAL <= level.
Proof.
  destruct (default_prioritization_levels (str "FFW")) as (_ & H).
  destruct H as (level & E & _ & Hw & _).
  - vm_compute. discriminate.
  - exists level. split; [exact E|]. apply Hw. reflexivity.
Defined.

(** ** [unicodify]: every code point *)

Lemma unicodify_char_low_byte (c : Z) : Z.land (unicodify_char c) 0xFF = Z.land c 0xFF.
Proof.
  unfold unicodify_char.
  destruct (Z.eqb_spec c 0) as [->|_]; [reflexivity|].
  destruct (c <=? 0x1F).
  - rewrite Z.land_lor_distr_l. change (Z.land 0x2400 0xFF) with 0. apply Z.lor_0_r.
  - destruct (c >? 126); [|reflexivity].
    rewrite Z.land_lor_distr_l, <- Z.land_assoc.
    change (Z.land 0xFF 0xFF) with 0xFF. change (Z.land 0x1E00 0xFF) with 0. apply Z.lor_0_r.
Qed.

(** X10. [unicodify] keeps the low byte of every character, whatever its
    code point, so applying it again still keeps the low bytes; decoding
    with [ord(c) & 0xFF] gives back a string of bytes. *)
Theorem unicodify_low_bytes (s : pystr) :
  low_bytes (unicodify s) = low_bytes s
  /\ low_bytes (unicodify (unicodify s)) = low_bytes s
  /\ (Forall (fun c => 0 <= c <= 255) s -> low_bytes (unicodify s) = s).
Proof.
  assert (E : forall s, low_bytes (unicodify s) = low_bytes s).
  { intros s'. unfold low_bytes, unicodify. rewrite map_map. apply map_ext.
    apply unicodify_char_low_byte. }
  split; [apply E|]. split; [now rewrite !E|].
  intros H. rewrite E. unfold low_bytes. induction H as [|c s' Hc _ IH]; [reflexivity|].
  cbn [map]. rewrite IH. f_equal.
  change 0xFF with (Z.ones 8). rewrite Z.land_ones by lia. apply Z.mod_small.
  change (2 ^ 8) with 256. lia.
Qed.

Lemma unicodify_low_bytes_witness : low_bytes (unicodify [0; 10; 65; 200]) = [0; 10; 65; 200].
Proof.
  apply (unicodify_low_bytes [0; 10; 65; 200]). repeat constructor; lia.
Defined.

(** ** [split_message] *)

(** The loop of [split_message] that cuts the confidences to the parts. *)
Lemma align_loop (confidences : list cval) (parts : list pystr)
    (acc : list (list cval)) (count : Z) (acc' : list (list cval)) (count' : Z) :
  foldM (fun '(final_confidences, count) (part : pystr) =>
           '(con_set, count) <-
             foldM (fun '(con_set, count) (_ : Z) =>
                      c <- getitem confidences count ;;
                      Ok (con_set ++ [c], count + 1))
                   part ([], count) ;;
           Ok (final_confidences ++ [con_set], count))
        parts (acc, count) = Ok (acc', count') ->
  exists sets, acc' = acc ++ sets
               /\ Forall2 (fun (p : pystr) (c : list cval) => List.length c = List.length p)
                          parts sets.
Proof.
  revert acc count. induction parts as [|p parts IH]; intros acc count; cbn [foldM].
  - intros [= <- <-]. exists []. split; [now rewrite app_nil_r | constructor].
  - intros H.
    match type of H with
    | bind (bind ?m _) _ = _ => destruct m as [[con_set c1]|] eqn:E; [|discriminate H]
    end.
    cbn [bind] in H. apply IH in H. destruct H as (sets & -> & Hall).
    exists (con_set :: sets). split; [now rewrite <- app_assoc|].
    constructor; [|exact Hall].
    apply (foldM_invariant
             (fun n (s : list cval * Z) => List.length (fst s) = n) _ _ _ _ 0%nat) in E.
    + exact E.
    + clear. intros k [cs c] a s' Hk H. cbn [fst] in *. bind_inv H. injection H as <-.
      cbn [fst]. rewrite length_app. cbn [List.length]. lia.
    + reflexivity.
Qed.

(** X11. When [split_message] returns, the parts of the message and the
    parts of the confidences are aligned: there are as many of each, and
    every part of the confidences is as long as its part of the message.
    Either no part is returned and the county count is 0 (the main
    delimiter does not cut the message in two), or there are five parts
    more than counties; every part starts with the ['-'] or ['+'] that
    was put back in front of it. *)
Theorem split_message_aligned (message : pystr) (confidences : list cval)
    (final_message : list pystr) (final_confidences : list (list cval)) (fips_counter : Z) :
  split_message message confidences = Ok (final_message, final_confidences, fips_counter) ->
  Forall2 (fun (p : pystr) (c : list cval) => List.length c = List.length p)
          final_message final_confidences
  /\ ((final_message = [] /\ fips_counter = 0)
      \/ (0 <= fips_counter /\ len final_message = fips_counter + 5))
  /\ Forall (fun p => exists t, p = dash :: t \/ p = plus :: t) final_message.
Proof.
  unfold split_message. intros H.
  destruct (_truncate message confidences) as [[msg conf]|]; [|discriminate H].
  cbn [bind] in H.
  destruct (getitem msg (len msg - 23)) as [delim|]; [|discriminate H]. cbn [bind] in H.
  match type of H with
  | bind ?m _ = _ => destruct m as [[fm n]|] eqn:E; [|discriminate H]
  end.
  cbn [bind] in H.
  match type of H with
  | bind ?m _ = _ => destruct m as [[fc cnt]|] eqn:Ec; [|discriminate H]
  end.
  cbn [bind] in H. injection H as <- <- <-.
  apply align_loop in Ec. destruct Ec as (sets & -> & Hall). cbn [app].
  split; [exact Hall|].
  destruct (len (split_on delim msg) =? 2).
  2:{ injection E as <- <-. split; [now left | constructor]. }
  bind_inv E.
  apply (foldM_invariant
           (fun k (s : list pystr * Z) =>
              List.length (fst s) = (2 + k)%nat /\ snd s = Z.of_nat k
              /\ Forall (fun p => exists t, p = dash :: t \/ p = plus :: t) (fst s))
           _ _ _ _ 0%nat) in E4.
  - cbn [fst snd] in *. destruct E4 as (Hlen & Hn & Hall').
    injection E as <- <-. split.
    + right. split; [lia|]. unfold len. rewrite length_app. unfold pystr in *.
      cbn [List.length]. lia.
    + apply Forall_app. split; [exact Hall'|].
      repeat constructor; eexists; (left; reflexivity) || (right; reflexivity).
  - clear. intros k [fm c] i s' (Hl & Hc & Hall) H. cbn [fst snd] in *. bind_inv H.
    injection H as <-. cbn [fst snd]. rewrite length_app. cbn [List.length].
    unfold pystr in *. split; [lia|]. split; [lia|]. apply Forall_app. split; [exact Hall|].
    repeat constructor. eexists. left. reflexivity.
  - cbn [fst snd]. split; [reflexivity|]. split; [reflexivity|].
    repeat constructor; eexists; left; reflexivity.
Qed.

Lemma split_message_aligned_witness :
  exists final_message final_confidences,
    split_message clean_header (repeat (CInt 9) 52)
    = Ok (final_message, final_confidences, 3)
    /\ len final_message = 3 + 5.
Proof.
  do 2 eexists. split; [vm_compute; reflexivity|].
  destruct (split_message_aligned clean_header (repeat (CInt 9) 52) _ _ 3
              ltac:(vm_compute; reflexivity)) as (_ & [[_ H]|[_ H]] & _).
  - discriminate H.
  - exact H.
Defined.

(** ** [MessageChunk.assemble_chars] *)

Section Votes.
Variables bitstrue bitsfalse : list Z.
Hypothesis enough : (List.length bitstrue <= List.length bitsfalse)%nat.

Lemma vote_round (i j : nat) (c : Z) (confidences : list Z) :
  (i < List.length bitstrue / 8)%nat -> (j < 8)%nat ->
  List.length confidences = (List.length bitstrue / 8)%nat ->
  (bt <- getitem bitstrue (Z.shiftl (Z.of_nat i) 3 + Z.of_nat j) ;;
   bf <- getitem bitsfalse (Z.shiftl (Z.of_nat i) 3 + Z.of_nat j) ;;
   old <- getitem confidences (Z.of_nat i) ;;
   confidences' <- setitem confidences (Z.of_nat i) (old + Z.abs (bt - bf)) ;;
   Ok (Z.lor c (Z.shiftl (Z.b2z (bt - bf >? 0)) (Z.of_nat j)), confidences'))
  = Ok (Z.lor c (Z.shiftl (Z.b2z (bit_weight bitstrue bitsfalse i j >? 0)) (Z.of_nat j)),
        set_nth confidences i
          (nth i confidences 0 + Z.abs (bit_weight bitstrue bitsfalse i j))).
Proof.
  intros Hi Hj Hc. unfold bit_weight.
  assert (Hn : (8 * i + j < List.length bitstrue)%nat).
  { pose proof (Nat.Div0.mul_div_le (List.length bitstrue) 8). lia. }
  rewrite Z.shiftl_mul_pow2 by lia. change (2 ^ 3) with 8.
  replace (Z.of_nat i * 8 + Z.of_nat j) with (Z.of_nat (8 * i + j)) by lia.
  rewrite (getitem_nat bitstrue _ 0) by lia. cbn [bind].
  rewrite (getitem_nat bitsfalse _ 0) by lia. cbn [bind].
  rewrite (getitem_nat confidences i 0) by lia. cbn [bind].
  rewrite setitem_nat by lia. reflexivity.
Qed.

Lemma vote_inner (i : nat) (confidences : list Z) :
  (i < List.length bitstrue / 8)%nat ->
  List.length confidences = (List.length bitstrue / 8)%nat ->
  foldM (fun '(c, confidences) j =>
           bt <- getitem bitstrue (Z.shiftl (Z.of_nat i) 3 + j) ;;
           bf <- getitem bitsfalse (Z.shiftl (Z.of_nat i) 3 + j) ;;
           old <- getitem confidences (Z.of_nat i) ;;
           confidences' <- setitem confidences (Z.of_nat i) (old + Z.abs (bt - bf)) ;;
           Ok (Z.lor c (Z.shiftl (Z.b2z (bt - bf >? 0)) j), confidences'))
        (range 0 8) (0, confidences)
  = Ok (vote_char bitstrue bitsfalse i,
        set_nth confidences i (nth i confidences 0 + vote_confidence bitstrue bitsfalse i)).
Proof.
  intros Hi Hc. rewrite ConfidentCharacterFacts.range_0_8. cbn [map seq foldM].
  repeat (rewrite vote_round by (rewrite ?length_set_nth; lia || assumption);
          cbn [bind]; rewrite ?set_nth_twice, ?nth_set_nth, ?Nat.eqb_refl by lia).
  f_equal. f_equal.
  - unfold vote_char, ConfidentCharacter.byte_of_bits. cbn [map seq combine fold_left].
    repeat match goal with
           | |- context [Z.b2z (?w >? 0)] => destruct (w >? 0)
           end; reflexivity.
  - f_equal. unfold vote_confidence, sum. cbn [map seq fold_left]. lia.
Qed.

Lemma assemble_chars_closed :
  let n := (List.length bitstrue / 8)%nat in
  MessageChunk.assemble_chars bitstrue bitsfalse
  = Ok (map (vote_char bitstrue bitsfalse) (seq 0 n),
        map (vote_confidence bitstrue bitsfalse) (seq 0 n)).
Proof.
  intros n. unfold MessageChunk.assemble_chars.
  assert (En : Z.shiftr (len bitstrue) 3 = Z.of_nat n).
  { rewrite Z.shiftr_div_pow2 by lia. change (2 ^ 3) with 8. subst n. unfold len.
    now rewrite Nat2Z.inj_div. }
  cbv zeta. rewrite En, Nat2Z.id, (range_0 n).
  destruct (foldM_seq_total
              (fun i (s : pystr * list Z) =>
                 fst s = map (vote_char bitstrue bitsfalse) (seq 0 i)
                 /\ List.length (snd s) = n
                 /\ forall k, (k < n)%nat ->
                      nth k (snd s) 0
                      = if (k <? i)%nat then vote_confidence bitstrue bitsfalse k else 0)
              (fun '(avgchars, confidences) i =>
                 '(c, confidences) <-
                   foldM (fun '(c, confidences) j =>
                            bt <- getitem bitstrue (Z.shiftl i 3 + j) ;;
                            bf <- getitem bitsfalse (Z.shiftl i 3 + j) ;;
                            old <- getitem confidences i ;;
                            confidences' <- setitem confidences i (old + Z.abs (bt - bf)) ;;
                            Ok (Z.lor c (Z.shiftl (Z.b2z (bt - bf >? 0)) j), confidences'))
                         (range 0 8) (0, confidences) ;;
                 Ok (avgchars ++ [c], confidences))
              Z.of_nat n 0 ([], repeat 0 n))
    as ([cs cf] & E & Hcs & Hlen & Hcf).
  - cbn [fst snd]. split; [reflexivity|]. split; [apply repeat_length|].
    intros k Hk. cbn. apply nth_repeat.
  - intros i [cs cf] Hi (Hcs & Hlen & Hcf). cbn [fst snd] in *.
    rewrite (vote_inner i cf) by (subst n; lia). cbn [bind]. eexists. split; [reflexivity|].
    cbn [fst snd]. split; [|split].
    + rewrite Hcs, seq_S, map_app. reflexivity.
    + now rewrite length_set_nth.
    + intros k Hk. rewrite nth_set_nth by lia. rewrite (Hcf i) by lia.
      rewrite (proj2 (Nat.ltb_ge i i)) by lia.
      destruct (Nat.eqb_spec k i) as [->|Hne].
      * rewrite (proj2 (Nat.ltb_lt i (S i))) by lia. lia.
      * rewrite (Hcf k Hk). destruct (Nat.ltb_spec k i), (Nat.ltb_spec k (S i)); lia || reflexivity.
  - cbn [fst snd Nat.add] in *. transitivity (Ok (cs, cf)); [exact E|].
    do 2 f_equal; [exact Hcs|].
    apply (nth_ext _ _ 0 0); [now rewrite length_map, length_seq|].
    intros k Hk. rewrite Hlen in Hk. rewrite (Hcf k Hk), (proj2 (Nat.ltb_lt k n) Hk).
    rewrite (nth_indep _ 0 (vote_confidence bitstrue bitsfalse 0))
      by (rewrite length_map, length_seq; exact Hk).
    rewrite map_nth, seq_nth by exact Hk. reflexivity.
Qed.

(** X12. [assemble_chars] is a vote bit by bit.  When [bitsfalse] is at
    least as long as [bitstrue], it returns one character and one
    confidence for every eight weights of [bitstrue]; each character is
    a byte whose bit [j] is set exactly when the true weight of that bit
    is greater than the false weight, and its confidence is the sum of
    the absolute differences of the eight weights, so it is never
    negative. *)
Theorem assemble_chars_votes :
  let n := (List.length bitstrue / 8)%nat in
  exists avgchars confidences,
    MessageChunk.assemble_chars bitstrue bitsfalse = Ok (avgchars, confidences)
    /\ List.length avgchars = n /\ List.length confidences = n
    /\ forall i, (i < n)%nat ->
         0 <= nth i avgchars 0 < 256
         /\ (forall j, (j < 8)%nat ->
               ConfidentCharacter.bit_set (nth i avgchars 0) (Z.of_nat j)
               = (bit_weight bitstrue bitsfalse i j >? 0))
         /\ nth i confidences 0 = vote_confidence bitstrue bitsfalse i
         /\ 0 <= nth i confidences 0.
Proof.
  intros n. do 2 eexists. split; [apply assemble_chars_closed|].
  fold n. rewrite !length_map, !length_seq. split; [reflexivity|]. split; [reflexivity|].
  intros i Hi.
  assert (Hc : nth i (map (vote_char bitstrue bitsfalse) (seq 0 n)) 0
               = vote_char bitstrue bitsfalse i).
  { rewrite (nth_indep _ 0 (vote_char bitstrue bitsfalse 0))
      by (rewrite length_map, length_seq; exact Hi).
    rewrite map_nth, seq_nth by exact Hi. reflexivity. }
  assert (Hf : nth i (map (vote_confidence bitstrue bitsfalse) (seq 0 n)) 0
               = vote_confidence bitstrue bitsfalse i).
  { rewrite (nth_indep _ 0 (vote_confidence bitstrue bitsfalse 0))
      by (rewrite length_map, length_seq; exact Hi).
    rewrite map_nth, seq_nth by exact Hi. reflexivity. }
  rewrite Hc, Hf.
  unfold vote_char. cbn [map seq].
  set (b0 := bit_weight bitstrue bitsfalse i 0 >? 0).
  set (b1 := bit_weight bitstrue bitsfalse i 1 >? 0).
  set (b2 := bit_weight bitstrue bitsfalse i 2 >? 0).
  set (b3 := bit_weight bitstrue bitsfalse i 3 >? 0).
  set (b4 := bit_weight bitstrue bitsfalse i 4 >? 0).
  set (b5 := bit_weight bitstrue bitsfalse i 5 >? 0).
  set (b6 := bit_weight bitstrue bitsfalse i 6 >? 0).
  set (b7 := bit_weight bitstrue bitsfalse i 7 >? 0).
  split; [|split; [|split]].
  + destruct b0, b1, b2, b3, b4, b5, b6, b7; vm_compute; split; discriminate || reflexivity.
  + intros j Hj. pose proof (ConfidentCharacterFacts.bits_of_byte b0 b1 b2 b3 b4 b5 b6 b7) as Hb.
    cbn [map seq] in Hb. injection Hb as H0 H1 H2 H3 H4 H5 H6 H7.
    do 8 (destruct j as [|j]; [assumption|]). lia.
  + reflexivity.
  + unfold vote_confidence, sum. cbn [map seq fold_left]. lia.
Qed.

End Votes.

Lemma assemble_chars_votes_witness :
  exists avgchars confidences,
    MessageChunk.assemble_chars [9; 9; 9; 0; 9; 0; 9; 0] [0; 0; 0; 9; 0; 9; 0; 9]
    = Ok (avgchars, confidences)
    /\ List.length avgchars = 1%nat.
Proof.
  destruct (assemble_chars_votes [9; 9; 9; 0; 9; 0; 9; 0] [0; 0; 0; 9; 0; 9; 0; 9])
    as (avgchars & confidences & E & H & _).
  - cbn. lia.
  - exists avgchars, confidences. split; [exact E | exact H].
Defined.

(** ** [MessageChunk.approximate_chars] and the chunk's index *)

Lemma approximate_chars_shape (chars : pystr) (confidences : list cval)
    (bitstrue bitsfalse : list Z) (byte_pattern_index : Z)
    (cs : pystr) (cf : list cval) (index : Z) :
  MessageChunk.approximate_chars chars confidences bitstrue bitsfalse byte_pattern_index
  = Ok (cs, cf, index) ->
  index = byte_pattern_index
  /\ List.length cs = List.length chars
  /\ List.length cf = List.length chars
  /\ Forall capped_confidence cf.
Proof.
  unfold MessageChunk.approximate_chars. intros H.
  match type of H with
  | bind (foldM ?f ?l ?s) _ = _ => destruct (foldM f l s) as [[[cs' cf'] ix]|] eqn:E
  end; [|discriminate H].
  cbn [bind] in H. injection H as <- <- <-. split; [reflexivity|].
  apply (foldM_invariant
           (fun n (s : pystr * list cval * Z) =>
              List.length (fst (fst s)) = n /\ List.length (snd (fst s)) = n
              /\ Forall capped_confidence (snd (fst s))) _ _ _ _ 0%nat) in E.
  - cbn [fst snd Nat.add] in E. unfold range in E. rewrite length_map, length_seq in E.
    unfold len in E. rewrite Z.sub_0_r, Nat2Z.id in E. exact E.
  - clear. intros k [[ctr conf] counter] i s' (Hc & Hf & Hall) H.
    cbn [fst snd] in *.
    bind_inv H. injection H as <-. cbn [fst snd]. rewrite !length_app. cbn [List.length].
    split; [lia|]. split; [lia|]. apply Forall_app. split; [exact Hall|].
    constructor; [|constructor]. eexists. split; [reflexivity | lia].
  - cbn. auto.
Qed.

(** X13. When [approximate_chars] returns, it returns the index it was
    given (the counter it advances is dropped), as many characters and
    as many confidences as it was given characters, and confidences that
    are integers of 9 at most. *)
Theorem approximate_chars_spec (chars : pystr) (confidences : list cval)
    (bitstrue bitsfalse : list Z) (byte_pattern_index : Z)
    (cs : pystr) (cf : list cval) (index : Z) :
  MessageChunk.approximate_chars chars confidences bitstrue bitsfalse byte_pattern_index
  = Ok (cs, cf, index) ->
  index = byte_pattern_index
  /\ List.length cs = List.length chars
  /\ List.length cf = List.length chars
  /\ Forall capped_confidence cf.
Proof. apply approximate_chars_shape. Qed.

Lemma approximate_chars_spec_witness :
  MessageChunk.approximate_chars (str "-W?R") (repeat (CInt 72) 4) (repeat 9 32)
    (repeat 0 32) 0
  = Ok (str "-WER", [CInt 9; CInt 9; CInt 1; CInt 9], 0)
  /\ List.length (str "-WER") = List.length (str "-W?R").
Proof.
  assert (E : MessageChunk.approximate_chars (str "-W?R") (repeat (CInt 72) 4) (repeat 9 32)
                (repeat 0 32) 0
              = Ok (str "-WER", [CInt 9; CInt 9; CInt 1; CInt 9], 0))
    by (vm_compute; reflexivity).
  split; [exact E|].
  apply (approximate_chars_spec _ _ _ _ _ _ _ _ E).
Defined.

Lemma all_of_length_equal (n : nat) (l : list pystr) :
  all_of_length n l = true -> equal_length (Plain l).
Proof.
  unfold all_of_length, equal_length. cbn [choice_strings]. rewrite forallb_forall.
  intros H x y Hx Hy. apply H in Hx, Hy. apply Nat.eqb_eq in Hx, Hy. congruence.
Qed.

Lemma durations_equal_length : equal_length (Weighted VALID_DURATIONS).
Proof.
  assert (H : all_of_length 4 (map snd VALID_DURATIONS) = true) by reflexivity.
  apply all_of_length_equal in H. exact H.
Qed.

Section Chunk.
Variable data : nwr_data.

Lemma reconcile_fips_unmatched (n : nat) (candidate_fips : list pystr)
    (st r : pystr * list cval * bool) :
  equal_length (Plain candidate_fips) ->
  snd st = false ->
  MessageChunk.reconcile_fips n candidate_fips st = Ok r -> snd r = false.
Proof.
  intros Heq. revert st. induction n as [|n IH]; intros [[chars confs] m] Hm;
    cbn [MessageChunk.reconcile_fips].
  - intros [= <-]. exact Hm.
  - destruct (_reconcile_word chars confs 1 (Plain candidate_fips)) as [st'|] eqn:E;
      [|discriminate]. cbn [bind].
    apply IH. eapply reconcile_word_never_matches; [| exact Heq | exact E]. lia.
Qed.

(** X14. A [MessageChunk] never moves the position in the grammar.  When
    the constructor returns (the candidate counties of the transmitter
    and the valid times each being of one length), the chunk's
    [byte_confidence_index] is the index it was given: every word is
    reconciled from index 1, which never reports a match, and
    [approximate_chars] hands the index back.  Its confidences are as
    many as its characters, and 9 at most. *)
Theorem chunk_index_never_advances (chars : list pystr) (confidences : list (list cval))
    (byte_confidence_index : Z) (transmitter : option pystr) (fips_counter : Z)
    (valid_times : list (Q * pystr)) (chunk : MessageChunk.t) :
  equal_length (Plain (MessageChunk.candidate_fips_of data transmitter)) ->
  equal_length (Weighted valid_times) ->
  MessageChunk.__init__ data chars confidences byte_confidence_index transmitter
    fips_counter valid_times = Ok chunk ->
  MessageChunk.byte_confidence_index chunk = byte_confidence_index
  /\ List.length (MessageChunk.confidences chunk) = List.length (MessageChunk.chars chunk)
  /\ Forall capped_confidence (MessageChunk.confidences chunk).
Proof.
  intros Hfips Htimes. unfold MessageChunk.__init__. cbv zeta. intros H.
  destruct (MessageChunk.sum_confidence chars confidences) as [[bt bf]|]; [|discriminate H].
  cbn [bind] in H.
  destruct (MessageChunk.assemble_chars bt bf) as [[sc sf]|]; [|discriminate H].
  cbn [bind] in H.
  match type of H with
  | bind ?m _ = _ => destruct m as [[[[w c] m'] off]|] eqn:E; [|discriminate H]
  end.
  cbn [bind] in H.
  assert (Hm : m' = false).
  { assert (Hrw : forall cs r, equal_length cs ->
              _reconcile_word sc (map CInt sf) 1 cs = Ok r -> snd r = false)
      by (intros cs r Hcs Hr; eapply reconcile_word_never_matches; [| exact Hcs | exact Hr]; lia).
    repeat match type of E with
           | (if ?b then _ else _) = _ => destruct b
           end;
      match type of E with
      | bind ?m _ = _ => destruct m as [[[w1 c1] m1]|] eqn:E1; [|discriminate E]
      | _ => idtac
      end; cbn [bind] in E; injection E as <- <- <- <-.
    - refine (Hrw _ _ (all_of_length_equal 3 _ _) E1). reflexivity.
    - refine (Hrw _ _ (all_of_length_equal 3 _ _) E1). reflexivity.
    - refine (reconcile_fips_unmatched _ _ _ _ Hfips _ E1). reflexivity.
    - apply (Hrw _ _ durations_equal_length E1).
    - apply (Hrw _ _ Htimes E1).
    - refine (Hrw _ _ _ E1). unfold MessageChunk.wfo_of.
      destruct (get_wfo data transmitter); intros x y; cbn; intuition congruence.
    - refine (Hrw _ _ (all_of_length_equal 3 _ _) E1). reflexivity.
    - reflexivity. }
  subst m'. cbn [negb] in H.
  destruct (MessageChunk.approximate_chars w c bt bf byte_confidence_index)
    as [[[cs conf] bci']|] eqn:Ea; [|discriminate H].
  cbn [bind] in H. injection H as <-. cbn [MessageChunk.byte_confidence_index
    MessageChunk.confidences MessageChunk.chars].
  destruct (approximate_chars_shape _ _ _ _ _ _ _ _ Ea) as (-> & Hc & Hf & Hall).
  split; [reflexivity|]. split; [congruence | exact Hall].
Qed.

End Chunk.

Lemma chunk_index_never_advances_witness :
  exists chunk,
    MessageChunk.__init__ no_data [str "-QQQ"; str "-QQQ"; str "-QQQ"]
      [repeat (CInt 9) 4; repeat (CInt 9) 4; repeat (CInt 9) 4] 0 None 0 []
    = Ok chunk
    /\ MessageChunk.byte_confidence_index chunk = 0.
Proof.
  eexists. split; [vm_compute; reflexivity|].
  refine (proj1 (chunk_index_never_advances no_data [str "-QQQ"; str "-QQQ"; str "-QQQ"]
                   [repeat (CInt 9) 4; repeat (CInt 9) 4; repeat (CInt 9) 4] 0 None 0 [] _
                   _ _ _)).
  - intros x y [].
  - intros x y [].
  - vm_compute. reflexivity.
Defined.

(** ** [MessageChunk.sum_confidence] *)

Lemma sum_from (l : list Z) (a : Z) : fold_left Z.add l a = a + sum l.
Proof.
  unfold sum. revert a. induction l as [|x l IH]; intros a; cbn [fold_left]; [lia|].
  rewrite IH, (IH (0 + x)). lia.
Qed.

Lemma sum_app (l l' : list Z) : sum (l ++ l') = sum l + sum l'.
Proof. unfold sum at 1. rewrite fold_left_app. fold (sum l). now rewrite sum_from. Qed.

Lemma firstn_snoc {A} (l : list A) (i : nat) (d : A) :
  (i < List.length l)%nat -> firstn (S i) l = firstn i l ++ [nth i l d].
Proof.
  revert i. induction l as [|x l IH]; intros i Hi; [cbn in Hi; lia|].
  destruct i as [|i]; [reflexivity|]. cbn [firstn nth app]. f_equal. apply IH.
  cbn [List.length] in Hi. lia.
Qed.

Lemma combine_app {A B} (l1 l2 : list A) (m1 m2 : list B) :
  List.length l1 = List.length m1 -> combine (l1 ++ l2) (m1 ++ m2) = combine l1 m1 ++ combine l2 m2.
Proof.
  revert m1. induction l1 as [|x l1 IH]; intros [|y m1] H; try discriminate H; [reflexivity|].
  cbn [app combine]. f_equal. apply IH. now injection H.
Qed.

Lemma summed_weight_snoc (want : bool) (chars : list pystr) (ds : list Z) (i q r : nat) :
  (i < List.length chars)%nat -> (i < List.length ds)%nat ->
  summed_weight want (firstn (S i) chars) (firstn (S i) ds) q r
  = summed_weight want (firstn i chars) (firstn i ds) q r
    + copy_weight want (nth i chars []) (nth i ds 0) q r.
Proof.
  intros Hc Hd. unfold summed_weight.
  rewrite (firstn_snoc chars i []), (firstn_snoc ds i 0) by assumption.
  rewrite combine_app by (rewrite !length_firstn; lia).
  rewrite map_app, sum_app. cbn [combine map fst snd].
  assert (E1 : forall x, sum [x] = x) by (intros x; unfold sum; cbn [fold_left]; lia).
  now rewrite E1.
Qed.

Lemma add_at_Ok (v : list Z) (p : nat) (d : Z) :
  (p < List.length v)%nat ->
  MessageChunk.add_at v (Z.of_nat p) (Ok d) = Ok (set_nth v p (nth p v 0 + d)).
Proof.
  intros H. unfold MessageChunk.add_at. rewrite (getitem_nat v p 0 H). cbn [bind].
  rewrite setitem_nat by exact H. do 2 f_equal. lia.
Qed.

Lemma slot_index (q r j k : nat) :
  (r < 8)%nat -> (k < 8)%nat ->
  Nat.eqb (8 * q + r) (8 * j + k) = Nat.eqb q j && Nat.eqb r k.
Proof.
  intros Hr Hk.
  destruct (Nat.eqb_spec (8 * q + r) (8 * j + k)), (Nat.eqb_spec q j), (Nat.eqb_spec r k);
    cbn [andb]; try reflexivity; lia.
Qed.

Lemma extra_step (j k q r : nat) (d : Z) (bit : nat -> bool) (want : bool) :
  (if Nat.eqb q j && (r <? S k)%nat && Bool.eqb (bit r) want then d else 0)
  = (if Nat.eqb q j && (r <? k)%nat && Bool.eqb (bit r) want then d else 0)
    + (if Nat.eqb q j && Nat.eqb r k && Bool.eqb (bit k) want then d else 0).
Proof.
  destruct (Nat.eqb_spec r k) as [->|Hrk].
  - rewrite (proj2 (Nat.ltb_lt k (S k))) by lia. rewrite (proj2 (Nat.ltb_ge k k)) by lia.
    rewrite andb_false_r. cbn [andb]. rewrite andb_true_r. lia.
  - assert (E : (r <? S k)%nat = (r <? k)%nat)
      by (destruct (Nat.ltb_spec r (S k)), (Nat.ltb_spec r k); reflexivity || lia).
    rewrite E, andb_false_r. cbn [andb]. lia.
Qed.

Section Sum.
Variable size : nat.

Lemma nth_bump (v : list Z) (j k q r : nat) (d : Z) :
  (j < size)%nat -> (k < 8)%nat -> (r < 8)%nat -> List.length v = (8 * size)%nat ->
  nth (8 * q + r) (set_nth v (8 * j + k) (nth (8 * j + k) v 0 + d)) 0
  = nth (8 * q + r) v 0 + (if Nat.eqb q j && Nat.eqb r k then d else 0).
Proof.
  intros Hj Hk Hr Hv. rewrite nth_set_nth by lia. rewrite slot_index by lia.
  destruct (Nat.eqb_spec q j) as [->|]; cbn [andb]; [|lia].
  destruct (Nat.eqb_spec r k) as [->|]; lia.
Qed.

Lemma bits_loop (confidence : list cval) (i : Z) (d ch : Z) (j : nat) (bt bf : list Z) :
  (c <- getitem confidence i ;; as_int c) = Ok d ->
  (j < size)%nat ->
  List.length bt = (8 * size)%nat -> List.length bf = (8 * size)%nat ->
  exists bt' bf',
    foldM (fun '(bitstrue, bitsfalse) k =>
             let d := (c <- getitem confidence i ;; as_int c) in
             if negb (bit_of ch k =? 0) then
               bitstrue' <- MessageChunk.add_at bitstrue (Z.shiftl (Z.of_nat j) 3 + k) d ;;
               Ok (bitstrue', bitsfalse)
             else
               bitsfalse' <- MessageChunk.add_at bitsfalse (Z.shiftl (Z.of_nat j) 3 + k) d ;;
               Ok (bitstrue, bitsfalse'))
          (range 0 8) (bt, bf) = Ok (bt', bf')
    /\ grown size bt bf bt' bf'
         (fun want q r =>
            if Nat.eqb q j && Bool.eqb (negb (bit_of ch (Z.of_nat r) =? 0)) want
            then d else 0).
Proof.
  intros Hd Hj Hbt Hbf. rewrite ConfidentCharacterFacts.range_0_8.
  set (bit := fun r : nat => negb (bit_of ch (Z.of_nat r) =? 0)).
  destruct (foldM_seq_total
              (fun k (s : list Z * list Z) =>
                 grown size bt bf (fst s) (snd s)
                   (fun want q r =>
                      if Nat.eqb q j && (r <? k)%nat && Bool.eqb (bit r) want
                      then d else 0))
              (fun '(bitstrue, bitsfalse) k =>
                 let d := (c <- getitem confidence i ;; as_int c) in
                 if negb (bit_of ch k =? 0) then
                   bitstrue' <- MessageChunk.add_at bitstrue (Z.shiftl (Z.of_nat j) 3 + k) d ;;
                   Ok (bitstrue', bitsfalse)
                 else
                   bitsfalse' <- MessageChunk.add_at bitsfalse (Z.shiftl (Z.of_nat j) 3 + k) d ;;
                   Ok (bitstrue, bitsfalse'))
              Z.of_nat 8 0 (bt, bf)) as ([bt' bf'] & E & G).
  - cbn [fst snd]. split; [exact Hbt|]. split; [exact Hbf|]. intros q r Hq Hr.
    rewrite andb_false_r. cbn [andb]. lia.
  - intros k [b1 b2] Hk (L1 & L2 & G). cbn [fst snd] in *. cbv zeta. rewrite Hd.
    assert (Ei : Z.shiftl (Z.of_nat j) 3 + Z.of_nat k = Z.of_nat (8 * j + k))
      by (rewrite Z.shiftl_mul_pow2 by lia; change (2 ^ 3) with 8; lia).
    rewrite Ei. fold (bit k).
    destruct (bit k) eqn:Eb; rewrite add_at_Ok by lia; cbn [bind];
      eexists; (split; [reflexivity|]); unfold grown; cbn [fst snd]; rewrite ?length_set_nth;
      (split; [assumption|]); (split; [assumption|]);
      intros q r Hq Hr; destruct (G q r Hq Hr) as [G1 G2];
      rewrite ?nth_bump by lia; rewrite !(extra_step j k q r d bit), Eb, G1, G2;
      cbn [Bool.eqb]; rewrite ?andb_true_r, ?andb_false_r; split; lia.
  - exists bt', bf'. split; [exact E|]. cbn [fst snd Nat.add] in G.
    destruct G as (L1 & L2 & G). split; [exact L1|]. split; [exact L2|].
    intros q r Hq Hr. destruct (G q r Hq Hr) as [G1 G2].
    rewrite (proj2 (Nat.ltb_lt r 8) Hr), andb_true_r in G1, G2. now split.
Qed.

Lemma grown_refl (bt bf : list Z) :
  List.length bt = (8 * size)%nat -> List.length bf = (8 * size)%nat ->
  grown size bt bf bt bf (fun _ _ _ => 0).
Proof. intros H1 H2. split; [exact H1|]. split; [exact H2|]. intros; lia. Qed.

Lemma grown_trans (bt bf bt1 bf1 bt2 bf2 : list Z) (e1 e2 e : bool -> nat -> nat -> Z) :
  grown size bt bf bt1 bf1 e1 -> grown size bt1 bf1 bt2 bf2 e2 ->
  (forall want q r, (q < size)%nat -> (r < 8)%nat -> e want q r = e1 want q r + e2 want q r) ->
  grown size bt bf bt2 bf2 e.
Proof.
  intros (_ & _ & G1) (L1 & L2 & G2) He. split; [exact L1|]. split; [exact L2|].
  intros q r Hq Hr. destruct (G1 q r Hq Hr), (G2 q r Hq Hr).
  rewrite !He by assumption. lia.
Qed.

Lemma chars_loop (confidence : list cval) (i : Z) (d : Z) (copy : pystr) (bt bf : list Z) :
  (c <- getitem confidence i ;; as_int c) = Ok d ->
  (List.length copy <= size)%nat ->
  List.length bt = (8 * size)%nat -> List.length bf = (8 * size)%nat ->
  exists bt' bf',
    foldM (fun acc j =>
             ch <- getitem copy j ;;
             if negb (Z.land ch 0xFF =? 0) then
               foldM (fun '(bitstrue, bitsfalse) k =>
                        let d := (c <- getitem confidence i ;; as_int c) in
                        if negb (bit_of ch k =? 0) then
                          bitstrue' <- MessageChunk.add_at bitstrue (Z.shiftl j 3 + k) d ;;
                          Ok (bitstrue', bitsfalse)
                        else
                          bitsfalse' <- MessageChunk.add_at bitsfalse (Z.shiftl j 3 + k) d ;;
                          Ok (bitstrue, bitsfalse'))
                     (range 0 8) acc
             else Ok acc)
          (range 0 (len copy)) (bt, bf) = Ok (bt', bf')
    /\ grown size bt bf bt' bf' (fun want q r => copy_weight want copy d q r).
Proof.
  intros Hd Hlen Hbt Hbf. unfold len. rewrite range_0.
  destruct (foldM_seq_total
              (fun j (s : list Z * list Z) =>
                 grown size bt bf (fst s) (snd s)
                   (fun want q r => if (q <? j)%nat then copy_weight want copy d q r else 0))
              (fun acc j =>
                 ch <- getitem copy j ;;
                 if negb (Z.land ch 0xFF =? 0) then
                   foldM (fun '(bitstrue, bitsfalse) k =>
                            let d := (c <- getitem confidence i ;; as_int c) in
                            if negb (bit_of ch k =? 0) then
                              bitstrue' <- MessageChunk.add_at bitstrue (Z.shiftl j 3 + k) d ;;
                              Ok (bitstrue', bitsfalse)
                            else
                              bitsfalse' <- MessageChunk.add_at bitsfalse (Z.shiftl j 3 + k) d ;;
                              Ok (bitstrue, bitsfalse'))
                         (range 0 8) acc
                 else Ok acc)
              Z.of_nat (List.length copy) 0 (bt, bf)) as ([bt' bf'] & E & G).
  - cbn [fst snd]. apply grown_refl; assumption.
  - intros j [b1 b2] Hj G. cbn [fst snd] in G.
    rewrite (getitem_nat copy j 0) by lia. cbn [bind].
    assert (Hcw : forall want q r,
               (if (q <? S j)%nat then copy_weight want copy d q r else 0)
               = (if (q <? j)%nat then copy_weight want copy d q r else 0)
                 + (if Nat.eqb q j then copy_weight want copy d j r else 0)).
    { intros want q r. destruct (Nat.eqb_spec q j) as [->|Hne].
      - rewrite (proj2 (Nat.ltb_lt j (S j))) by lia. rewrite (proj2 (Nat.ltb_ge j j)) by lia. lia.
      - destruct (Nat.ltb_spec q (S j)), (Nat.ltb_spec q j); lia. }
    assert (Hj' : (j <? List.length copy)%nat = true) by (apply Nat.ltb_lt; lia).
    destruct (negb (Z.land (nth j copy 0) 0xFF =? 0)) eqn:En.
    + pose proof G as (L1 & L2 & _).
      destruct (bits_loop confidence i d (nth j copy 0) j b1 b2 Hd ltac:(lia) L1 L2)
        as (b1' & b2' & E & G').
      exists (b1', b2'). split; [exact E|]. cbn [fst snd].
      eapply (grown_trans _ _ b1 b2); [exact G | exact G' |].
      intros want q r Hq Hr. rewrite Hcw. f_equal. unfold copy_weight.
      rewrite Hj', En. cbn [andb]. now destruct (Nat.eqb q j).
    + exists (b1, b2). split; [reflexivity|]. cbn [fst snd].
      eapply (grown_trans _ _ b1 b2);
        [exact G | exact (grown_refl b1 b2 (proj1 G) (proj1 (proj2 G))) |].
      intros want q r Hq Hr. rewrite Hcw.
      assert (Hz : copy_weight want copy d j r = 0)
        by (unfold copy_weight; rewrite Hj', En; reflexivity).
      rewrite Hz. destruct (Nat.eqb q j); lia.
  - exists bt', bf'. split; [exact E|]. cbn [fst snd Nat.add] in G.
    eapply (grown_trans _ _ bt' bf');
      [exact G | exact (grown_refl bt' bf' (proj1 G) (proj1 (proj2 G))) |].
    intros want q r Hq Hr. rewrite Z.add_0_r.
    destruct (Nat.ltb_spec q (List.length copy)) as [|Hge]; [reflexivity|].
    unfold copy_weight. rewrite (proj2 (Nat.ltb_ge q (List.length copy)) Hge). reflexivity.
Qed.

End Sum.

Lemma sum_confidence_closed (chars : list pystr) (confidences : list (list cval))
    (ds : list Z) (c0 : list cval) (rest : list (list cval)) :
  confidences = c0 :: rest ->
  List.length chars = List.length confidences ->
  (forall copy, In copy chars -> (List.length copy <= List.length c0)%nat) ->
  diagonal confidences ds ->
  exists bitstrue bitsfalse,
    MessageChunk.sum_confidence chars confidences = Ok (bitstrue, bitsfalse)
    /\ List.length bitstrue = (8 * List.length c0)%nat
    /\ List.length bitsfalse = (8 * List.length c0)%nat
    /\ forall q r, (q < List.length c0)%nat -> (r < 8)%nat ->
         nth (8 * q + r) bitstrue 0 = summed_weight true chars ds q r
         /\ nth (8 * q + r) bitsfalse 0 = summed_weight false chars ds q r.
Proof.
  intros Ec Hn Hlen (Hds & Hdiag). unfold MessageChunk.sum_confidence.
  assert (E0 : getitem confidences 0 = Ok c0) by (rewrite Ec; reflexivity).
  rewrite E0. cbn [bind]. cbv zeta.
  set (size := List.length c0).
  assert (Ez : Z.to_nat (8 * len c0) = (8 * size)%nat) by (unfold len, size; lia).
  rewrite Ez. change (len confidences) with (Z.of_nat (List.length confidences)).
  rewrite (range_0 (List.length confidences)).
  set (zeros := repeat 0 (8 * size)).
  assert (Lz : List.length zeros = (8 * size)%nat) by apply repeat_length.
  match goal with
  | |- context [foldM ?f (map Z.of_nat _) (zeros, zeros)] =>
      destruct (foldM_seq_total
                  (fun i (s : list Z * list Z) =>
                     grown size zeros zeros (fst s) (snd s)
                       (fun want q r =>
                          summed_weight want (firstn i chars) (firstn i ds) q r))
                  f Z.of_nat (List.length confidences) 0 (zeros, zeros))
        as ([bt bf] & E & G)
  end.
  - cbn [fst snd firstn]. apply grown_refl; exact Lz.
  - intros i [b1 b2] Hi G. cbn [fst snd] in G. pose proof G as (L1 & L2 & _).
    rewrite (getitem_nat confidences i []) by lia. cbn [bind].
    rewrite (getitem_nat chars i []) by lia. cbn [bind].
    destruct (chars_loop size (nth i confidences []) (Z.of_nat i) (nth i ds 0)
                (nth i chars []) b1 b2) as (b1' & b2' & E & G').
    + apply Hdiag. lia.
    + apply Hlen, nth_In. lia.
    + exact L1.
    + exact L2.
    + exists (b1', b2'). split; [exact E|]. cbn [fst snd].
      eapply (grown_trans size _ _ b1 b2); [exact G | exact G' |].
      intros want q r Hq Hr. apply summed_weight_snoc; lia.
  - exists bt, bf. split; [exact E|]. cbn [fst snd Nat.add] in G.
    destruct G as (L1 & L2 & G). split; [exact L1|]. split; [exact L2|].
    intros q r Hq Hr. destruct (G q r Hq Hr) as [G1 G2].
    rewrite G1, G2. unfold zeros. rewrite !nth_repeat.
    rewrite !firstn_all2 by lia. split; lia.
Qed.

(** X15. The weights [sum_confidence] computes.  For as many lists of
    characters as lists of confidences, none longer than the first list
    of confidences, and integer confidences [ds] on the diagonal (copy
    [i] counts with the confidence at index [i] of its list, for all of
    its characters): the call returns two vectors of 8 weights for each
    position, and the true weight of bit [r] of position [q] is the sum
    of the confidences of the copies that have a non-null character with
    that bit set there, the false weight the sum for those that have the
    bit clear. *)
Theorem sum_confidence_weights (chars : list pystr) (confidences : list (list cval))
    (ds : list Z) (c0 : list cval) (rest : list (list cval)) :
  confidences = c0 :: rest ->
  List.length chars = List.length confidences ->
  (forall copy, In copy chars -> (List.length copy <= List.length c0)%nat) ->
  diagonal confidences ds ->
  exists bitstrue bitsfalse,
    MessageChunk.sum_confidence chars confidences = Ok (bitstrue, bitsfalse)
    /\ List.length bitstrue = (8 * List.length c0)%nat
    /\ List.length bitsfalse = (8 * List.length c0)%nat
    /\ forall q r, (q < List.length c0)%nat -> (r < 8)%nat ->
         nth (8 * q + r) bitstrue 0 = summed_weight true chars ds q r
         /\ nth (8 * q + r) bitsfalse 0 = summed_weight false chars ds q r.
Proof. apply sum_confidence_closed. Qed.

Lemma diagonal_example :
  diagonal [[CInt 3; CInt 9]; [CInt 9; CInt 5]] [3; 5].
Proof.
  split; [reflexivity|]. intros i Hi. cbn [List.length] in Hi.
  destruct i as [|[|i]]; [reflexivity | reflexivity | lia].
Qed.

Lemma sum_confidence_weights_witness :
  exists bitstrue bitsfalse,
    MessageChunk.sum_confidence [str "AB"; str "A"] [[CInt 3; CInt 9]; [CInt 9; CInt 5]]
    = Ok (bitstrue, bitsfalse)
    /\ List.length bitstrue = 16%nat.
Proof.
  destruct (sum_confidence_weights [str "AB"; str "A"] [[CInt 3; CInt 9]; [CInt 9; CInt 5]]
              [3; 5] [CInt 3; CInt 9] [[CInt 9; CInt 5]] eq_refl eq_refl)
    as (bt & bf & E & L & _).
  - intros copy [<-|[<-|[]]]; cbn; lia.
  - exact diagonal_example.
  - exists bt, bf. split; [exact E | exact L].
Defined.

Lemma sum_cons (x : Z) (l : list Z) : sum (x :: l) = x + sum l.
Proof. change (x :: l) with ([x] ++ l). rewrite sum_app. unfold sum at 1. cbn. lia. Qed.

Lemma summed_weight_repeat (want : bool) (copy : pystr) (ds : list Z) (q r : nat) :
  summed_weight want (repeat copy (List.length ds)) ds q r
  = if (q <? List.length copy)%nat
       && negb (Z.land (nth q copy 0) 0xFF =? 0)
       && Bool.eqb (negb (bit_of (nth q copy 0) (Z.of_nat r) =? 0)) want
    then sum ds else 0.
Proof.
  unfold summed_weight. induction ds as [|d ds IH]; cbn [List.length repeat combine map fst snd].
  - destruct (_ && _ && _); reflexivity.
  - rewrite !sum_cons, IH. unfold copy_weight. destruct (_ && _ && _); lia.
Qed.

Lemma bit_set_low_byte (c : Z) (k : nat) :
  (k < 8)%nat ->
  ConfidentCharacter.bit_set (Z.land c 0xFF) (Z.of_nat k)
  = ConfidentCharacter.bit_set c (Z.of_nat k).
Proof.
  intros Hk. unfold ConfidentCharacter.bit_set. f_equal. f_equal.
  change 1 with (Z.ones 1). rewrite !Z.land_ones by lia.
  rewrite <- !Z.bit0_mod, !Z.shiftr_spec, Z.land_spec by lia. cbn [Z.add].
  replace (Z.testbit 0xFF (Z.of_nat k)) with true; [now rewrite andb_true_r|].
  do 8 (destruct k as [|k]; [reflexivity|]). lia.
Qed.

Lemma low_byte_range (c : Z) : 0 <= Z.land c 0xFF < 256.
Proof.
  change 0xFF with (Z.ones 8). rewrite Z.land_ones by lia. apply Z.mod_pos_bound. lia.
Qed.

Lemma map_seq_nth {A B} (f : A -> B) (g : nat -> B) (l : list A) (d : A) :
  (forall i, (i < List.length l)%nat -> g i = f (nth i l d)) ->
  map g (seq 0 (List.length l)) = map f l.
Proof.
  intros H. apply (nth_ext _ _ (g 0%nat) (f d)).
  - now rewrite !length_map, length_seq.
  - intros i Hi. rewrite length_map, length_seq in Hi.
    rewrite map_nth, seq_nth by exact Hi. rewrite map_nth. cbn. now apply H.
Qed.

(** X16. The vote of identical copies gives the copy back.  For one or
    more copies of the same characters, confidences as long as the
    characters, and integer confidences on the diagonal whose sum is
    positive: [sum_confidence] returns, and [assemble_chars] of its
    weights returns the low bytes of the characters, each with the
    confidence 8 times the summed confidences; a null character gets the
    confidence 0. *)
Theorem vote_of_identical_copies (copy : pystr) (confidences : list (list cval))
    (ds : list Z) (c0 : list cval) (rest : list (list cval)) :
  confidences = c0 :: rest ->
  List.length c0 = List.length copy ->
  diagonal confidences ds ->
  0 < sum ds ->
  exists bitstrue bitsfalse,
    MessageChunk.sum_confidence (repeat copy (List.length confidences)) confidences
    = Ok (bitstrue, bitsfalse)
    /\ MessageChunk.assemble_chars bitstrue bitsfalse
       = Ok (low_bytes copy,
             map (fun c => if Z.land c 0xFF =? 0 then 0 else 8 * sum ds) copy).
Proof.
  intros Ec Hc0 Hd Hpos. pose proof Hd as (Hds & _).
  destruct (sum_confidence_closed (repeat copy (List.length confidences)) confidences ds
              c0 rest Ec) as (bt & bf & E & Lt & Lf & W).
  - apply repeat_length.
  - intros x Hx. apply repeat_spec in Hx. subst x. lia.
  - exact Hd.
  - exists bt, bf. split; [exact E|].
    rewrite (assemble_chars_closed bt bf) by lia. cbv zeta.
    assert (En : (List.length bt / 8)%nat = List.length copy).
    { rewrite Lt, Hc0, Nat.mul_comm. apply Nat.div_mul. lia. }
    rewrite En.
    assert (Hw : forall q r, (q < List.length copy)%nat -> (r < 8)%nat ->
               bit_weight bt bf q r
               = if negb (Z.land (nth q copy 0) 0xFF =? 0)
                 then (if negb (bit_of (nth q copy 0) (Z.of_nat r) =? 0)
                       then sum ds else - sum ds)
                 else 0).
    { intros q r Hq Hr. unfold bit_weight.
      destruct (W q r ltac:(lia) Hr) as [-> ->]. rewrite <- Hds.
      rewrite !summed_weight_repeat. rewrite (proj2 (Nat.ltb_lt _ _) Hq). cbn [andb].
      destruct (negb (Z.land (nth q copy 0) 255 =? 0)); cbn [andb]; [|lia].
      destruct (negb (bit_of (nth q copy 0) (Z.of_nat r) =? 0)); cbn [Bool.eqb]; lia. }
    apply (f_equal Ok). apply f_equal2.
    + unfold low_bytes. apply (map_seq_nth _ _ copy 0). intros q Hq.
      rewrite <- (ConfidentCharacterMerge.byte_of_bits_of_byte (Z.land (nth q copy 0) 255))
        by apply low_byte_range.
      unfold vote_char. f_equal. apply map_ext_in. intros r Hr. apply in_seq in Hr.
      rewrite Hw by lia. rewrite bit_set_low_byte by lia.
      unfold ConfidentCharacter.bit_set, bit_of.
      destruct (Z.eqb_spec (Z.land (nth q copy 0) 255) 0) as [Hz|Hnz]; cbn [negb].
      * assert (Hb : Z.land (Z.shiftr (nth q copy 0) (Z.of_nat r)) 1 = 0).
        { pose proof (bit_set_low_byte (nth q copy 0) r ltac:(lia)) as Hb.
          rewrite Hz in Hb. unfold ConfidentCharacter.bit_set in Hb.
          rewrite Z.shiftr_0_l in Hb. cbn in Hb.
          destruct (Z.eqb_spec (Z.land (Z.shiftr (nth q copy 0) (Z.of_nat r)) 1) 0);
            [assumption | discriminate Hb]. }
        rewrite Hb. reflexivity.
      * destruct (negb (Z.land (Z.shiftr (nth q copy 0) (Z.of_nat r)) 1 =? 0));
          [destruct (Z.gtb_spec (sum ds) 0) | destruct (Z.gtb_spec (- sum ds) 0)];
          reflexivity || lia.
    + apply (map_seq_nth _ _ copy 0). intros q Hq.
      unfold vote_confidence. cbn [map seq]. rewrite !Hw by lia.
      unfold sum at 1. cbn [fold_left].
      destruct (Z.land (nth q copy 0) 255 =? 0); cbn [negb]; [reflexivity|].
      repeat match goal with
             | |- context [if ?b then sum ds else - sum ds] => destruct b
             end; lia.
Qed.

Lemma vote_of_identical_copies_witness :
  exists bitstrue bitsfalse,
    MessageChunk.sum_confidence [str "AB"; str "AB"] [[CInt 3; CInt 9]; [CInt 9; CInt 5]]
    = Ok (bitstrue, bitsfalse)
    /\ MessageChunk.assemble_chars bitstrue bitsfalse = Ok (str "AB", [64; 64]).
Proof.
  apply (vote_of_identical_copies (str "AB") [[CInt 3; CInt 9]; [CInt 9; CInt 5]] [3; 5]
           [CInt 3; CInt 9] [[CInt 9; CInt 5]] eq_refl eq_refl diagonal_example).
  reflexivity.
Defined.

(** ** [SAMEMessage.add_header]: the confidences as a string *)

Lemma str_of_digit (z : Z) : 0 <= z <= 9 -> str_of_Z z = [48 + z].
Proof.
  intros H.
  assert (z = 0 \/ z = 1 \/ z = 2 \/ z = 3 \/ z = 4 \/ z = 5 \/ z = 6 \/ z = 7 \/ z = 8 \/ z = 9)
    as Hz by lia.
  repeat (destruct Hz as [->|Hz]; [reflexivity|]). subst. reflexivity.
Qed.

(** X17. The confidences [add_header] stores for a non-empty list of
    integers from 0 to 9 are a string of as many digits, and [int()] of
    its characters gives the integers back; handed to [add_header]
    again, the string is stored as it is. *)
Theorem stringify_confidence_round_trip (zs : list Z) :
  zs <> [] -> Forall (fun z => 0 <= z <= 9) zs ->
  exists digits,
    SAMEMessage.stringify_confidence (map CInt zs) = Ok digits
    /\ List.length digits = List.length zs
    /\ mapM py_int digits = Ok zs
    /\ SAMEMessage.stringify_confidence digits = Ok digits.
Proof.
  intros Hne Hz. unfold SAMEMessage.stringify_confidence.
  destruct zs as [|z0 zs]; [contradiction|]. clear Hne.
  change (getitem (map CInt (z0 :: zs)) 0) with (Ok (CInt z0)). cbn [bind].
  assert (E : List.concat (map (fun x => match x with
                                        | CInt z => str_of_Z z
                                        | CChr c => [c]
                                        end) (map CInt (z0 :: zs)))
              = map (fun z => 48 + z) (z0 :: zs)).
  { rewrite map_map. induction Hz as [|z l Hz0 _ IH]; [reflexivity|].
    cbn [map List.concat]. rewrite IH, str_of_digit by assumption. reflexivity. }
  rewrite E. exists (map CChr (map (fun z => 48 + z) (z0 :: zs))).
  split; [reflexivity|]. rewrite !length_map. split; [reflexivity|]. split.
  - clear E. induction Hz as [|z l Hz0 _ IH]; [reflexivity|].
    cbn [map mapM py_int]. rewrite IH.
    destruct (Z.leb_spec 48 (48 + z)); [|lia]. destruct (Z.leb_spec (48 + z) 57); [|lia].
    cbn [andb bind]. do 2 f_equal. lia.
  - reflexivity.
Qed.

Lemma stringify_confidence_round_trip_witness :
  exists digits,
    SAMEMessage.stringify_confidence [CInt 9; CInt 0; CInt 3] = Ok digits
    /\ mapM py_int digits = Ok [9; 0; 3].
Proof.
  destruct (stringify_confidence_round_trip [9; 0; 3]) as (digits & E & _ & H & _).
  - discriminate.
  - repeat constructor; lia.
  - exists digits. split; [exact E | exact H].
Defined.

(** ** [SAMEMessage]: what the calls keep *)

Section Frame.
Variable data : nwr_data.
Variable tm : pytime.
Variable clock : nat -> Z.

Lemma fully_received_frame (a b : bool) (w : world SAMEMessage.t) :
  exists r w' fire,
    SAMEMessage.fully_received clock a b w = (r, w')
    /\ received_as (self w) (self w') fire
    /\ (fire = true -> SAMEMessage.received_callback (self w) = true /\ r = Ok true)
    /\ (r = Ok true -> SAMEMessage.received_callback (self w') = false)
    /\ (r = Ok false -> exists l, SAMEMessage.headers (self w) = Some l /\ len l < 3)
    /\ (forall e, r = Raise e -> SAMEMessage.headers (self w) = None).
Proof.
  destruct w as [k s]. destruct s as [tr hs avg cb calls tmo st pub eid].
  unfold SAMEMessage.fully_received, received_as.
  destruct a.
  - unfold bindM, get, SAMEMessage.time_time, now_, modify, ret. cbn [self readings
      SAMEMessage.set_timeout SAMEMessage.timeout SAMEMessage.received_callback xltb andb negb].
    destruct cb; cbn [andb]; do 2 eexists; [exists true | exists false];
      (split; [reflexivity|]); cbn; intuition discriminate.
  - unfold bindM at 1, ret at 1. unfold bindM at 1, get at 1.
    unfold bindM at 1, SAMEMessage.time_time at 1, now_ at 1. cbn [self readings SAMEMessage.timeout
      SAMEMessage.received_callback].
    destruct (xltb tmo (Fin (clock k))).
    + unfold bindM, modify, ret. cbn [andb negb].
      destruct cb; cbn [andb]; do 2 eexists; [exists true | exists false];
        (split; [reflexivity|]); cbn; intuition discriminate.
    + unfold SAMEMessage.len_headers. unfold bindM, get, modify, ret, raise.
      cbn [self readings SAMEMessage.headers].
      destruct hs as [l|].
      2:{ do 2 eexists; exists false; (split; [reflexivity|]); cbn; intuition discriminate. }
      destruct (Z.leb_spec 3 (len l)); cbn [andb negb].
      * destruct cb; cbn [andb]; do 2 eexists; [exists true | exists false];
          (split; [reflexivity|]); cbn; intuition discriminate.
      * destruct b; do 2 eexists; exists false; (split; [reflexivity|]); cbn;
          (repeat split; try discriminate; try (intros [? ?]; discriminate));
          intros _; exists l; (split; [reflexivity | assumption]).
Qed.


Section Invariant.
Variable P : world SAMEMessage.t -> Prop.
Hypothesis P_fully_received : forall a b, preserves P (SAMEMessage.fully_received clock a b).
Hypothesis P_get_SAME_message_with :
  forall after, preserves P after ->
                preserves P (SAMEMessage.get_SAME_message_with data tm clock after).
Hypothesis P_add_header : forall h conf, preserves P (SAMEMessage.add_header clock h conf).

Ltac invariant :=
  repeat first
    [ apply P_fully_received
    | apply P_get_SAME_message_with
    | apply P_add_header
    | apply preserves_ret
    | apply preserves_raise
    | apply preserves_lift
    | apply preserves_get
    | apply preserves_bind; [|intros]
    | match goal with
      | |- preserves _ (let '(_, _) := ?x in _) => destruct x
      | |- preserves _ (if ?c then _ else _) => destruct c
      | |- preserves _ (match ?x with _ => _ end) => destruct x
      end ].

Lemma invariant_get_SAME_message : preserves P (SAMEMessage.get_SAME_message data tm clock).
Proof.
  apply P_get_SAME_message_with. unfold SAMEMessage.name_the_logger. invariant.
Qed.

Lemma invariant_get_duration_str : preserves P (SAMEMessage.get_duration_str data tm clock).
Proof.
  unfold SAMEMessage.get_duration_str.
  apply preserves_bind; [apply invariant_get_SAME_message | intros; apply preserves_ret].
Qed.

Lemma invariant_get_start_time_str : preserves P (SAMEMessage.get_start_time_str data tm clock).
Proof.
  unfold SAMEMessage.get_start_time_str.
  apply preserves_bind; [apply invariant_get_SAME_message | intros; apply preserves_ret].
Qed.

Lemma invariant_get_duration_sec : preserves P (SAMEMessage.get_duration_sec data tm clock).
Proof.
  unfold SAMEMessage.get_duration_sec.
  apply preserves_bind; [apply invariant_get_duration_str | intros].
  apply preserves_bind; [apply preserves_lift | intros].
  apply preserves_bind; [apply preserves_lift | intros; apply preserves_ret].
Qed.

Lemma invariant_get_start_time_sec : preserves P (SAMEMessage.get_start_time_sec data tm clock).
Proof.
  unfold SAMEMessage.get_start_time_sec.
  apply preserves_bind; [apply preserves_get | intros].
  apply preserves_bind; [apply invariant_get_start_time_str | intros].
  apply preserves_bind; [apply preserves_lift | intros].
  apply preserves_bind; [apply invariant_get_start_time_str | intros; apply preserves_lift].
Qed.

Lemma invariant_perform (c : SAMEMessage.call) (w : world SAMEMessage.t) :
  P w -> P (SAMEMessage.perform data tm clock c w).
Proof.
  destruct c; cbn [SAMEMessage.perform]; unfold SAMEMessage.forget; revert w;
    match goal with |- forall w, _ -> P (snd (?m w)) => change (preserves P m) end.
  - apply P_add_header.
  - apply P_fully_received.
  - apply invariant_get_SAME_message.
  - unfold SAMEMessage.get_originator.
    apply preserves_bind; [apply invariant_get_SAME_message | intros; apply preserves_ret].
  - unfold SAMEMessage.get_event_type.
    apply preserves_bind; [apply invariant_get_SAME_message | intros; apply preserves_ret].
  - unfold SAMEMessage.get_counties.
    apply preserves_bind; [apply invariant_get_SAME_message | intros; apply preserves_ret].
  - unfold SAMEMessage.get_areas, SAMEMessage.get_counties.
    apply preserves_bind; [apply invariant_get_SAME_message | intros; apply preserves_ret].
  - apply invariant_get_duration_str.
  - apply invariant_get_start_time_str.
  - apply invariant_get_duration_sec.
  - apply invariant_get_start_time_sec.
  - unfold SAMEMessage.get_end_time_sec.
    apply preserves_bind; [apply invariant_get_start_time_sec | intros].
    apply preserves_bind; [apply invariant_get_duration_sec | intros; apply preserves_ret].
  - unfold SAMEMessage.get_broadcaster.
    apply preserves_bind; [apply invariant_get_SAME_message | intros; apply preserves_ret].
  - unfold SAMEMessage.applies_to_fips. cbv zeta.
    destruct (negb _); [apply preserves_raise|].
    apply preserves_bind; [apply invariant_get_SAME_message | intros; apply preserves_lift].
Qed.

Lemma invariant_perform_all (cs : list SAMEMessage.call) (w : world SAMEMessage.t) :
  P w -> P (SAMEMessage.perform_all data tm clock cs w).
Proof.
  revert w. induction cs as [|c cs IH]; intros w H; [exact H|].
  cbn. apply IH, invariant_perform, H.
Qed.
End Invariant.

(** The statements of [get_SAME_message] and [add_header] around the call
    of [fully_received], for a property that [fully_received] keeps and
    that depends on the headers, the averaged header and the callback
    only through what [fully_received] leaves of them. *)
Lemma get_SAME_message_with_keeps (P : world SAMEMessage.t -> Prop) :
  (forall a b, preserves P (SAMEMessage.fully_received clock a b)) ->
  (forall v w, P w -> P (mk_world (readings w) (SAMEMessage.set_avg_message v (self w)))) ->
  forall after, preserves P after ->
                preserves P (SAMEMessage.get_SAME_message_with data tm clock after).
Proof.
  intros Hfr Havg after Hafter. unfold SAMEMessage.get_SAME_message_with.
  apply preserves_bind; [apply Hfr | intros complete].
  apply preserves_bind; [apply preserves_get | intros s].
  destruct complete.
  - destruct (SAMEMessage.avg_message s); [apply preserves_ret|].
    apply preserves_bind; [destruct (SAMEMessage.headers s);
                           [apply preserves_ret | apply preserves_raise] | intros hs].
    apply preserves_bind; [apply preserves_lift | intros a].
    apply preserves_bind; [apply preserves_modify, Havg | intros _].
    apply preserves_bind; [exact Hafter | intros _].
    apply preserves_bind; [apply preserves_get | intros s'].
    destruct (SAMEMessage.avg_message s'); [apply preserves_ret | apply preserves_raise].
  - unfold SAMEMessage.len_headers.
    apply preserves_bind; [|intros n; destruct (n >? 0); [apply preserves_raise | apply preserves_ret]].
    apply preserves_bind; [apply preserves_get | intros s'].
    destruct (SAMEMessage.headers s'); [apply preserves_ret | apply preserves_raise].
Qed.


(** [add_header] behind its call of [fully_received]. *)
Lemma add_header_cases (h : pystr) (conf : list cval) (w : world SAMEMessage.t) :
  exists r w1 fire,
    SAMEMessage.fully_received clock false false w = (r, w1)
    /\ received_as (self w) (self w1) fire
    /\ match r with
       | Ok true => SAMEMessage.add_header clock h conf w = (Raise ValueError, w1)
       | Ok false =>
           exists l, SAMEMessage.headers (self w) = Some l /\ len l < 3
           /\ let w2 := mk_world (S (readings w1)) (self w1) in
              match SAMEMessage.stringify_confidence conf with
              | Ok digits =>
                  SAMEMessage.add_header clock h conf w
                  = (Ok tt,
                     mk_world (S (readings w1))
                       (SAMEMessage.set_timeout (Fin (clock (readings w1) + 6))
                          (SAMEMessage.set_headers
                             (Some (l ++ [mk_header false (unicodify h) digits
                                            (clock (readings w1))]))
                             (self w1))))
              | Raise e => SAMEMessage.add_header clock h conf w = (Raise e, w2)
              end
       | Raise e => SAMEMessage.add_header clock h conf w = (Raise e, w1)
       end.
Proof.
  destruct (fully_received_frame false false w) as (r & w1 & fire & E & Hrec & _ & _ & Hfalse & _).
  exists r, w1, fire. split; [exact E|]. split; [exact Hrec|].
  assert (Eadd : forall X, X = SAMEMessage.add_header clock h conf w ->
            X = match r with
                | Ok true => (Raise ValueError, w1)
                | Ok false =>
                    match SAMEMessage.stringify_confidence conf with
                    | Ok digits =>
                        match SAMEMessage.headers (self w1) with
                        | Some l =>
                            (Ok tt,
                             mk_world (S (readings w1))
                               (SAMEMessage.set_timeout (Fin (clock (readings w1) + 6))
                                  (SAMEMessage.set_headers
                                     (Some (l ++ [mk_header false (unicodify h) digits
                                                    (clock (readings w1))]))
                                     (self w1))))
                        | None => (Raise AttributeError, mk_world (S (readings w1)) (self w1))
                        end
                    | Raise e => (Raise e, mk_world (S (readings w1)) (self w1))
                    end
                | Raise e => (Raise e, w1)
                end).
  { intros X ->. unfold SAMEMessage.add_header, bindM at 1. rewrite E.
    destruct r as [[|]|e]; try reflexivity.
    unfold bindM, SAMEMessage.time_time, now_, lift, get, modify. cbn [self readings].
    destruct (SAMEMessage.stringify_confidence conf) as [digits|e]; [|reflexivity].
    destruct (SAMEMessage.headers (self w1)); reflexivity. }
  destruct r as [[|]|e]; try (apply Eadd; reflexivity).
  destruct (Hfalse eq_refl) as (l & Hl & Hlen). exists l. split; [exact Hl|]. split; [exact Hlen|].
  cbv zeta. destruct Hrec as (_ & Hh & _). rewrite Hl in Hh.
  destruct (SAMEMessage.stringify_confidence conf) as [digits|e];
    rewrite (Eadd _ eq_refl); [now rewrite Hh | reflexivity].
Qed.

(** *** The callback *)

Lemma budget_fully_received (q : nat) (a b : bool) :
  preserves (fun w => callback_budget (self w) = q) (SAMEMessage.fully_received clock a b).
Proof.
  intros w H. destruct (fully_received_frame a b w) as (r & w' & fire & E & Hrec & Hfire & _).
  rewrite E. cbn [snd]. unfold callback_budget in *.
  destruct Hrec as (_ & _ & _ & _ & _ & _ & Hcb & Hcalls). rewrite Hcb, Hcalls.
  destruct fire; [|exact H]. destruct (Hfire eq_refl) as [Hc _]. rewrite Hc in H. lia.
Qed.

Lemma add_header_keeps (P : world SAMEMessage.t -> Prop) (h : pystr) (conf : list cval) :
  preserves P (SAMEMessage.fully_received clock false false) ->
  (forall w k v t, P w ->
     P (mk_world k (SAMEMessage.set_timeout t (SAMEMessage.set_headers v (self w))))) ->
  (forall w k, P w -> P (mk_world k (self w))) ->
  preserves P (SAMEMessage.add_header clock h conf).
Proof.
  intros Hfr Hset Hbump w H. pose proof (Hfr w H) as H1.
  destruct (add_header_cases h conf w) as (r & w1 & fire & E & _ & Hcase).
  rewrite E in H1. cbn [snd] in H1.
  destruct r as [[|]|e]; [now rewrite Hcase | | now rewrite Hcase].
  destruct Hcase as (l & _ & _ & Hcase). cbv zeta in Hcase.
  destruct (SAMEMessage.stringify_confidence conf); rewrite Hcase; cbn [snd].
  - now apply Hset.
  - now apply Hbump.
Qed.

(** A callback that has run stays unregistered, and is not run again. *)
Lemma spent_fully_received (q : nat) (a b : bool) :
  preserves (fun w => SAMEMessage.received_callback (self w) = false
                      /\ SAMEMessage.callback_calls (self w) = q)
            (SAMEMessage.fully_received clock a b).
Proof.
  intros w [Hcb Hq]. destruct (fully_received_frame a b w) as (r & w' & fire & E & Hrec & Hfire & _).
  rewrite E. cbn [snd].
  destruct Hrec as (_ & _ & _ & _ & _ & _ & Hcb' & Hcalls). rewrite Hcb', Hcalls.
  destruct fire; [|now split]. destruct (Hfire eq_refl) as [Hc _]. congruence.
Qed.

(** X18. The callback runs at most once.  Whatever public methods are
    called and however they end, the number of runs so far plus one for a
    callback that is still registered stays what it was.  Once
    [fully_received] has returned true the callback is unregistered, and
    no later call runs it again. *)
Theorem callback_fires_at_most_once (cs : list SAMEMessage.call) (w : world SAMEMessage.t) :
  let s := self w in
  let s' := self (SAMEMessage.perform_all data tm clock cs w) in
  (SAMEMessage.callback_calls s' + (if SAMEMessage.received_callback s' then 1 else 0)
   = SAMEMessage.callback_calls s + (if SAMEMessage.received_callback s then 1 else 0))%nat
  /\ (forall a b w1, SAMEMessage.fully_received clock a b w = (Ok true, w1) ->
       SAMEMessage.received_callback (self w1) = false
       /\ SAMEMessage.callback_calls (self (SAMEMessage.perform_all data tm clock cs w1))
          = SAMEMessage.callback_calls (self w1)).
Proof.
  cbv zeta. split.
  - change (callback_budget (self (SAMEMessage.perform_all data tm clock cs w))
            = callback_budget (self w)).
    generalize (eq_refl (callback_budget (self w))).
    generalize (callback_budget (self w)) at 2 3 as q. intros q.
    apply (invariant_perform_all (fun w => callback_budget (self w) = q)).
    + apply budget_fully_received.
    + apply get_SAME_message_with_keeps; [apply budget_fully_received | intros v w' H; exact H].
    + intros h conf. apply add_header_keeps;
        [apply budget_fully_received | intros; assumption | intros; assumption].
  - intros a b w1 E.
    destruct (fully_received_frame a b w) as (r & w' & fire & E' & _ & _ & Htrue & _).
    rewrite E in E'. injection E' as <- <-. specialize (Htrue eq_refl).
    split; [exact Htrue|].
    apply (invariant_perform_all
             (fun w => SAMEMessage.received_callback (self w) = false
                       /\ SAMEMessage.callback_calls (self w)
                          = SAMEMessage.callback_calls (self w1))).
    + apply spent_fully_received.
    + apply get_SAME_message_with_keeps; [apply spent_fully_received | intros v w' H; exact H].
    + intros h conf. apply add_header_keeps;
        [apply spent_fully_received | intros; assumption | intros; assumption].
    + now split.
Qed.

(** *** The number of headers *)

Lemma three_fully_received (a b : bool) :
  preserves at_most_three (SAMEMessage.fully_received clock a b).
Proof.
  intros w H. destruct (fully_received_frame a b w) as (r & w' & fire & E & Hrec & _).
  rewrite E. cbn [snd]. unfold at_most_three in *.
  destruct Hrec as (_ & Hh & _). now rewrite Hh.
Qed.

Lemma three_add_header (h : pystr) (conf : list cval) :
  preserves at_most_three (SAMEMessage.add_header clock h conf).
Proof.
  intros w H. pose proof (three_fully_received false false w H) as H1.
  destruct (add_header_cases h conf w) as (r & w1 & fire & E & _ & Hcase).
  rewrite E in H1. cbn [snd] in H1.
  destruct r as [[|]|e]; [now rewrite Hcase | | now rewrite Hcase].
  destruct Hcase as (l & _ & Hlen & Hcase). cbv zeta in Hcase.
  destruct (SAMEMessage.stringify_confidence conf); rewrite Hcase; [|exact H1].
  unfold at_most_three. cbn [snd self SAMEMessage.headers SAMEMessage.set_timeout
                               SAMEMessage.set_headers].
  unfold len in *. rewrite length_app. cbn [List.length]. lia.
Qed.

(** X19. A message never holds more than three headers: whatever public
    methods are called on a message that holds three headers at most (a
    new message holds none), it holds three at most afterwards. *)
Theorem headers_at_most_three (cs : list SAMEMessage.call) (w : world SAMEMessage.t) :
  at_most_three w -> at_most_three (SAMEMessage.perform_all data tm clock cs w).
Proof.
  apply invariant_perform_all.
  - apply three_fully_received.
  - apply get_SAME_message_with_keeps; [apply three_fully_received | intros v w' H; exact H].
  - apply three_add_header.
Qed.

(** *** Only tuples *)

Lemma average_message_tuples (hs : list header) (transmitter : option pystr) :
  Forall (fun h => is_list h = false) hs ->
  exists e, average_message data tm hs transmitter = Raise e.
Proof.
  intros H. unfold average_message. destruct H as [|h0 hs' H0 _].
  - now exists IndexError.
  - change (getitem (h0 :: hs') 0) with (Ok h0). cbn [bind foldM].
    destruct (split_message (h_message h0) (h_confidences h0)) as [[[sm sc] n]|e];
      cbn [bind]; [|now exists e].
    rewrite H0. cbn [bind]. now exists TypeError.
Qed.

Lemma tuples_fully_received (a b : bool) :
  preserves fed_by_add_header (SAMEMessage.fully_received clock a b).
Proof.
  intros w H. destruct (fully_received_frame a b w) as (r & w' & fire & E & Hrec & _).
  rewrite E. cbn [snd]. unfold fed_by_add_header in *.
  destruct Hrec as (_ & Hh & Ha & _). now rewrite Hh, Ha.
Qed.

Lemma tuples_add_header (h : pystr) (conf : list cval) :
  preserves fed_by_add_header (SAMEMessage.add_header clock h conf).
Proof.
  intros w H. pose proof (tuples_fully_received false false w H) as H1.
  destruct (add_header_cases h conf w) as (r & w1 & fire & E & Hrec & Hcase).
  rewrite E in H1. cbn [snd] in H1.
  destruct r as [[|]|e]; [now rewrite Hcase | | now rewrite Hcase].
  destruct Hcase as (l & Hl & _ & Hcase). cbv zeta in Hcase.
  destruct (SAMEMessage.stringify_confidence conf); rewrite Hcase; [|exact H1].
  destruct H as (Ha & l' & Hl' & Hall). rewrite Hl in Hl'. injection Hl' as <-.
  destruct Hrec as (_ & _ & Ha1 & _).
  split; [cbn; congruence|]. eexists. split; [reflexivity|].
  apply Forall_app. split; [exact Hall | repeat constructor].
Qed.

Lemma tuples_get_SAME_message_with (after : M SAMEMessage.t unit) (w : world SAMEMessage.t) :
  fed_by_add_header w ->
  exists r w',
    SAMEMessage.get_SAME_message_with data tm clock after w = (r, w')
    /\ fed_by_add_header w'
    /\ (r = Ok ([], []) \/ exists e, r = Raise e)
    /\ (SAMEMessage.headers (self w) <> Some [] -> exists e, r = Raise e).
Proof.
  intros H. pose proof (tuples_fully_received false false w H) as H1.
  destruct (fully_received_frame false false w) as (r & w1 & fire & E & Hrec & _).
  rewrite E in H1. cbn [snd] in H1.
  unfold SAMEMessage.get_SAME_message_with, bindM at 1. rewrite E.
  destruct r as [complete|e].
  2:{ do 2 eexists. split; [reflexivity|]. split; [exact H1|]. split; [right|]; now exists e. }
  unfold bindM at 1, get at 1.
  destruct H1 as (Ha & l & Hl & Hall). cbn [self].
  assert (Hhs : SAMEMessage.headers (self w) = Some l)
    by (destruct Hrec as (_ & Hh & _); congruence).
  destruct complete.
  - rewrite Ha, Hl. unfold bindM, ret, lift.
    destruct (average_message_tuples l (SAMEMessage.transmitter (self w1)) Hall) as (e & ->).
    do 2 eexists. split; [reflexivity|].
    split; [split; [exact Ha | now exists l]|]. split; [right|]; now exists e.
  - unfold SAMEMessage.len_headers, bindM, get, ret, raise. rewrite Hl.
    destruct (Z.gtb_spec (len l) 0) as [Hpos|Hz]; do 2 eexists; (split; [reflexivity|]);
      (split; [split; [exact Ha | now exists l]|]).
    + split; [right|]; now exists TypeError.
    + split; [now left|]. intros Hne. destruct l; [congruence | unfold len in Hz; cbn in Hz; lia].
Qed.

(** X20. A message fed by [add_header] never yields an averaged header.
    [add_header] stores each copy as a tuple, and [average_message]
    raises on a tuple (and on an empty list).  So for a message without a
    stored average whose copies are all tuples, after any calls of public
    methods: [get_SAME_message] returns nothing but the pair of the empty
    string and the empty list, and it raises as soon as one header is
    in. *)
Theorem never_averages (cs : list SAMEMessage.call) (w : world SAMEMessage.t) :
  fed_by_add_header w ->
  let w' := SAMEMessage.perform_all data tm clock cs w in
  fed_by_add_header w'
  /\ (forall r w'', SAMEMessage.get_SAME_message data tm clock w' = (Ok r, w'') -> r = ([], []))
  /\ (SAMEMessage.headers (self w') <> Some [] ->
      exists e, fst (SAMEMessage.get_SAME_message data tm clock w') = Raise e).
Proof.
  intros H. cbv zeta.
  assert (H' : fed_by_add_header (SAMEMessage.perform_all data tm clock cs w)).
  { revert H. apply invariant_perform_all.
    - apply tuples_fully_received.
    - intros after _ w' Hw.
      destruct (tuples_get_SAME_message_with after w' Hw) as (r & w'' & E & Hf & _).
      now rewrite E.
    - apply tuples_add_header. }
  split; [exact H'|].
  destruct (tuples_get_SAME_message_with (SAMEMessage.name_the_logger data tm clock) _ H')
    as (r & w'' & E & _ & Hr & Hne).
  unfold SAMEMessage.get_SAME_message. rewrite E. split.
  - intros r' w3 [= -> <-]. destruct Hr as [[= ->]|(e & [=])]. reflexivity.
  - intros Hh. cbn [fst]. now apply Hne.
Qed.


(** *** Three headers *)

Lemma fully_received_incomplete (w : world SAMEMessage.t) (l : list header) :
  SAMEMessage.headers (self w) = Some l -> len l < 3 ->
  xltb (SAMEMessage.timeout (self w)) (Fin (clock (readings w))) = false ->
  SAMEMessage.fully_received clock false false w
  = (Ok false, mk_world (S (readings w)) (self w)).
Proof.
  destruct w as [k s]. destruct s as [tr hs avg cb calls tmo st pub eid].
  cbn [self readings SAMEMessage.headers SAMEMessage.timeout]. intros -> Hlen Ht.
  unfold SAMEMessage.fully_received.
  unfold bindM at 1, ret at 1. unfold bindM at 1, get at 1.
  unfold bindM at 1, SAMEMessage.time_time at 1, now_ at 1.
  cbn [self readings SAMEMessage.timeout SAMEMessage.received_callback]. rewrite Ht.
  unfold SAMEMessage.len_headers. unfold bindM, get, modify, ret, raise.
  cbn [self readings SAMEMessage.headers].
  destruct (Z.leb_spec 3 (len l)); [lia|]. reflexivity.
Qed.

Lemma add_header_accepts (h : pystr) (conf : list cval) (w : world SAMEMessage.t)
    (l : list header) :
  SAMEMessage.headers (self w) = Some l -> len l < 3 ->
  xltb (SAMEMessage.timeout (self w)) (Fin (clock (readings w))) = false ->
  conf <> [] ->
  exists digits,
    SAMEMessage.add_header clock h conf w
    = (Ok tt,
       mk_world (S (S (readings w)))
         (SAMEMessage.set_timeout (Fin (clock (S (readings w)) + 6))
            (SAMEMessage.set_headers
               (Some (l ++ [mk_header false (unicodify h) digits (clock (S (readings w)))]))
               (self w)))).
Proof.
  intros Hl Hlen Ht Hc.
  assert (Hs : exists digits, SAMEMessage.stringify_confidence conf = Ok digits).
  { unfold SAMEMessage.stringify_confidence. destruct conf as [|c0 conf]; [contradiction|].
    change (getitem (c0 :: conf) 0) with (Ok c0). cbn [bind]. destruct c0; eexists; reflexivity. }
  destruct Hs as (digits & Hs). exists digits.
  destruct (add_header_cases h conf w) as (r & w1 & fire & E & _ & Hcase).
  rewrite (fully_received_incomplete w l Hl Hlen Ht) in E. injection E as <- <-.
  destruct Hcase as (l' & Hl' & _ & Hcase). cbv zeta in Hcase. rewrite Hs in Hcase.
  rewrite Hl in Hl'. injection Hl' as <-. exact Hcase.
Qed.

(** X21. Three headers complete a message.  On a message without
    headers whose timeout has not passed, read by a clock that advances
    by 6 seconds at most from one reading to the next, three calls of
    [add_header] with non-empty confidences are all accepted: the message
    then holds the three headers, made printable, as tuples and in the
    order given; [fully_received] returns true, and a fourth
    [add_header] raises [ValueError]. *)
Theorem three_headers_complete (w : world SAMEMessage.t) (t : Z)
    (h1 h2 h3 h4 : pystr) (c1 c2 c3 c4 : list cval) :
  SAMEMessage.headers (self w) = Some [] ->
  SAMEMessage.timeout (self w) = Fin t -> clock (readings w) <= t ->
  (forall k, clock (S k) <= clock k + 6) ->
  c1 <> [] -> c2 <> [] -> c3 <> [] ->
  let w3 := SAMEMessage.perform_all data tm clock
              [SAMEMessage.Call_add_header h1 c1; SAMEMessage.Call_add_header h2 c2;
               SAMEMessage.Call_add_header h3 c3] w in
  (exists l, SAMEMessage.headers (self w3) = Some l
             /\ map h_message l = [unicodify h1; unicodify h2; unicodify h3]
             /\ map is_list l = [false; false; false])
  /\ fst (SAMEMessage.fully_received clock false false w3) = Ok true
  /\ fst (SAMEMessage.add_header clock h4 c4 w3) = Raise ValueError.
Proof.
  intros Hh Ht Hnow Hgap N1 N2 N3. cbv zeta.
  cbn [SAMEMessage.perform_all fold_left SAMEMessage.perform]. unfold SAMEMessage.forget.
  destruct (add_header_accepts h1 c1 w [] Hh ltac:(unfold len; cbn; lia)) as (d1 & E1).
  { rewrite Ht. cbn [xltb]. apply Z.ltb_ge. exact Hnow. }
  { exact N1. }
  rewrite E1. cbn [snd app].
  match goal with |- context [SAMEMessage.add_header clock h2 c2 ?w1] =>
    destruct (add_header_accepts h2 c2 w1 _ eq_refl ltac:(unfold len; cbn; lia)) as (d2 & E2)
  end.
  { cbn [self readings SAMEMessage.timeout SAMEMessage.set_timeout]. cbn [xltb].
    apply Z.ltb_ge. apply Hgap. }
  { exact N2. }
  rewrite E2. cbn [snd app self readings SAMEMessage.set_headers SAMEMessage.set_timeout
                    SAMEMessage.headers SAMEMessage.transmitter SAMEMessage.avg_message
                    SAMEMessage.received_callback SAMEMessage.callback_calls
                    SAMEMessage.start_time SAMEMessage.published SAMEMessage.event_id].
  match goal with |- context [SAMEMessage.add_header clock h3 c3 ?w2] =>
    destruct (add_header_accepts h3 c3 w2 _ eq_refl ltac:(unfold len; cbn; lia)) as (d3 & E3)
  end.
  { cbn [self readings SAMEMessage.timeout SAMEMessage.set_timeout]. cbn [xltb].
    apply Z.ltb_ge. apply Hgap. }
  { exact N3. }
  rewrite E3. cbn [snd app self readings SAMEMessage.set_headers SAMEMessage.set_timeout
                    SAMEMessage.headers SAMEMessage.transmitter SAMEMessage.avg_message
                    SAMEMessage.received_callback SAMEMessage.callback_calls
                    SAMEMessage.start_time SAMEMessage.published SAMEMessage.event_id].
  split; [eexists; split; [reflexivity|]; split; reflexivity|].
  match goal with |- context [SAMEMessage.fully_received clock false false ?w3] =>
    destruct (fully_received_frame false false w3) as (r & w4 & fire & E & _ & _ & _ & Hfalse & Hraise);
    destruct (add_header_cases h4 c4 w3) as (r' & w4' & fire' & E' & _ & Hcase)
  end.
  rewrite E in E'. injection E' as <- <-. rewrite E. cbn [fst].
  destruct r as [[|]|e].
  - split; [reflexivity|]. now rewrite Hcase.
  - destruct (Hfalse eq_refl) as (l & Hl & Hlen). cbn in Hl. injection Hl as <-.
    unfold len in Hlen. cbn in Hlen. lia.
  - specialize (Hraise e eq_refl). cbn in Hraise. discriminate Hraise.
Qed.

(** *** After completion *)

(** A complete message that holds its averaged header hands it out, and
    is left as [fully_received] leaves it. *)
Lemma get_SAME_message_with_stored (after : M SAMEMessage.t unit)
    (w w1 : world SAMEMessage.t) (a : pystr * list cval) :
  SAMEMessage.avg_message (self w) = Some a ->
  SAMEMessage.fully_received clock false false w = (Ok true, w1) ->
  SAMEMessage.get_SAME_message_with data tm clock after w = (Ok a, w1).
Proof.
  intros Ha E.
  destruct (fully_received_frame false false w) as (r & w' & fire & E' & Hrec & _).
  rewrite E in E'. injection E' as <- <-.
  destruct Hrec as (_ & _ & Ha' & _). rewrite Ha in Ha'.
  unfold SAMEMessage.get_SAME_message_with, bindM at 1. rewrite E.
  unfold bindM at 1, get at 1. cbv beta iota. rewrite Ha'. reflexivity.
Qed.

Section Completed.
Hypothesis clock_mono : nondecreasing clock.

Lemma completed_fully_received (hs : option (list header))
    (av : option (pystr * list cval)) (a b : bool) :
  preserves (fun w => latched clock w /\ SAMEMessage.headers (self w) = hs
                      /\ SAMEMessage.avg_message (self w) = av)
            (SAMEMessage.fully_received clock a b).
Proof.
  intros w (HL & Hh & Ha).
  destruct (fully_received_latched clock clock_mono a b w HL) as (w' & E & HL').
  destruct (fully_received_frame a b w) as (r & w1 & fire & E' & Hrec & _).
  rewrite E in E'. injection E' as <- <-. rewrite E. cbn [snd].
  split; [exact HL'|]. destruct Hrec as (_ & Hh' & Ha' & _). split; congruence.
Qed.

Lemma completed_add_header (h : pystr) (conf : list cval) (w : world SAMEMessage.t) :
  latched clock w ->
  exists w', SAMEMessage.add_header clock h conf w = (Raise ValueError, w')
             /\ latched clock w'
             /\ SAMEMessage.headers (self w') = SAMEMessage.headers (self w)
             /\ SAMEMessage.avg_message (self w') = SAMEMessage.avg_message (self w).
Proof.
  intros HL. destruct (fully_received_latched clock clock_mono false false w HL) as (w' & E & HL').
  destruct (add_header_cases h conf w) as (r & w1 & fire & E' & Hrec & Hcase).
  rewrite E in E'. injection E' as <- <-.
  exists w'. split; [exact Hcase|]. split; [exact HL'|].
  destruct Hrec as (_ & Hh & Ha & _). now split.
Qed.

(** On a complete message [get_SAME_message] returns the stored average,
    or fails to average the tuples; either way it leaves what
    [fully_received] leaves. *)
Lemma completed_get_SAME_message_with (hs : option (list header))
    (av : option (pystr * list cval)) (after : M SAMEMessage.t unit) :
  (av <> None \/ exists l, hs = Some l /\ Forall (fun h => is_list h = false) l) ->
  preserves (fun w => latched clock w /\ SAMEMessage.headers (self w) = hs
                      /\ SAMEMessage.avg_message (self w) = av)
            (SAMEMessage.get_SAME_message_with data tm clock after).
Proof.
  intros HN w H. pose proof (completed_fully_received hs av false false w H) as H1.
  destruct H as (HL & _).
  destruct (fully_received_latched clock clock_mono false false w HL) as (w' & E & _).
  rewrite E in H1. cbn [snd] in H1. destruct H1 as (HL' & Hh' & Ha').
  assert (Hres : exists r, SAMEMessage.get_SAME_message_with data tm clock after w = (r, w')).
  { unfold SAMEMessage.get_SAME_message_with, bindM at 1. rewrite E.
    unfold bindM at 1, get at 1. cbv beta iota. rewrite Ha'.
    destruct av as [a|]; [now exists (Ok a)|].
    destruct HN as [HN|(l & -> & Hall)]; [contradiction|].
    rewrite Hh'. unfold bindM, ret, lift.
    destruct (average_message_tuples l (SAMEMessage.transmitter (self w')) Hall) as (e & ->).
    now exists (Raise e). }
  destruct Hres as (r & ->). cbn [snd]. now repeat split.
Qed.

(** X22. After completion the message is frozen.  Take a message whose
    averaged header is stored already or whose received copies are all
    tuples (as [add_header] stores them), so that averaging overwrites no
    copy.  Under a nondecreasing clock, once [fully_received] has
    returned true, no sequence of public calls changes the list of
    headers or the averaged header, and every later [add_header] raises
    [ValueError] and leaves both as they are. *)
Theorem headers_frozen_after_completion (a b : bool) (w w1 : world SAMEMessage.t)
    (cs : list SAMEMessage.call) (h : pystr) (conf : list cval) :
  no_list_to_average w ->
  SAMEMessage.fully_received clock a b w = (Ok true, w1) ->
  let w2 := SAMEMessage.perform_all data tm clock cs w1 in
  SAMEMessage.headers (self w2) = SAMEMessage.headers (self w1)
  /\ SAMEMessage.avg_message (self w2) = SAMEMessage.avg_message (self w1)
  /\ exists w3, SAMEMessage.add_header clock h conf w2 = (Raise ValueError, w3)
                /\ SAMEMessage.headers (self w3) = SAMEMessage.headers (self w1)
                /\ SAMEMessage.avg_message (self w3) = SAMEMessage.avg_message (self w1).
Proof.
  intros HN E. cbv zeta.
  pose proof (fully_received_true_latched clock a b w w1 E) as HL.
  assert (HN1 : SAMEMessage.avg_message (self w1) <> None
                \/ exists l, SAMEMessage.headers (self w1) = Some l
                             /\ Forall (fun h => is_list h = false) l).
  { destruct (fully_received_frame a b w) as (r & w' & fire & E' & Hrec & _).
    rewrite E in E'. injection E' as <- <-.
    destruct Hrec as (_ & Hh & Ha & _). unfold no_list_to_average in HN.
    now rewrite Hh, Ha. }
  assert (H2 : latched clock (SAMEMessage.perform_all data tm clock cs w1)
               /\ SAMEMessage.headers (self (SAMEMessage.perform_all data tm clock cs w1))
                  = SAMEMessage.headers (self w1)
               /\ SAMEMessage.avg_message (self (SAMEMessage.perform_all data tm clock cs w1))
                  = SAMEMessage.avg_message (self w1)).
  { apply (invariant_perform_all
             (fun w => latched clock w
                       /\ SAMEMessage.headers (self w) = SAMEMessage.headers (self w1)
                       /\ SAMEMessage.avg_message (self w) = SAMEMessage.avg_message (self w1))).
    - apply completed_fully_received.
    - intros after _. now apply completed_get_SAME_message_with.
    - intros h' conf' w' (HL' & Hh & Ha).
      destruct (completed_add_header h' conf' w' HL') as (w'' & -> & HL'' & Hh' & Ha').
      cbn [snd]. split; [exact HL''|]. split; congruence.
    - now repeat split. }
  destruct H2 as (HL2 & Hh2 & Ha2). split; [exact Hh2|]. split; [exact Ha2|].
  destruct (completed_add_header h conf _ HL2) as (w3 & E3 & _ & Hh3 & Ha3).
  exists w3. split; [exact E3|]. split; congruence.
Qed.

(** What [get_SAME_message] returns on a complete message is the
    averaged header it holds afterwards. *)
Lemma returned_average_stored (w2 w3 : world SAMEMessage.t) (m : pystr * list cval) :
  latched clock w2 ->
  SAMEMessage.get_SAME_message data tm clock w2 = (Ok m, w3) ->
  latched clock w3 /\ SAMEMessage.avg_message (self w3) = Some m.
Proof.
  intros HL E. split.
  - pose proof (preserves_get_SAME_message data tm clock clock_mono w2 HL) as H.
    now rewrite E in H.
  - destruct (fully_received_latched clock clock_mono false false w2 HL) as (w' & Efr & _).
    revert E. unfold SAMEMessage.get_SAME_message, SAMEMessage.get_SAME_message_with.
    unfold bindM at 1. rewrite Efr. unfold bindM at 1, get at 1. cbv beta iota.
    destruct (SAMEMessage.avg_message (self w')) as [a0|] eqn:Ea.
    + unfold ret. intros [= <- <-]. exact Ea.
    + unfold bindM at 1.
      destruct (SAMEMessage.headers (self w')) as [l|]; [|discriminate].
      unfold ret at 1. unfold bindM at 1, lift at 1.
      destruct (average_message data tm l (SAMEMessage.transmitter (self w'))) as [a0|e];
        [|discriminate].
      unfold bindM at 1, modify at 1. unfold bindM at 1.
      destruct (SAMEMessage.name_the_logger data tm clock _) as [[[]|e] w4]; [|discriminate].
      unfold bindM, get.
      destruct (SAMEMessage.avg_message (self w4)) as [a'|] eqn:Ea'; [|discriminate].
      unfold ret. intros [= <- <-]. exact Ea'.
Qed.

(** X30. A complete message keeps handing out one averaged header.
    Under a nondecreasing clock, once [fully_received] has returned
    true, the header that a returning [get_SAME_message] hands out is
    stored, and after any further public calls it is still stored,
    [fully_received] still answers true, and [get_SAME_message] returns
    that same header. *)
Theorem stored_average_is_served (a b : bool) (w w1 w3 : world SAMEMessage.t)
    (cs cs' : list SAMEMessage.call) (m : pystr * list cval) :
  SAMEMessage.fully_received clock a b w = (Ok true, w1) ->
  SAMEMessage.get_SAME_message data tm clock (SAMEMessage.perform_all data tm clock cs w1)
  = (Ok m, w3) ->
  let w4 := SAMEMessage.perform_all data tm clock cs' w3 in
  SAMEMessage.avg_message (self w4) = Some m
  /\ fst (SAMEMessage.fully_received clock false false w4) = Ok true
  /\ fst (SAMEMessage.get_SAME_message data tm clock w4) = Ok m.
Proof.
  intros E Eget. cbv zeta.
  pose proof (fully_received_true_latched clock a b w w1 E) as HL1.
  assert (HL2 : latched clock (SAMEMessage.perform_all data tm clock cs w1)).
  { revert HL1. apply invariant_perform_all.
    - apply (preserves_fully_received clock clock_mono).
    - intros after. apply (preserves_get_SAME_message_with data tm clock clock_mono).
    - apply (preserves_add_header clock clock_mono). }
  destruct (returned_average_stored _ _ _ HL2 Eget) as [HL3 Ha3].
  assert (H4 : latched clock (SAMEMessage.perform_all data tm clock cs' w3)
               /\ SAMEMessage.headers (self (SAMEMessage.perform_all data tm clock cs' w3))
                  = SAMEMessage.headers (self w3)
               /\ SAMEMessage.avg_message (self (SAMEMessage.perform_all data tm clock cs' w3))
                  = Some m).
  { apply (invariant_perform_all
             (fun w => latched clock w
                       /\ SAMEMessage.headers (self w) = SAMEMessage.headers (self w3)
                       /\ SAMEMessage.avg_message (self w) = Some m)).
    - apply completed_fully_received.
    - intros after _. apply completed_get_SAME_message_with. left. discriminate.
    - intros h' conf' w' (HL' & Hh & Ha).
      destruct (completed_add_header h' conf' w' HL') as (w'' & -> & HL'' & Hh' & Ha').
      cbn [snd]. split; [exact HL''|]. split; congruence.
    - now repeat split. }
  destruct H4 as (HL4 & _ & Ha4). split; [exact Ha4|].
  destruct (fully_received_latched clock clock_mono false false _ HL4) as (w5 & E5 & _).
  rewrite E5. split; [reflexivity|].
  unfold SAMEMessage.get_SAME_message.
  now rewrite (get_SAME_message_with_stored _ _ w5 m Ha4 E5).
Qed.

End Completed.

End Frame.

Lemma callback_fires_at_most_once_witness :
  let clock := ticking 1000 1 in
  let w := mk_world 0 (SAMEMessage.mk None (Some []) None true 0 (Fin 0) 0 0
                         (SAMEMessage.IdStamp None 0)) in
  exists w1,
    SAMEMessage.fully_received clock false false w = (Ok true, w1)
    /\ SAMEMessage.received_callback (self w1) = false
    /\ SAMEMessage.callback_calls
         (self (SAMEMessage.perform_all no_data Utc.time clock
                  [SAMEMessage.Call_fully_received false true; SAMEMessage.Call_get_counties] w1))
       = SAMEMessage.callback_calls (self w1).
Proof.
  intros clock w. eexists. split; [vm_compute; reflexivity|].
  destruct (callback_fires_at_most_once no_data Utc.time clock
              [SAMEMessage.Call_fully_received false true; SAMEMessage.Call_get_counties] w)
    as [_ H].
  apply (H false false). vm_compute. reflexivity.
Defined.

Lemma headers_at_most_three_witness :
  at_most_three
    (SAMEMessage.perform_all no_data Utc.time (ticking 1000 1)
       [SAMEMessage.Call_add_header clean_header (repeat (CInt 9) 52);
        SAMEMessage.Call_get_SAME_message]
       (fresh no_data Utc.time (ticking 1000 1))).
Proof.
  apply headers_at_most_three. vm_compute. discriminate.
Defined.

Lemma never_averages_witness :
  fed_by_add_header
    (SAMEMessage.perform_all no_data Utc.time (ticking 1000 1)
       [SAMEMessage.Call_add_header clean_header (repeat (CInt 9) 52)]
       (fresh no_data Utc.time (ticking 1000 1))).
Proof.
  apply (never_averages no_data Utc.time (ticking 1000 1)).
  split; [reflexivity|]. exists []. split; [reflexivity | constructor].
Defined.

Lemma three_headers_complete_witness :
  let clock := ticking 1000 1 in
  let nine := repeat (CInt 9) 52 in
  fst (SAMEMessage.add_header clock clean_header nine
         (SAMEMessage.perform_all no_data Utc.time clock
            [SAMEMessage.Call_add_header clean_header nine;
             SAMEMessage.Call_add_header clean_header nine;
             SAMEMessage.Call_add_header clean_header nine]
            (fresh no_data Utc.time clock)))
  = Raise ValueError.
Proof.
  intros clock nine.
  apply (three_headers_complete no_data Utc.time clock (fresh no_data Utc.time clock) 1006
           clean_header clean_header clean_header clean_header nine nine nine nine).
  - reflexivity.
  - reflexivity.
  - vm_compute. discriminate.
  - intros k. unfold clock, ticking. lia.
  - discriminate.
  - discriminate.
  - discriminate.
Defined.

Lemma headers_frozen_after_completion_witness :
  let clock := ticking 1000 1 in
  let w := mk_world 0 (SAMEMessage.mk None (Some []) None false 0 (Fin 0) 0 0
                         (SAMEMessage.IdStamp None 0)) in
  exists w1,
    SAMEMessage.fully_received clock false false w = (Ok true, w1)
    /\ SAMEMessage.headers
         (self (SAMEMessage.perform_all no_data Utc.time clock
                  [SAMEMessage.Call_add_header clean_header (repeat (CInt 9) 52)] w1))
       = SAMEMessage.headers (self w1).
Proof.
  intros clock w. eexists. split; [vm_compute; reflexivity|].
  refine (proj1 (headers_frozen_after_completion no_data Utc.time clock
                   (ticking_nondecreasing 1000 1 ltac:(lia)) false false w _
                   [SAMEMessage.Call_add_header clean_header (repeat (CInt 9) 52)]
                   [] [] _ _)).
  - right. exists []. split; [reflexivity | constructor].
  - vm_compute. reflexivity.
Defined.

Lemma stored_average_is_served_witness :
  fst (SAMEMessage.get_SAME_message no_data Utc.time (ticking 2000 1)
         (SAMEMessage.perform_all no_data Utc.time (ticking 2000 1)
            [SAMEMessage.Call_get_counties; SAMEMessage.Call_fully_received false true]
            (mk_world 2 averaged_example)))
  = Ok (clean_header, repeat (CInt 9) 52).
Proof.
  refine (proj2 (proj2
    (stored_average_is_served no_data Utc.time (ticking 2000 1)
       (ticking_nondecreasing 2000 1 ltac:(lia)) false false
       (mk_world 0 averaged_example) (mk_world 1 averaged_example)
       (mk_world 2 averaged_example) []
       [SAMEMessage.Call_get_counties; SAMEMessage.Call_fully_received false true]
       (clean_header, repeat (CInt 9) 52) _ _))).
  - reflexivity.
  - reflexivity.
Defined.

(** ** [SAMEMessage.applies_to_fips] *)

Section Fips.
Variable data : nwr_data.
Variable tm : pytime.
Variable clock : nat -> Z.

Lemma range7_bounds (a b i : Z) : In i (range7 a b) -> a <= i < b.
Proof.
  unfold range7. rewrite in_map_iff. intros (k & <- & Hk). apply in_seq in Hk.
  destruct (Z.le_gt_cases (b - a + 6) 6) as [Hs|Hs].
  - assert ((b - a + 6) / 7 <= 0).
    { destruct (Z.le_gt_cases 0 (b - a + 6)).
      - rewrite Z.div_small by lia. lia.
      - pose proof (Z.div_lt_upper_bound (b - a + 6) 7 0 ltac:(lia) ltac:(lia)). lia. }
    lia.
  - pose proof (Z.mul_div_le (b - a + 6) 7 ltac:(lia)). lia.
Qed.

Lemma slot_round (msg : pystr) (f0 f1 f2 f3 f4 f5 i : Z) :
  15 <= i < len msg - 20 ->
  (matched <-
     foldM (fun matched x =>
              if matched : bool then
                a <- getitem msg (i + x) ;;
                b <- getitem [f0; f1; f2; f3; f4; f5] x ;;
                Ok (a =? b)
              else Ok false)
           [-1; -2; -3; -4; -5] true ;;
   f <- getitem [f0; f1; f2; f3; f4; f5] 0 ;;
   p <- (if f =? 48 then Ok true
         else m6 <- getitem msg (i - 6) ;;
              Ok ((m6 =? 48) || (f =? m6))) ;;
   Ok (matched && p))
  = Ok (slot_matches msg [f0; f1; f2; f3; f4; f5] i).
Proof.
  intros Hi. unfold slot_matches. cbn [foldM forallb].
  change (getitem [f0; f1; f2; f3; f4; f5] (-1)) with (Ok f5).
  change (getitem [f0; f1; f2; f3; f4; f5] (-2)) with (Ok f4).
  change (getitem [f0; f1; f2; f3; f4; f5] (-3)) with (Ok f3).
  change (getitem [f0; f1; f2; f3; f4; f5] (-4)) with (Ok f2).
  change (getitem [f0; f1; f2; f3; f4; f5] (-5)) with (Ok f1).
  change (getitem [f0; f1; f2; f3; f4; f5] 0) with (Ok f0).
  change (nth (Z.to_nat (6 + -1)) [f0; f1; f2; f3; f4; f5] 0) with f5.
  change (nth (Z.to_nat (6 + -2)) [f0; f1; f2; f3; f4; f5] 0) with f4.
  change (nth (Z.to_nat (6 + -3)) [f0; f1; f2; f3; f4; f5] 0) with f3.
  change (nth (Z.to_nat (6 + -4)) [f0; f1; f2; f3; f4; f5] 0) with f2.
  change (nth (Z.to_nat (6 + -5)) [f0; f1; f2; f3; f4; f5] 0) with f1.
  cbn [nth].
  rewrite (getitem_Z msg (i + -1) 0) by lia. cbn [bind].
  destruct (nth (Z.to_nat (i + -1)) msg 0 =? f5); cbn [andb bind];
    [rewrite (getitem_Z msg (i + -2) 0) by lia; cbn [bind];
     destruct (nth (Z.to_nat (i + -2)) msg 0 =? f4); cbn [andb bind];
     [rewrite (getitem_Z msg (i + -3) 0) by lia; cbn [bind];
      destruct (nth (Z.to_nat (i + -3)) msg 0 =? f3); cbn [andb bind];
      [rewrite (getitem_Z msg (i + -4) 0) by lia; cbn [bind];
       destruct (nth (Z.to_nat (i + -4)) msg 0 =? f2); cbn [andb bind];
       [rewrite (getitem_Z msg (i + -5) 0) by lia; cbn [bind];
        destruct (nth (Z.to_nat (i + -5)) msg 0 =? f1); cbn [andb bind] | ] | ] | ] | ];
    (destruct (f0 =? 48); cbn [bind orb andb];
     [reflexivity | rewrite (getitem_Z msg (i - 6) 0) by lia; reflexivity]).
Qed.

Lemma slots_loop (msg fips : pystr) (l : list Z) (found : bool) :
  List.length fips = 6%nat ->
  (forall i, In i l -> 15 <= i < len msg - 20) ->
  foldM (fun found i =>
           if found : bool then Ok true
           else
             matched <-
               foldM (fun matched x =>
                        if matched : bool then
                          a <- getitem msg (i + x) ;;
                          b <- getitem fips x ;;
                          Ok (a =? b)
                        else Ok false)
                     [-1; -2; -3; -4; -5] true ;;
             f0 <- getitem fips 0 ;;
             p <- (if f0 =? 48 then Ok true
                   else m6 <- getitem msg (i - 6) ;;
                        Ok ((m6 =? 48) || (f0 =? m6))) ;;
             Ok (matched && p))
        l found
  = Ok (found || existsb (slot_matches msg fips) l).
Proof.
  intros H6 Hl. do 7 (destruct fips as [|? fips]; try discriminate H6). clear H6.
  match goal with |- foldM ?f _ _ = _ => set (F := f) end.
  assert (HF : forall fd i, 15 <= i < len msg - 20 ->
                 F fd i = Ok (fd || slot_matches msg [z; z0; z1; z2; z3; z4] i)).
  { intros fd i Hi. unfold F. destruct fd; [reflexivity|]. now rewrite slot_round. }
  clearbody F. revert found Hl. induction l as [|i l IH]; intros found Hl.
  - cbn. now rewrite orb_false_r.
  - cbn [foldM existsb]. rewrite HF by (apply Hl; now left). cbn [bind].
    rewrite IH by (intros; apply Hl; now right). now rewrite orb_assoc.
Qed.

(** X23. On a message that holds its averaged header, at a call where
    [fully_received] answers true (the timeout has passed or three
    headers are in), [applies_to_fips] with a query of six characters
    never raises and leaves the message as [fully_received] leaves it.
    It returns whether some county slot of the header (the slots end at
    the indices 15, 22, ... below [len(msg) - 20]) has the query's five
    county digits and a part digit that is ['0'], or the query's, or is
    matched by a query whose part digit is ['0'].  So whenever the query
    [P] + county matches, the query ['0'] + county matches; and on a
    header of 35 characters or fewer the answer is always false. *)
Theorem applies_to_fips_slots (w w1 : world SAMEMessage.t) (a : pystr * list cval) :
  SAMEMessage.avg_message (self w) = Some a ->
  SAMEMessage.fully_received clock false false w = (Ok true, w1) ->
  (forall fips, len fips = 6 ->
     SAMEMessage.applies_to_fips data tm clock fips w
     = (Ok (existsb (slot_matches (fst a) fips) (range7 15 (len (fst a) - 20))), w1))
  /\ (forall p county, len county = 5 ->
        fst (SAMEMessage.applies_to_fips data tm clock (p :: county) w) = Ok true ->
        fst (SAMEMessage.applies_to_fips data tm clock (48 :: county) w) = Ok true)
  /\ (len (fst a) <= 35 ->
      forall fips, len fips = 6 ->
        fst (SAMEMessage.applies_to_fips data tm clock fips w) = Ok false).
Proof.
  intros Ha Hc.
  assert (H6 : forall fips, len fips = 6 ->
     SAMEMessage.applies_to_fips data tm clock fips w
     = (Ok (existsb (slot_matches (fst a) fips) (range7 15 (len (fst a) - 20))), w1)).
  { intros fips Hf. unfold SAMEMessage.applies_to_fips.
    cbv zeta. rewrite Hf. change (6 =? 5) with false. cbv iota. rewrite Hf.
    change (6 =? 6) with true. cbn [negb]. unfold bindM, SAMEMessage.get_SAME_message.
    rewrite (get_SAME_message_with_stored data tm clock _ w w1 a Ha Hc). unfold lift.
    rewrite slots_loop; [reflexivity | unfold len in Hf; lia | apply range7_bounds]. }
  split; [exact H6|]. split.
  - intros p county Hcounty.
    assert (Hp : len (p :: county) = 6) by (unfold len in *; cbn [List.length]; lia).
    assert (H0 : len (48 :: county) = 6) by (unfold len in *; cbn [List.length]; lia).
    rewrite (H6 _ Hp), (H6 _ H0). cbn [fst]. intros [= E]. f_equal.
    rewrite existsb_exists in *. destruct E as (i & Hi & Hm). exists i. split; [exact Hi|].
    revert Hm. unfold slot_matches. cbn [forallb].
    change (Z.to_nat (6 + -1)) with 5%nat. change (Z.to_nat (6 + -2)) with 4%nat.
    change (Z.to_nat (6 + -3)) with 3%nat. change (Z.to_nat (6 + -4)) with 2%nat.
    change (Z.to_nat (6 + -5)) with 1%nat. cbn [nth].
    intros Hm. apply andb_true_iff in Hm. destruct Hm as [Hm _]. rewrite Hm. reflexivity.
  - intros Hshort fips Hf. rewrite (H6 _ Hf). cbn [fst]. f_equal.
    unfold range7.
    assert (Hq : (len (fst a) - 20 - 15 + 6) / 7 <= 0).
    { destruct (Z.le_gt_cases 0 (len (fst a) - 20 - 15 + 6)).
      - rewrite Z.div_small by lia. lia.
      - pose proof (Z.div_lt_upper_bound (len (fst a) - 20 - 15 + 6) 7 0 ltac:(lia) ltac:(lia)).
        lia. }
    destruct ((len (fst a) - 20 - 15 + 6) / 7); [reflexivity | lia | reflexivity].
Qed.

End Fips.

Lemma applies_to_fips_slots_witness :
  SAMEMessage.applies_to_fips no_data Utc.time (ticking 2000 1) (str "039051")
    (mk_world 0 averaged_example)
  = (Ok true, mk_world 1 averaged_example).
Proof.
  rewrite (proj1 (applies_to_fips_slots no_data Utc.time (ticking 2000 1)
                    (mk_world 0 averaged_example) (mk_world 1 averaged_example)
                    (clean_header, repeat (CInt 9) 52) eq_refl eq_refl)
             (str "039051") eq_refl).
  reflexivity.
Defined.

(** ** [SAMEMessage]: the accessors on a header of the protocol *)

Lemma slice_app_mid {A} (a b c : list A) (i j : Z) :
  i = len a -> j = len a + len b -> slice (a ++ b ++ c) i j = b.
Proof.
  intros -> ->. unfold len. rewrite slice_firstn_skipn.
  - replace (Z.of_nat (List.length a) + Z.of_nat (List.length b) - Z.of_nat (List.length a))
      with (Z.of_nat (List.length b)) by lia.
    rewrite !Nat2Z.id. rewrite skipn_app, Nat.sub_diag, skipn_all. cbn [skipn app].
    rewrite firstn_app, Nat.sub_diag, firstn_all. cbn [firstn]. apply app_nil_r.
  - lia.
  - unfold len. rewrite !length_app. lia.
Qed.

Lemma slice_to_last {A} (l : list A) (a : Z) :
  0 < len l -> slice l a (-1) = slice l a (len l - 1).
Proof.
  intros H. unfold slice. f_equal. f_equal. f_equal. unfold clamp_index.
  change (-1 <? 0) with true. cbv iota.
  destruct (Z.ltb_spec (len l - 1) 0); [lia|]. f_equal. f_equal. lia.
Qed.

Lemma find_from_app (c : Z) (pre rest : pystr) (i : Z) :
  ~ In c pre -> find_from c (pre ++ c :: rest) i = i + len pre.
Proof.
  revert i. induction pre as [|x pre IH]; intros i Hn; cbn [app find_from].
  - rewrite Z.eqb_refl. unfold len. cbn. lia.
  - destruct (Z.eqb_spec x c) as [->|_]; [exfalso; apply Hn; now left|].
    rewrite IH by (intros H; apply Hn; now right).
    unfold len. cbn [List.length]. lia.
Qed.

Lemma split_on_nonempty (sep : Z) (s : pystr) : split_on sep s <> [].
Proof.
  destruct s as [|c t]; cbn [split_on]; [discriminate|].
  destruct (split_on sep t); [discriminate|]. destruct (c =? sep); discriminate.
Qed.

Lemma split_on_no_sep (sep : Z) (p : pystr) : ~ In sep p -> split_on sep p = [p].
Proof.
  induction p as [|c p IH]; intros Hn; [reflexivity|].
  cbn [split_on]. rewrite IH by (intros H; apply Hn; now right).
  destruct (Z.eqb_spec c sep) as [->|_]; [exfalso; apply Hn; now left | reflexivity].
Qed.

Lemma split_on_app (sep : Z) (p rest : pystr) :
  ~ In sep p -> split_on sep (p ++ sep :: rest) = p :: split_on sep rest.
Proof.
  induction p as [|c p IH]; intros Hn; cbn [app split_on].
  - rewrite Z.eqb_refl. pose proof (split_on_nonempty sep rest).
    destruct (split_on sep rest); [contradiction | reflexivity].
  - rewrite IH by (intros H; apply Hn; now right).
    destruct (Z.eqb_spec c sep) as [->|_]; [exfalso; apply Hn; now left | reflexivity].
Qed.

Lemma split_on_join (sep : Z) (parts : list pystr) :
  parts <> [] -> (forall p, In p parts -> ~ In sep p) ->
  split_on sep (join_with sep parts) = parts.
Proof.
  destruct parts as [|p ps]; [contradiction|]. intros _. revert p.
  induction ps as [|q ps IH]; intros p Hn; cbn [join_with map List.concat].
  - rewrite app_nil_r. apply split_on_no_sep, Hn. now left.
  - change ((sep :: q) ++ List.concat (map (cons sep) ps))
      with (sep :: join_with sep (q :: ps)).
    rewrite split_on_app by (apply Hn; now left). f_equal.
    apply IH. intros p' Hp'. apply Hn. now right.
Qed.

Lemma not_in_join (c sep : Z) (parts : list pystr) :
  c <> sep -> (forall p, In p parts -> ~ In c p) -> ~ In c (join_with sep parts).
Proof.
  intros Hc. destruct parts as [|p ps]; [intros _ []|]. revert p.
  induction ps as [|q ps IH]; intros p Hn; cbn [join_with map List.concat].
  - rewrite app_nil_r. apply Hn. now left.
  - change ((sep :: q) ++ List.concat (map (cons sep) ps))
      with (sep :: join_with sep (q :: ps)).
    intros H. apply in_app_or in H. destruct H as [H|[H|H]].
    + apply (Hn p); [now left | exact H].
    + congruence.
    + apply (IH q); [|exact H]. intros p' Hp'. apply Hn. now right.
Qed.


Lemma header_fields (originator event : pystr) (counties : list pystr)
    (purge issued station : pystr) :
  List.length originator = 3%nat -> List.length event = 3%nat ->
  ~ In plus originator -> ~ In plus event ->
  counties <> [] -> (forall c, In c counties -> ~ In dash c /\ ~ In plus c) ->
  List.length purge = 4%nat -> List.length issued = 7%nat ->
  let m := SAME_header originator event counties purge issued station in
  slice m 1 4 = originator
  /\ slice m 5 8 = event
  /\ split_on dash (slice m 9 (find m plus)) = counties
  /\ slice m (find m plus + 1) (find m plus + 1 + 4) = purge
  /\ slice m (find m plus + 6) (find m plus + 6 + 7) = issued
  /\ slice m (find m plus + 14) (-1) = station.
Proof.
  intros Ho He Hpo Hpe Hc Hcs Hp Hi m.
  set (J := join_with dash counties).
  set (pre := [dash] ++ originator ++ [dash] ++ event ++ [dash]).
  assert (Hpre : len pre = 9)
    by (unfold pre, len; rewrite !length_app, Ho, He; reflexivity).
  assert (Em : m = pre ++ J ++ [plus] ++ purge ++ [dash] ++ issued ++ [dash] ++ station ++ [dash]).
  { unfold m, SAME_header, pre, J. now rewrite <- !app_assoc. }
  assert (Hfind : find m plus = 9 + len J).
  { unfold find. rewrite Em, app_assoc. cbn [app].
    rewrite find_from_app.
    - unfold len in *. rewrite length_app. lia.
    - intros H. apply in_app_or in H. destruct H as [H|H].
      + unfold pre in H. cbn [app] in H. destruct H as [H|H]; [discriminate H|].
        apply in_app_or in H. destruct H as [H|[H|H]]; [contradiction | discriminate H|].
        apply in_app_or in H. destruct H as [H|[H|[]]]; [contradiction | discriminate H].
      + revert H. apply not_in_join; [discriminate|]. intros c Hin. apply Hcs, Hin. }
  rewrite !Hfind. repeat split.
  - unfold m, SAME_header. apply slice_app_mid; unfold len; cbn [List.length]; lia.
  - unfold m, SAME_header.
    rewrite (app_assoc [dash] originator), (app_assoc ([dash] ++ originator) [dash]).
    apply slice_app_mid; unfold len; rewrite !length_app; cbn [List.length]; lia.
  - rewrite Em. rewrite (slice_app_mid pre J); [|lia|lia].
    apply split_on_join; [exact Hc|]. intros c Hin. apply Hcs, Hin.
  - rewrite Em. rewrite (app_assoc pre J), (app_assoc (pre ++ J) [plus]).
    apply slice_app_mid; unfold len in *; rewrite !length_app; cbn [List.length]; lia.
  - rewrite Em.
    rewrite (app_assoc pre J), (app_assoc (pre ++ J) [plus]),
      (app_assoc ((pre ++ J) ++ [plus]) purge), (app_assoc (((pre ++ J) ++ [plus]) ++ purge) [dash]).
    apply slice_app_mid; unfold len in *; rewrite !length_app; cbn [List.length]; lia.
  - rewrite slice_to_last by (rewrite Em; unfold len; rewrite !length_app; cbn [List.length]; lia).
    rewrite Em.
    rewrite (app_assoc pre J), (app_assoc (pre ++ J) [plus]),
      (app_assoc ((pre ++ J) ++ [plus]) purge), (app_assoc (((pre ++ J) ++ [plus]) ++ purge) [dash]),
      (app_assoc ((((pre ++ J) ++ [plus]) ++ purge) ++ [dash]) issued),
      (app_assoc (((((pre ++ J) ++ [plus]) ++ purge) ++ [dash]) ++ issued) [dash]).
    apply slice_app_mid; unfold len in *; rewrite !length_app; cbn [List.length]; lia.
Qed.

Section Parse.
Variable data : nwr_data.
Variable tm : pytime.
Variable clock : nat -> Z.

(** X24. The accessors take a header of the protocol apart.  On a message
    that holds the averaged header
    [-ORG-EEE-county-...-county+TTTT-JJJHHMM-station-], with an
    originator and an event of three characters without ['+'], at least
    one county, counties without ['-'] and ['+'], a purge time of four
    characters and an issue time of seven, at a call where
    [fully_received] answers true (the timeout has passed or three
    headers are in): [get_originator], [get_event_type], [get_counties]
    (and [get_areas]), [get_duration_str], [get_start_time_str] and
    [get_broadcaster] return the originator, the event, the list of
    counties, the purge time, the issue time and the station. *)
Theorem accessors_invert_header (w w1 : world SAMEMessage.t) (conf : list cval)
    (originator event : pystr) (counties : list pystr) (purge issued station : pystr) :
  SAMEMessage.avg_message (self w)
  = Some (SAME_header originator event counties purge issued station, conf) ->
  SAMEMessage.fully_received clock false false w = (Ok true, w1) ->
  List.length originator = 3%nat -> List.length event = 3%nat ->
  ~ In plus originator -> ~ In plus event ->
  counties <> [] -> (forall c, In c counties -> ~ In dash c /\ ~ In plus c) ->
  List.length purge = 4%nat -> List.length issued = 7%nat ->
  fst (SAMEMessage.get_originator data tm clock w) = Ok originator
  /\ fst (SAMEMessage.get_event_type data tm clock w) = Ok event
  /\ fst (SAMEMessage.get_counties data tm clock w) = Ok counties
  /\ fst (SAMEMessage.get_areas data tm clock w) = Ok counties
  /\ fst (SAMEMessage.get_duration_str data tm clock w) = Ok purge
  /\ fst (SAMEMessage.get_start_time_str data tm clock w) = Ok issued
  /\ fst (SAMEMessage.get_broadcaster data tm clock w) = Ok station.
Proof.
  intros Ha Hfr Ho He Hpo Hpe Hc Hcs Hp Hi.
  destruct (header_fields originator event counties purge issued station
              Ho He Hpo Hpe Hc Hcs Hp Hi) as (F1 & F2 & F3 & F4 & F5 & F6).
  unfold SAMEMessage.get_areas, SAMEMessage.get_originator, SAMEMessage.get_event_type,
    SAMEMessage.get_counties, SAMEMessage.get_duration_str, SAMEMessage.get_start_time_str,
    SAMEMessage.get_broadcaster, bindM, SAMEMessage.get_SAME_message.
  rewrite (get_SAME_message_with_stored data tm clock _ w w1 _ Ha Hfr).
  unfold ret. cbn [fst]. cbv zeta.
  rewrite F1, F2, F3, F4, F5, F6. repeat split.
Qed.

(** X25. On such a header whose purge time is the four digits
    [h1 h2 m1 m2], at a call where [fully_received] answers true,
    [get_duration_sec] returns
    [(10 h1 + h2) * 3600 + (10 m1 + m2) * 60], and leaves the message as
    [fully_received] leaves it. *)
Theorem duration_of_header (w w1 : world SAMEMessage.t) (conf : list cval)
    (originator event : pystr) (counties : list pystr) (issued station : pystr)
    (h1 h2 m1 m2 : Z) :
  SAMEMessage.avg_message (self w)
  = Some (SAME_header originator event counties [48 + h1; 48 + h2; 48 + m1; 48 + m2]
            issued station, conf) ->
  SAMEMessage.fully_received clock false false w = (Ok true, w1) ->
  List.length originator = 3%nat -> List.length event = 3%nat ->
  ~ In plus originator -> ~ In plus event ->
  counties <> [] -> (forall c, In c counties -> ~ In dash c /\ ~ In plus c) ->
  List.length issued = 7%nat ->
  0 <= h1 <= 9 -> 0 <= h2 <= 9 -> 0 <= m1 <= 9 -> 0 <= m2 <= 9 ->
  SAMEMessage.get_duration_sec data tm clock w
  = (Ok ((10 * h1 + h2) * 3600 + (10 * m1 + m2) * 60), w1).
Proof.
  intros Ha Hfr Ho He Hpo Hpe Hc Hcs Hi H1 H2 H3 H4.
  destruct (header_fields originator event counties [48 + h1; 48 + h2; 48 + m1; 48 + m2]
              issued station Ho He Hpo Hpe Hc Hcs eq_refl Hi) as (_ & _ & _ & F4 & _).
  unfold SAMEMessage.get_duration_sec, SAMEMessage.get_duration_str, bindM,
    SAMEMessage.get_SAME_message.
  rewrite (get_SAME_message_with_stored data tm clock _ w w1 _ Ha Hfr).
  unfold ret, lift. cbn [fst]. cbv zeta.
  rewrite F4.
  change (slice [48 + h1; 48 + h2; 48 + m1; 48 + m2] 0 2) with [48 + h1; 48 + h2].
  change (slice [48 + h1; 48 + h2; 48 + m1; 48 + m2] 2 4) with [48 + m1; 48 + m2].
  assert (D : forall a b, 0 <= a <= 9 -> 0 <= b <= 9 ->
                int_of_str [48 + a; 48 + b] = Ok (10 * a + b)).
  { intros a b Ha' Hb. unfold int_of_str, is_digit. cbn [forallb].
    change (len [48 + a; 48 + b] =? 0) with false. cbn [orb].
    destruct (Z.leb_spec 48 (48 + a)); [|lia]. destruct (Z.leb_spec (48 + a) 57); [|lia].
    destruct (Z.leb_spec 48 (48 + b)); [|lia]. destruct (Z.leb_spec (48 + b) 57); [|lia].
    cbn [andb negb fold_left]. f_equal. lia. }
  rewrite !D by assumption. do 2 f_equal. lia.
Qed.

End Parse.

Lemma accessors_invert_header_witness :
  fst (SAMEMessage.get_counties no_data Utc.time (ticking 2000 1) (mk_world 0 averaged_example))
  = Ok [str "039173"; str "039051"; str "139069"].
Proof.
  refine (proj1 (proj2 (proj2
    (accessors_invert_header no_data Utc.time (ticking 2000 1) (mk_world 0 averaged_example)
       (mk_world 1 averaged_example)
       (repeat (CInt 9) 52) (str "WXR") (str "TOR")
       [str "039173"; str "039051"; str "139069"] (str "0030") (str "1591829")
       (str "KCLE/NWS") _ _ _ _ _ _ _ _ _ _)))).
  - reflexivity.
  - reflexivity.
  - reflexivity.
  - reflexivity.
  - cbn. intuition discriminate.
  - cbn. intuition discriminate.
  - discriminate.
  - intros c [<-|[<-|[<-|[]]]]; cbn; intuition discriminate.
  - reflexivity.
  - reflexivity.
Defined.

Lemma duration_of_header_witness :
  SAMEMessage.get_duration_sec no_data Utc.time (ticking 2000 1) (mk_world 0 averaged_example)
  = (Ok 1800, mk_world 1 averaged_example).
Proof.
  refine (duration_of_header no_data Utc.time (ticking 2000 1) (mk_world 0 averaged_example)
            (mk_world 1 averaged_example)
            (repeat (CInt 9) 52) (str "WXR") (str "TOR")
            [str "039173"; str "039051"; str "139069"] (str "1591829") (str "KCLE/NWS")
            0 0 3 0 _ _ _ _ _ _ _ _ _ _ _ _ _).
  - reflexivity.
  - reflexivity.
  - reflexivity.
  - reflexivity.
  - cbn. intuition discriminate.
  - cbn. intuition discriminate.
  - discriminate.
  - intros c [<-|[<-|[<-|[]]]]; cbn; intuition discriminate.
  - reflexivity.
  - lia.
  - lia.
  - lia.
  - lia.
Defined.

(** ** [by_score_and_time], [EventMessageGroup] and [MessageCache.add_message] *)

Module CacheMore.
Import Cache.

(** X26. [by_score_and_time] orders scored messages by falling score and,
    at equal scores, by falling start time: swapping the arguments
    negates the result; the result is negative exactly when the first
    message has the higher score, or the same score and the later start;
    it is 0 exactly when scores and start times are equal; and "not
    after" is transitive. *)
Theorem by_score_and_time_order (a b c : ScoredMessage.t) :
  let score := ScoredMessage.score in
  let start := ScoredMessage.get_start_time_sec in
  by_score_and_time b a = - by_score_and_time a b
  /\ (by_score_and_time a b < 0
      <-> score b < score a \/ (score a = score b /\ start b < start a))
  /\ (by_score_and_time a b = 0 <-> score a = score b /\ start a = start b)
  /\ (by_score_and_time a b <= 0 -> by_score_and_time b c <= 0 -> by_score_and_time a c <= 0).
Proof.
  cbv zeta. unfold by_score_and_time.
  repeat match goal with |- context [negb (?x =? 0)] => destruct (Z.eqb_spec x 0) end;
    cbn [negb]; repeat split; intros; lia.
Qed.

Lemma existsb_snoc (m : message) (l : list message) :
  existsb (message_eqb m) (l ++ [m]) = true.
Proof.
  rewrite existsb_app. cbn [existsb]. unfold message_eqb at 2. rewrite Z.eqb_refl.
  now rewrite orb_true_r.
Qed.

Lemma group_add_message_cases (g : EventMessageGroup.t) (m : message) (e : pystr) :
  same_event e g ->
  (EventMessageGroup.messages g <> [] -> event_id m <> e ->
   EventMessageGroup.add_message g m = Raise AssertionError)
  /\ (event_id m = e ->
      exists g', EventMessageGroup.add_message g m = Ok g'
        /\ same_event e g'
        /\ existsb (message_eqb m) (EventMessageGroup.messages g') = true
        /\ (existsb (message_eqb m) (EventMessageGroup.messages g) = true -> g' = g)
        /\ EventMessageGroup.add_message g' m = Ok g').
Proof.
  intros Hs. unfold EventMessageGroup.add_message, EventMessageGroup.get_event_id.
  destruct g as [ms ar]. cbn [EventMessageGroup.messages EventMessageGroup.areas] in *.
  unfold same_event in Hs. cbn [EventMessageGroup.messages] in Hs.
  destruct ms as [|m0 l].
  - split; [intros H; contradiction|]. intros He.
    cbn [len List.length Z.of_nat Z.eqb negb app].
    eexists. split; [reflexivity|]. cbn [EventMessageGroup.messages EventMessageGroup.areas].
    split; [|split; [|split]].
    + intros x [<-|[]]. exact He.
    + cbn. unfold message_eqb. now rewrite Z.eqb_refl.
    + cbn. discriminate.
    + change (len [m] =? 0) with false. cbn [negb]. rewrite He, <- He.
      rewrite (proj2 (pystr_eqb_eq _ _) eq_refl). cbn [negb].
      cbn [existsb]. unfold message_eqb. rewrite Z.eqb_refl. reflexivity.
  - assert (Hl : (len (m0 :: l) =? 0) = false)
      by (apply Z.eqb_neq; unfold len; cbn [List.length]; lia).
    rewrite Hl. cbn [negb].
    assert (H0 : event_id m0 = e) by (apply Hs; now left).
    split.
    + intros _ Hne. destruct (pystr_eqb (event_id m) (event_id m0)) eqn:E; [|reflexivity].
      apply pystr_eqb_eq in E. congruence.
    + intros He. rewrite H0, He, (proj2 (pystr_eqb_eq e e) eq_refl). cbn [negb].
      destruct (existsb (message_eqb m) (m0 :: l)) eqn:Ex.
      * eexists. split; [reflexivity|]. cbn [EventMessageGroup.messages].
        split; [exact Hs|]. split; [exact Ex|]. split; [reflexivity|].
        rewrite Hl. cbn [negb]. rewrite H0, (proj2 (pystr_eqb_eq e e) eq_refl). cbn [negb].
        now rewrite Ex.
      * eexists. split; [reflexivity|]. cbn [EventMessageGroup.messages].
        split; [|split; [|split]].
        -- intros x Hx. rewrite <- app_comm_cons in Hx. destruct Hx as [<-|Hx]; [exact H0|].
           apply in_app_or in Hx. destruct Hx as [Hx|[<-|[]]]; [apply Hs; now right | exact He].
        -- apply (existsb_snoc m (m0 :: l)).
        -- discriminate.
        -- assert (Hl' : (len ((m0 :: l) ++ [m]) =? 0) = false)
             by (apply Z.eqb_neq; unfold len; cbn [List.length app]; lia).
           rewrite Hl'. cbn [negb]. cbn [app]. rewrite H0, (proj2 (pystr_eqb_eq e e) eq_refl).
           cbn [negb]. change (m0 :: l ++ [m]) with ((m0 :: l) ++ [m]).
           now rewrite existsb_snoc.
Qed.

(** X27. [EventMessageGroup.add_message] on a group whose messages all
    carry the event id [e].  A message with another event id is refused
    with [AssertionError] when the group is not empty.  A message with
    the event id [e] is accepted: the group then holds it, its messages
    still all carry [e], a message that was already in the group leaves
    the group as it was, and adding the message once more changes
    nothing. *)
Theorem group_add_message_spec (g : EventMessageGroup.t) (m : message) (e : pystr) :
  same_event e g ->
  (EventMessageGroup.messages g <> [] -> event_id m <> e ->
   EventMessageGroup.add_message g m = Raise AssertionError)
  /\ (event_id m = e ->
      exists g', EventMessageGroup.add_message g m = Ok g'
        /\ same_event e g'
        /\ existsb (message_eqb m) (EventMessageGroup.messages g') = true
        /\ (existsb (message_eqb m) (EventMessageGroup.messages g) = true -> g' = g)
        /\ EventMessageGroup.add_message g' m = Ok g').
Proof. apply group_add_message_cases. Qed.

Lemma lookup_store_same (k : pystr) (v : EventMessageGroup.t)
    (d : list (pystr * EventMessageGroup.t)) :
  lookup k (store k v d) = Some v.
Proof.
  induction d as [|[k' v'] d IH]; cbn [store lookup].
  - now rewrite (proj2 (pystr_eqb_eq k k) eq_refl).
  - destruct (pystr_eqb k k') eqn:E; cbn [lookup]; rewrite E; [reflexivity | exact IH].
Qed.

Lemma lookup_store_other (k k0 : pystr) (v : EventMessageGroup.t)
    (d : list (pystr * EventMessageGroup.t)) :
  k0 <> k -> lookup k0 (store k v d) = lookup k0 d.
Proof.
  intros Hne. induction d as [|[k' v'] d IH]; cbn [store lookup].
  - destruct (pystr_eqb k0 k) eqn:E; [apply pystr_eqb_eq in E; contradiction | reflexivity].
  - destruct (pystr_eqb k k') eqn:E; cbn [lookup].
    + apply pystr_eqb_eq in E. subst k'.
      destruct (pystr_eqb k0 k) eqn:E0; [apply pystr_eqb_eq in E0; contradiction | reflexivity].
    + now rewrite IH.
Qed.

Lemma in_store_key (k k0 : pystr) (v g : EventMessageGroup.t)
    (d : list (pystr * EventMessageGroup.t)) :
  In (k0, g) (store k v d) -> (k0 = k /\ g = v) \/ In (k0, g) d.
Proof.
  induction d as [|[k' v'] d IH]; cbn [store].
  - intros [[= <- <-]|[]]. now left.
  - destruct (pystr_eqb k k') eqn:E.
    + apply pystr_eqb_eq in E. subst k'.
      intros [[= <- <-]|H]; [now left | right; now right].
    + intros [H|H]; [right; now left|].
      destruct (IH H); [now left | right; now right].
Qed.

Lemma lookup_in_key (k : pystr) (d : list (pystr * EventMessageGroup.t))
    (h : EventMessageGroup.t) :
  lookup k d = Some h -> In (k, h) d.
Proof.
  induction d as [|[k' v'] d IH]; cbn [lookup]; [discriminate|].
  destruct (pystr_eqb k k') eqn:E.
  - apply pystr_eqb_eq in E. subst k'. intros [= ->]. now left.
  - intros H. right. now apply IH.
Qed.

Section Handlers.
Variable clock : nat -> Z.

(** X28. [MessageCache.add_message] on a cache whose groups are stored
    under the event id of their messages: the call returns, the cache
    is again such a cache, the group found under the message's event id
    holds the message, the groups under every other event id are what
    they were, and exactly [update_score(message)] is fired. *)
Theorem cache_add_message_lookup (m : message) (n : nat) (c : t) :
  well_keyed c ->
  exists w',
    add_message m (mk_world n c) = (Ok tt, w')
    /\ well_keyed (self w')
    /\ (exists g, lookup (event_id m) (messages (self w')) = Some g
                  /\ existsb (message_eqb m) (EventMessageGroup.messages g) = true)
    /\ (forall k, k <> event_id m -> lookup k (messages (self w')) = lookup k (messages c))
    /\ fired (self w') = fired c ++ [update_score (Some m)]
    /\ old_score (self w') = old_score c.
Proof.
  intros Hw. unfold add_message, bindM, get, modify, lift.
  cbn [self readings set_messages messages].
  set (holder := match lookup (event_id m) (messages c) with
                 | Some h => h
                 | None => EventMessageGroup.__init__
                 end).
  assert (Hh : same_event (event_id m) holder).
  { unfold holder. destruct (lookup (event_id m) (messages c)) as [h|] eqn:El.
    - apply lookup_in_key in El. apply (Hw _ _ El).
    - intros x []. }
  destruct (group_add_message_cases holder m (event_id m) Hh) as [_ Hadd].
  destruct (Hadd eq_refl) as (g' & Ea & Hs' & Hex & _).
  rewrite Ea. cbn [self readings set_messages messages emit old_score fired].
  rewrite CacheFacts.store_store.
  eexists. split; [reflexivity|]. cbn [self set_messages messages emit old_score fired].
  split; [|split; [|split; [|split]]].
  - intros k g Hin. destruct (in_store_key _ _ _ _ _ Hin) as [[-> ->]|Hin'].
    + split; [|exact Hs']. intros E. rewrite E in Hex. discriminate.
    + apply (Hw _ _ Hin').
  - exists g'. split; [apply lookup_store_same | exact Hex].
  - intros k Hk. now apply lookup_store_other.
  - reflexivity.
  - reflexivity.
Qed.

Hypothesis clock_mono : nondecreasing clock.

Lemma subsequence_refl {A} (l : list A) : subsequence l l.
Proof. induction l; constructor; assumption. Qed.

(** X29. One [generate_events] tick, on a cache whose groups are
    populated and under a nondecreasing clock, loses no group that is
    still running: the groups left are the old groups in their old
    order, some left out, and every group that ends at or after the last
    clock reading of the tick is among them.  The tick takes two
    readings, and one more for each group when it sweeps; the time it
    hands to [reduce_time_left] is between 0 and 15 minutes. *)
Theorem generate_events_keeps_live (c : t) (n : nat) :
  populated c ->
  exists w',
    _generate_events clock (mk_world n c) = (Ok tt, w')
    /\ subsequence (messages (self w')) (messages c)
    /\ (forall kg, In kg (messages c) ->
          clock (Nat.pred (readings w')) <= group_end (snd kg) ->
          In kg (messages (self w')))
    /\ (readings w' = (n + 2)%nat
        \/ readings w' = (n + 2 + List.length (messages c))%nat)
    /\ exists seconds rest,
         fired (self w') = fired c ++ reduce_time_left seconds :: rest
         /\ 0 <= seconds <= 15 * 60.
Proof.
  intros Hp.
  assert (Hleft : forall x now, 0 <= time_left x now <= 15 * 60)
    by (intros [| |] now; unfold time_left; lia).
  unfold _generate_events, bindM at 1.
  rewrite (CacheFacts.get_first_expiry_populated (mk_world n c) Hp). cbn [self].
  unfold bindM at 1, now_ at 1. cbn [readings self].
  unfold bindM at 1, modify at 1. cbn [readings self].
  unfold bindM at 1, now_ at 1. cbn [readings self].
  destruct (xltb (first_expiry c) (Fin (clock (S n)))) eqn:Ex.
  - unfold bindM at 1, get at 1. cbn [self messages emit].
    unfold bindM at 1.
    rewrite (CacheFacts.keep_unexpired_closed clock (messages c) (S (S n))
               (emit (reduce_time_left (time_left (first_expiry c) (clock n))) c) Hp).
    eexists. split; [reflexivity|].
    cbn [snd self readings set_messages emit messages fired].
    split; [apply CacheFacts.unexpired_at_subsequence|]. split; [|split].
    + intros kg Hin He. now apply CacheFacts.unexpired_at_live.
    + right. lia.
    + eexists _, [update_score None]. rewrite <- app_assoc. split; [reflexivity | apply Hleft].
  - eexists. split; [reflexivity|]. cbn [snd self readings emit messages fired].
    split; [apply subsequence_refl|]. split; [auto|]. split; [left; lia|].
    eexists _, []. split; [reflexivity | apply Hleft].
Qed.

End Handlers.

Lemma by_score_and_time_order_witness :
  let a := ScoredMessage.__init__ example_tornado 40 in
  let b := ScoredMessage.__init__ example_storm 30 in
  by_score_and_time a b < 0.
Proof.
  intros a b. apply (by_score_and_time_order a b a). left. vm_compute. reflexivity.
Defined.

Lemma group_add_message_spec_witness :
  exists g,
    EventMessageGroup.add_message EventMessageGroup.__init__ example_tornado = Ok g
    /\ EventMessageGroup.add_message g example_tornado = Ok g.
Proof.
  destruct (group_add_message_spec EventMessageGroup.__init__ example_tornado
              (event_id example_tornado)) as [_ H].
  - intros x [].
  - destruct (H eq_refl) as (g & E & _ & _ & _ & E').
    exists g. split; [exact E | exact E'].
Defined.

Lemma cache_add_message_lookup_witness :
  exists w' g,
    add_message example_tornado (mk_world 0 empty_cache) = (Ok tt, w')
    /\ lookup (event_id example_tornado) (messages (self w')) = Some g.
Proof.
  destruct (cache_add_message_lookup example_tornado 0 empty_cache)
    as (w' & E & _ & (g & Hl & _) & _).
  - intros k g [].
  - exists w', g. split; [exact E | exact Hl].
Defined.

Lemma generate_events_keeps_live_witness :
  exists w',
    _generate_events (ticking 1400 50) (mk_world 0 example_cache) = (Ok tt, w')
    /\ subsequence (messages (self w')) (messages example_cache).
Proof.
  destruct (generate_events_keeps_live (ticking 1400 50)
              (ticking_nondecreasing 1400 50 ltac:(lia)) example_cache 0
              CacheFacts.example_cache_populated) as (w' & E & H & _).
  exists w'. split; [exact E | exact H].
Defined.

End CacheMore.
